(** * MPR121Manager: the per-channel touch debounce engine

    A shallow embedding of [src/MPR121_Config.h] and
    [src/MPR121_Control.cpp].

    - [float] members ([value], [threshold]) are IEEE-754 binary32 numbers,
      modelled exactly with the parametric [spec_float] operations of the
      standard library ([prec = 24], [emax = 128]); sub-expressions that C++
      evaluates in [double] use binary64 ([prec = 53], [emax = 1024]), the
      [double] of the targets that provide the [<vector>] the header
      includes.
    - [uint8_t] / [uint16_t] members are [Z]; the wrap-around of the two
      places that compute on them ([counter[i]++], [currentTouched ^= ...])
      is written out.
    - the C arrays of [maxPort] cells are total functions of the index;
      the code only ever indexes them below [maxPort].
    - [cap.filteredData(i)], the sample provider, is an argument: one
      reading per channel and per call of the constructor or [update].
    - the constructor receives the indeterminate contents the object's
      storage has before it runs ([mem]): C++ leaves the cells of the
      channels that the mask does not select uninitialised.

    The device traffic of the constructor ([cap.begin], [writeRegister],
    [delay]) and [printStatus] do not touch the members modelled here. *)

From Stdlib Require Import ZArith Bool List Lia PeanoNat.
From Stdlib Require Import Floats.SpecFloat.
Import ListNotations.
Local Open Scope Z_scope.

(* ================================================================== *)
(** ** Floating point *)

Module F.

(** Re-rounding of a number into the format [(prec, emax)]: the value
    conversions [float -> double] (exact) and [double -> float]
    (round to nearest even). *)
Definition convert (prec emax : Z) (x : spec_float) : spec_float :=
  match x with
  | S754_finite s m e => binary_normalize prec emax (cond_Zopp s (Zpos m)) e s
  | _ => x
  end.

(** Integer to [float] / [double]. *)
Definition f32_of_Z (z : Z) : spec_float := binary_normalize 24 128 z 0 false.
Definition f64_of_Z (z : Z) : spec_float := binary_normalize 53 1024 z 0 false.

Definition f64_of_f32 : spec_float -> spec_float := convert 53 1024.
Definition f32_of_f64 : spec_float -> spec_float := convert 24 128.

Definition add32 := SFadd 24 128.
Definition sub32 := SFsub 24 128.
Definition mul32 := SFmul 24 128.
Definition add64 := SFadd 53 1024.
Definition sub64 := SFsub 53 1024.
Definition mul64 := SFmul 53 1024.

(** [a < b], [a > b] and [a <= b] of C++ (all false on a NaN). *)
Definition lt (a b : spec_float) : bool := SFltb a b.
Definition gt (a b : spec_float) : bool := SFltb b a.
Definition le (a b : spec_float) : bool := SFleb a b.

(** The literals [0.6] and [1.0] have type [double]: the binary64 numbers
    nearest to 6/10 and to 1. *)
Definition lit_0_6 : spec_float := S754_finite false 5404319552844595 (-53).
Definition lit_1_0 : spec_float := S754_finite false 4503599627370496 (-52).

(** Not a NaN and sign bit clear: what every smoothed value is. *)
Definition nonneg (x : spec_float) : Prop :=
  match x with
  | S754_zero s | S754_infinity s | S754_finite s _ _ => s = false
  | S754_nan => False
  end.

End F.

(** Of sign [s], and not a NaN. *)
Definition signed (s : bool) (x : spec_float) : Prop :=
  match x with
  | S754_zero s' | S754_infinity s' | S754_finite s' _ _ => s' = s
  | S754_nan => False
  end.

(** Mantissa of the [float] of a positive integer below [2^24]; its
    exponent is [Pos.size p - 24]. *)
Definition mant32 (p : positive) : positive :=
  Pos.shiftl p (Z.to_N (24 - Zpos (Pos.size p))).

(* ================================================================== *)
(** ** The object *)

(** [static const uint8_t maxPort = 12;] *)
Definition maxPort : nat := 12.

(** [const float alpha = 0.6;] : the [double] literal rounded to [float]. *)
Definition alpha : spec_float := F.f32_of_f64 F.lit_0_6.

(** The data members of [class MPR121Manager] ([cap] apart). *)
Record Manager : Type := mkManager {
  activePort : Z;                    (* uint16_t *)
  address : Z;                       (* uint8_t *)
  value : nat -> spec_float;         (* float [maxPort] *)
  minValue : nat -> Z;               (* uint16_t [maxPort] *)
  maxValue : nat -> Z;               (* uint16_t [maxPort] *)
  currentTouched : Z;                (* uint16_t, = 0 *)
  counter : nat -> Z;                (* uint8_t [maxPort] *)
  threshold : nat -> spec_float;     (* float [maxPort] *)
  touchMargin : nat -> Z;            (* uint16_t [maxPort] *)
  releaseMargin : nat -> Z;          (* uint16_t [maxPort] *)
  touchJuge : nat -> Z;              (* uint8_t [maxPort] *)
  releaseJuge : nat -> Z             (* uint8_t [maxPort] *)
}.

(** [a[i] = x] *)
Definition upd {A : Type} (a : nat -> A) (i : nat) (x : A) : nat -> A :=
  fun j => if Nat.eqb j i then x else a j.

Definition set_value (i : nat) (x : spec_float) (m : Manager) : Manager :=
  mkManager (activePort m) (address m) (upd (value m) i x) (minValue m)
    (maxValue m) (currentTouched m) (counter m) (threshold m)
    (touchMargin m) (releaseMargin m) (touchJuge m) (releaseJuge m).

Definition set_minValue (i : nat) (x : Z) (m : Manager) : Manager :=
  mkManager (activePort m) (address m) (value m) (upd (minValue m) i x)
    (maxValue m) (currentTouched m) (counter m) (threshold m)
    (touchMargin m) (releaseMargin m) (touchJuge m) (releaseJuge m).

Definition set_maxValue (i : nat) (x : Z) (m : Manager) : Manager :=
  mkManager (activePort m) (address m) (value m) (minValue m)
    (upd (maxValue m) i x) (currentTouched m) (counter m) (threshold m)
    (touchMargin m) (releaseMargin m) (touchJuge m) (releaseJuge m).

Definition set_currentTouched (x : Z) (m : Manager) : Manager :=
  mkManager (activePort m) (address m) (value m) (minValue m)
    (maxValue m) x (counter m) (threshold m)
    (touchMargin m) (releaseMargin m) (touchJuge m) (releaseJuge m).

Definition set_counter (i : nat) (x : Z) (m : Manager) : Manager :=
  mkManager (activePort m) (address m) (value m) (minValue m)
    (maxValue m) (currentTouched m) (upd (counter m) i x) (threshold m)
    (touchMargin m) (releaseMargin m) (touchJuge m) (releaseJuge m).

Definition set_threshold (i : nat) (x : spec_float) (m : Manager) : Manager :=
  mkManager (activePort m) (address m) (value m) (minValue m)
    (maxValue m) (currentTouched m) (counter m) (upd (threshold m) i x)
    (touchMargin m) (releaseMargin m) (touchJuge m) (releaseJuge m).

Definition set_touchMargin (i : nat) (x : Z) (m : Manager) : Manager :=
  mkManager (activePort m) (address m) (value m) (minValue m)
    (maxValue m) (currentTouched m) (counter m) (threshold m)
    (upd (touchMargin m) i x) (releaseMargin m) (touchJuge m) (releaseJuge m).

Definition set_releaseMargin (i : nat) (x : Z) (m : Manager) : Manager :=
  mkManager (activePort m) (address m) (value m) (minValue m)
    (maxValue m) (currentTouched m) (counter m) (threshold m)
    (touchMargin m) (upd (releaseMargin m) i x) (touchJuge m) (releaseJuge m).

Definition set_touchJuge (i : nat) (x : Z) (m : Manager) : Manager :=
  mkManager (activePort m) (address m) (value m) (minValue m)
    (maxValue m) (currentTouched m) (counter m) (threshold m)
    (touchMargin m) (releaseMargin m) (upd (touchJuge m) i x) (releaseJuge m).

Definition set_releaseJuge (i : nat) (x : Z) (m : Manager) : Manager :=
  mkManager (activePort m) (address m) (value m) (minValue m)
    (maxValue m) (currentTouched m) (counter m) (threshold m)
    (touchMargin m) (releaseMargin m) (touchJuge m) (upd (releaseJuge m) i x).

(* ================================================================== *)
(** ** Expressions of the source *)

(** Arduino's macro
    [constrain(amt,low,high) ((amt)<(low)?(low):((amt)>(high)?(high):(amt)))]
    at [amt : float], [low, high : uint16_t]: the comparisons and the
    result are [float]. *)
Definition constrain (amt : spec_float) (low high : Z) : spec_float :=
  if F.lt amt (F.f32_of_Z low) then F.f32_of_Z low
  else if F.gt amt (F.f32_of_Z high) then F.f32_of_Z high
  else amt.

(** [alpha * raw + (1.0 - alpha) * value[i]], stored into a [float]:
    [alpha * raw] is a [float] product, [1.0 - alpha] and what follows
    are [double]. *)
Definition smooth (raw : Z) (v : spec_float) : spec_float :=
  F.f32_of_f64
    (F.add64
       (F.f64_of_f32 (F.mul32 alpha (F.f32_of_Z raw)))
       (F.mul64 (F.sub64 F.lit_1_0 (F.f64_of_f32 alpha)) (F.f64_of_f32 v))).

(** [(x >> i) & 1] used as a condition or stored into a [bool]. *)
Definition bit (x : Z) (i : nat) : bool :=
  negb (Z.land (Z.shiftr x (Z.of_nat i)) 1 =? 0).

(** [port < maxPort && (activePort & (1 << port))] *)
Definition valid (port : nat) (m : Manager) : bool :=
  (port <? maxPort)%nat
  && negb (Z.land (activePort m) (Z.shiftl 1 (Z.of_nat port)) =? 0).

(* ================================================================== *)
(** ** Constructor *)

(** Body of the constructor's loop for a selected channel [i], [raw] being
    what [cap.filteredData(i)] returns. *)
Definition init_port (raw : Z) (i : nat) (m : Manager) : Manager :=
  let m := set_minValue i 600 m in
  let m := set_maxValue i 710 m in
  let m := set_value i (F.f32_of_Z raw) m in
  let m := set_value i (constrain (value m i) (minValue m i) (maxValue m i)) m in
  let m := set_touchMargin i 30 m in
  let m := set_releaseMargin i 20 m in
  let m := set_touchJuge i 15 m in
  let m := set_releaseJuge i 15 m in
  let m := set_counter i 0 m in
  set_threshold i (F.sub32 (value m i) (F.f32_of_Z (touchMargin m i))) m.

(** [MPR121Manager::MPR121Manager(setAddress, usedPortMask)] *)
Definition MPR121Manager (mem : Manager) (cap : nat -> Z)
    (setAddress usedPortMask : Z) : Manager :=
  let m :=
    mkManager usedPortMask setAddress (value mem) (minValue mem)
      (maxValue mem) 0 (counter mem) (threshold mem) (touchMargin mem)
      (releaseMargin mem) (touchJuge mem) (releaseJuge mem) in
  fold_left
    (fun m i => if bit (activePort m) i then init_port (cap i) i m else m)
    (seq 0 maxPort) m.

(* ================================================================== *)
(** ** update *)

(** Body of [update]'s loop for a selected channel [i]. *)
Definition update_port (raw : Z) (i : nat) (m : Manager) : Manager :=
  let m := set_value i (smooth raw (value m i)) m in
  let m := set_value i (constrain (value m i) (minValue m i) (maxValue m i)) m in
  let touched := bit (currentTouched m) i in
  let conditionMet :=
    if touched then F.gt (value m i) (threshold m i)
    else F.lt (value m i) (threshold m i) in
  let m :=
    if conditionMet then set_counter i ((counter m i + 1) mod 256) m
    else set_counter i 0 m in
  if (negb touched && (counter m i >? touchJuge m i))
     || (touched && (counter m i >? releaseJuge m i))
  then
    let m :=
      set_currentTouched
        (Z.lxor (currentTouched m) (Z.shiftl 1 (Z.of_nat i)) mod 65536) m in
    let m := set_counter i 0 m in
    if touched
    then set_threshold i (F.sub32 (value m i) (F.f32_of_Z (touchMargin m i))) m
    else set_threshold i (F.add32 (value m i) (F.f32_of_Z (releaseMargin m i))) m
  else m.

(** [void MPR121Manager::update()] *)
Definition update (cap : nat -> Z) (m : Manager) : Manager :=
  fold_left
    (fun m i => if bit (activePort m) i then update_port (cap i) i m else m)
    (seq 0 maxPort) m.

(** Successive calls of [update], one provider reading per call. *)
Definition run (caps : list (nat -> Z)) (m : Manager) : Manager :=
  fold_left (fun m cap => update cap m) caps m.

(* ================================================================== *)
(** ** isTouched and the setters *)

(** [bool MPR121Manager::isTouched(uint8_t port)] *)
Definition isTouched (port : nat) (m : Manager) : bool :=
  if valid port m then bit (currentTouched m) port else false.

(** The setters.  Their arguments are values of the parameters' C types
    ([uint8_t] margins and counts, [uint16_t] bounds); [typed] below says
    so where a proof needs it. *)

(** The threshold rule the two margin setters share. *)
Definition rethreshold (port : nat) (m : Manager) : Manager :=
  let touched := bit (currentTouched m) port in
  if touched
  then set_threshold port
         (F.add32 (value m port) (F.f32_of_Z (releaseMargin m port))) m
  else set_threshold port
         (F.sub32 (value m port) (F.f32_of_Z (touchMargin m port))) m.

Definition setTouchMargin (port : nat) (margin : Z) (m : Manager) : Manager :=
  if valid port m then rethreshold port (set_touchMargin port margin m) else m.

Definition setReleaseMargin (port : nat) (margin : Z) (m : Manager) : Manager :=
  if valid port m then rethreshold port (set_releaseMargin port margin m) else m.

Definition setSensorMinValue (port : nat) (v : Z) (m : Manager) : Manager :=
  if valid port m then set_minValue port v m else m.

Definition setSensorMaxValue (port : nat) (v : Z) (m : Manager) : Manager :=
  if valid port m then set_maxValue port v m else m.

Definition setTouchJugeCount (port : nat) (count : Z) (m : Manager) : Manager :=
  if valid port m then set_touchJuge port count m else m.

Definition setReleaseJugeCount (port : nat) (count : Z) (m : Manager) : Manager :=
  if valid port m then set_releaseJuge port count m else m.

(** Memory in which every cell is zero, for the examples. *)
Definition mem0 : Manager :=
  mkManager 0 0 (fun _ => S754_zero false) (fun _ => 0) (fun _ => 0) 0
    (fun _ => 0) (fun _ => S754_zero false) (fun _ => 0) (fun _ => 0)
    (fun _ => 0) (fun _ => 0).

(* ================================================================== *)
(** ** Ranges of the C types *)

Definition u8 (z : Z) : Prop := 0 <= z < 256.
Definition u16 (z : Z) : Prop := 0 <= z < 65536.

(* ================================================================== *)
(** ** One channel seen on its own

    The cells of index [i] of the ten arrays and bit [i] of
    [currentTouched], gathered; [port_step] is what one pass of [update]'s
    loop body does to them.  [update_view] below proves that [update] acts
    on each selected channel as [port_step] and on nothing else. *)

Record Port : Type := mkPort {
  p_value : spec_float;
  p_minValue : Z;
  p_maxValue : Z;
  p_touched : bool;
  p_counter : Z;
  p_threshold : spec_float;
  p_touchMargin : Z;
  p_releaseMargin : Z;
  p_touchJuge : Z;
  p_releaseJuge : Z
}.

Definition port_of (m : Manager) (i : nat) : Port :=
  mkPort (value m i) (minValue m i) (maxValue m i) (bit (currentTouched m) i)
    (counter m i) (threshold m i) (touchMargin m i) (releaseMargin m i)
    (touchJuge m i) (releaseJuge m i).

(** The cells of the arrays alone, without the touch bit. *)
Definition cells_of (m : Manager) (i : nat) : Port :=
  mkPort (value m i) (minValue m i) (maxValue m i) false
    (counter m i) (threshold m i) (touchMargin m i) (releaseMargin m i)
    (touchJuge m i) (releaseJuge m i).

(** The smoothed and clamped reading of the cycle. *)
Definition p_next_value (raw : Z) (p : Port) : spec_float :=
  constrain (smooth raw (p_value p)) (p_minValue p) (p_maxValue p).

(** The flip condition of the cycle. *)
Definition p_conditionMet (raw : Z) (p : Port) : bool :=
  if p_touched p then F.gt (p_next_value raw p) (p_threshold p)
  else F.lt (p_next_value raw p) (p_threshold p).

(** The counter once the condition has been accounted for. *)
Definition p_next_counter (raw : Z) (p : Port) : Z :=
  if p_conditionMet raw p then (p_counter p + 1) mod 256 else 0.

(** The confirm count the current state compares the counter with. *)
Definition p_confirm (p : Port) : Z :=
  if p_touched p then p_releaseJuge p else p_touchJuge p.

Definition p_flips (raw : Z) (p : Port) : bool :=
  p_next_counter raw p >? p_confirm p.

Definition port_step (raw : Z) (p : Port) : Port :=
  let v := p_next_value raw p in
  if p_flips raw p then
    mkPort v (p_minValue p) (p_maxValue p) (negb (p_touched p)) 0
      (if p_touched p then F.sub32 v (F.f32_of_Z (p_touchMargin p))
       else F.add32 v (F.f32_of_Z (p_releaseMargin p)))
      (p_touchMargin p) (p_releaseMargin p) (p_touchJuge p) (p_releaseJuge p)
  else
    mkPort v (p_minValue p) (p_maxValue p) (p_touched p)
      (p_next_counter raw p) (p_threshold p)
      (p_touchMargin p) (p_releaseMargin p) (p_touchJuge p) (p_releaseJuge p).

Definition port_run (raws : list Z) (p : Port) : Port :=
  fold_left (fun p raw => port_step raw p) raws p.

(** Length of the current run of consecutive cycles on which the flip
    condition held, after each cycle of a sequence; [s] is the length the
    run has when the sequence starts. *)
Fixpoint streaks (raws : list Z) (p : Port) (s : Z) : list Z :=
  match raws with
  | [] => []
  | raw :: rest =>
      let s' := if p_conditionMet raw p then s + 1 else 0 in
      s' :: streaks rest (port_step raw p) s'
  end.

(** The smoothed value after each cycle of a sequence. *)
Fixpoint p_smoothed (raws : list Z) (p : Port) : list spec_float :=
  match raws with
  | [] => []
  | raw :: rest => p_next_value raw p :: p_smoothed rest (port_step raw p)
  end.

(** The readings channel [i] gets from a sequence of provider states. *)
Definition readings (i : nat) (caps : list (nat -> Z)) : list Z :=
  map (fun cap => cap i) caps.

(* ================================================================== *)
(** ** The public interface as a transition system *)

Inductive op : Type :=
| Update (cap : nat -> Z)
| SetTouchMargin (port : nat) (margin : Z)
| SetReleaseMargin (port : nat) (margin : Z)
| SetSensorMinValue (port : nat) (v : Z)
| SetSensorMaxValue (port : nat) (v : Z)
| SetTouchJugeCount (port : nat) (count : Z)
| SetReleaseJugeCount (port : nat) (count : Z).

Definition exec (o : op) (m : Manager) : Manager :=
  match o with
  | Update cap => update cap m
  | SetTouchMargin port margin => setTouchMargin port margin m
  | SetReleaseMargin port margin => setReleaseMargin port margin m
  | SetSensorMinValue port v => setSensorMinValue port v m
  | SetSensorMaxValue port v => setSensorMaxValue port v m
  | SetTouchJugeCount port count => setTouchJugeCount port count m
  | SetReleaseJugeCount port count => setReleaseJugeCount port count m
  end.

(** The arguments are values of the parameters' C types, and the provider
    returns [uint16_t]. *)
Definition typed (o : op) : Prop :=
  match o with
  | Update cap => forall i, u16 (cap i)
  | SetTouchMargin _ margin | SetReleaseMargin _ margin => u8 margin
  | SetSensorMinValue _ v | SetSensorMaxValue _ v => u16 v
  | SetTouchJugeCount _ count | SetReleaseJugeCount _ count => u8 count
  end.

(** The states an object goes through: built by the constructor, then
    driven through the public member functions. *)
Inductive reachable : Manager -> Prop :=
| reach_new mem cap setAddress usedPortMask :
    (forall i, u16 (cap i)) ->
    reachable (MPR121Manager mem cap setAddress usedPortMask)
| reach_exec o m :
    reachable m -> typed o -> reachable (exec o m).

(** What each operation does to the cells and touch bit of channel [j]:
    [exec_view] below proves it. *)
Definition p_rethreshold (p : Port) : Port :=
  mkPort (p_value p) (p_minValue p) (p_maxValue p) (p_touched p) (p_counter p)
    (if p_touched p
     then F.add32 (p_value p) (F.f32_of_Z (p_releaseMargin p))
     else F.sub32 (p_value p) (F.f32_of_Z (p_touchMargin p)))
    (p_touchMargin p) (p_releaseMargin p) (p_touchJuge p) (p_releaseJuge p).

Definition p_setter (o : op) (p : Port) : Port :=
  match o with
  | Update _ => p
  | SetTouchMargin _ margin =>
      p_rethreshold
        (mkPort (p_value p) (p_minValue p) (p_maxValue p) (p_touched p)
           (p_counter p) (p_threshold p) margin (p_releaseMargin p)
           (p_touchJuge p) (p_releaseJuge p))
  | SetReleaseMargin _ margin =>
      p_rethreshold
        (mkPort (p_value p) (p_minValue p) (p_maxValue p) (p_touched p)
           (p_counter p) (p_threshold p) (p_touchMargin p) margin
           (p_touchJuge p) (p_releaseJuge p))
  | SetSensorMinValue _ v =>
      mkPort (p_value p) v (p_maxValue p) (p_touched p)
        (p_counter p) (p_threshold p) (p_touchMargin p) (p_releaseMargin p)
        (p_touchJuge p) (p_releaseJuge p)
  | SetSensorMaxValue _ v =>
      mkPort (p_value p) (p_minValue p) v (p_touched p)
        (p_counter p) (p_threshold p) (p_touchMargin p) (p_releaseMargin p)
        (p_touchJuge p) (p_releaseJuge p)
  | SetTouchJugeCount _ count =>
      mkPort (p_value p) (p_minValue p) (p_maxValue p) (p_touched p)
        (p_counter p) (p_threshold p) (p_touchMargin p) (p_releaseMargin p)
        count (p_releaseJuge p)
  | SetReleaseJugeCount _ count =>
      mkPort (p_value p) (p_minValue p) (p_maxValue p) (p_touched p)
        (p_counter p) (p_threshold p) (p_touchMargin p) (p_releaseMargin p)
        (p_touchJuge p) count
  end.

(** The port a setter addresses. *)
Definition op_port (o : op) : option nat :=
  match o with
  | Update _ => None
  | SetTouchMargin port _ | SetReleaseMargin port _
  | SetSensorMinValue port _ | SetSensorMaxValue port _
  | SetTouchJugeCount port _ | SetReleaseJugeCount port _ => Some port
  end.

Definition port_exec (o : op) (j : nat) (p : Port) : Port :=
  match o with
  | Update cap => port_step (cap j) p
  | _ =>
      match op_port o with
      | Some port => if Nat.eqb port j then p_setter o p else p
      | None => p
      end
  end.

(** ** Observations along a sequence of [update] calls *)

(** [conditionMet] of the source for channel [i] in the cycle that reads
    [cap]: the new smoothed value against the threshold and touch state
    the cycle starts with. *)
Definition conditionMet (cap : nat -> Z) (i : nat) (m : Manager) : bool :=
  let v := value (update cap m) i in
  if bit (currentTouched m) i then F.gt v (threshold m i)
  else F.lt v (threshold m i).

(** After each cycle, for how many cycles in a row [conditionMet] has held;
    [s] is that number when the sequence starts. *)
Fixpoint condition_runs (i : nat) (caps : list (nat -> Z)) (m : Manager)
    (s : Z) : list Z :=
  match caps with
  | [] => []
  | cap :: rest =>
      let s' := if conditionMet cap i m then s + 1 else 0 in
      s' :: condition_runs i rest (update cap m) s'
  end.

(** The smoothed value of channel [i] after each cycle. *)
Fixpoint smoothed (i : nat) (caps : list (nat -> Z)) (m : Manager)
    : list spec_float :=
  match caps with
  | [] => []
  | cap :: rest => value (update cap m) i :: smoothed i rest (update cap m)
  end.

(** What holds of the cells of a selected channel in every such state. *)
Definition port_ok (p : Port) : Prop :=
  F.nonneg (p_value p) /\ u16 (p_minValue p) /\ u16 (p_maxValue p).

(** The cells the constructor leaves for a selected channel whose first
    reading is [raw]. *)
Definition default_port (raw : Z) : Port :=
  let v := constrain (F.f32_of_Z raw) 600 710 in
  mkPort v 600 710 false 0 (F.sub32 v (F.f32_of_Z 30)) 30 20 15 15.

(** What holds in every state the interface reaches. *)
Definition inv (m : Manager) : Prop :=
  (forall i, valid i m = true -> port_ok (port_of m i)) /\
  (forall j, bit (currentTouched m) j = true -> valid j m = true).

(** Providers and memory of the examples. *)
Definition steady (raw : Z) : nat -> Z := fun _ => raw.

(* ================================================================== *)
(** ** Sequences of calls, and what the cells keep to *)

(** Successive calls of member functions. *)
Definition execs (ops : list op) (m : Manager) : Manager :=
  fold_left (fun m o => exec o m) ops m.

Definition port_execs (ops : list op) (j : nat) (p : Port) : Port :=
  fold_left (fun p o => port_exec o j p) ops p.

(** A number: neither a NaN nor an infinity. *)
Definition is_finite (x : spec_float) : Prop :=
  match x with
  | S754_zero _ | S754_finite _ _ _ => True
  | S754_infinity _ | S754_nan => False
  end.

(** The cells of a channel hold values of their C types, the smoothed
    value is a number with its sign bit clear and at most 65535, and the
    threshold is not a NaN. *)
Definition port_typed (p : Port) : Prop :=
  (is_finite (p_value p) /\
   F.nonneg (p_value p) /\
   F.le (p_value p) (F.f32_of_Z 65535) = true /\
   p_threshold p <> S754_nan) /\
  (u16 (p_minValue p) /\ u16 (p_maxValue p) /\ u8 (p_counter p) /\
   u16 (p_touchMargin p) /\ u16 (p_releaseMargin p) /\
   u8 (p_touchJuge p) /\ u8 (p_releaseJuge p)).

(** The flip condition on a smoothed value [v], for a channel in state
    [touched] with threshold [thr]. *)
Definition crosses (touched : bool) (thr v : spec_float) : bool :=
  if touched then F.gt v thr else F.lt v thr.

(** Two objects that hold the same in every member. *)
Definition same_state (m m' : Manager) : Prop :=
  activePort m = activePort m' /\ address m = address m' /\
  currentTouched m = currentTouched m' /\
  forall q, cells_of m q = cells_of m' q.

(** Two setter calls that write the same parameter of the same port. *)
Definition same_cell (o1 o2 : op) : bool :=
  match o1, o2 with
  | SetTouchMargin p _, SetTouchMargin q _
  | SetReleaseMargin p _, SetReleaseMargin q _
  | SetSensorMinValue p _, SetSensorMinValue q _
  | SetSensorMaxValue p _, SetSensorMaxValue q _
  | SetTouchJugeCount p _, SetTouchJugeCount q _
  | SetReleaseJugeCount p _, SetReleaseJugeCount q _ => Nat.eqb p q
  | _, _ => false
  end.

(* ================================================================== *)
(** ** The smoothing in integer arithmetic

    Between 512 and 1024 the [float]s are the multiples of [2^-14], and
    the [double]s of the smoothing are multiples of [2^-53]: on a channel
    that has the constructor's bounds the smoothing is followed on these
    integers. *)

(** A [double] in units of [2^-53]. *)
Definition units53 (x : spec_float) : Z :=
  match x with
  | S754_finite false m e => Zpos m * 2 ^ (e + 53)
  | _ => 0
  end.

(** [alpha * raw], the [float] product widened to [double]. *)
Definition weighted (raw : Z) : spec_float :=
  F.f64_of_f32 (F.mul32 alpha (F.f32_of_Z raw)).

(** What the smoothing needs of [alpha * raw]: it is a multiple of
    [2^-38] within [2 * alpha * 2^-14] of [alpha * raw]. *)
Definition weighted_ok (raw : Z) : bool :=
  match weighted raw with
  | S754_zero false => raw =? 0
  | S754_finite false ma ea =>
      (-53 <=? ea)
      && ((Zpos ma * 2 ^ (ea + 53)) mod 2 ^ 15 =? 0)
      && (10066330 * 2 ^ 15 * (raw * 16384 - 2) <=? Zpos ma * 2 ^ (ea + 53))
      && (Zpos ma * 2 ^ (ea + 53) <=? 10066330 * 2 ^ 15 * (raw * 16384 + 2))
  | _ => false
  end.

(** The smoothed and clamped value in units of [2^-14], the unit of the
    [float]s between 512 and 1024. *)
Definition units14 (x : spec_float) : Z :=
  match x with
  | S754_finite false m e => if e =? -14 then Zpos m else 0
  | _ => 0
  end.

(** A channel with the constructor's parameters whose value is a [float]
    between 600 and 710: [9830400 = 600 * 2^14] and
    [11632640 = 710 * 2^14]. *)
Definition in_band (p : Port) : Prop :=
  p_minValue p = 600 /\ p_maxValue p = 710 /\
  p_touchMargin p = 30 /\ p_releaseMargin p = 20 /\
  p_touchJuge p = 15 /\ p_releaseJuge p = 15 /\
  9830400 <= units14 (p_value p) <= 11632640.

(** Released with the counter at [c], resp. touched with the counter at
    0, the threshold being [thr] units of [2^-14]. *)
Definition released_at (thr c : Z) (p : Port) : Prop :=
  in_band p /\ p_touched p = false /\ p_counter p = c /\
  p_threshold p = S754_finite false (Z.to_pos thr) (-14).

Definition touched_at (thr : Z) (p : Port) : Prop :=
  in_band p /\ p_touched p = true /\ p_counter p = 0 /\
  p_threshold p = S754_finite false (Z.to_pos thr) (-14).

(** Equality of two [spec_float]s, decided. *)
Definition sf_eqb (x y : spec_float) : bool :=
  match x, y with
  | S754_zero s, S754_zero s' | S754_infinity s, S754_infinity s' => Bool.eqb s s'
  | S754_nan, S754_nan => true
  | S754_finite s m e, S754_finite s' m' e' =>
      Bool.eqb s s' && Pos.eqb m m' && Z.eqb e e'
  | _, _ => false
  end.

(* ================================================================== *)
(** ** printStatus

    [Serial] is seen through the calls made on it, in order.  The local
    [static uint32_t lastPrintTime] is [None] until the first call
    initialises it; [millis()] is an argument, as the readings of the
    provider are: [millis0] is what the initialiser reads (first call
    only), [millis1] what [currentTime] is set to.  [portLabel] is the
    array behind the pointer. *)

From Stdlib Require Strings.String.
Import String.StringSyntax.
Local Open Scope string_scope.

Inductive serial : Type :=
| Print_str (s : String.string)            (* Serial.print("...") *)
| Print_hex (n : Z)                        (* Serial.print(address, HEX) *)
| Print_label (s : String.string)          (* Serial.print(portLabel[k]) *)
| Print_num (n : Z)                        (* Serial.print(i), Serial.print(raw) *)
| Print_float (x : spec_float) (digits : Z)  (* Serial.print(value[i], 2) *)
| Println.                                 (* Serial.println() *)

(** What follows the label or port number of a selected channel. *)
Definition print_cells (cap : nat -> Z) (m : Manager) (i : nat) : list serial :=
  [Print_str ": ";
   Print_str (if bit (currentTouched m) i then "Touch" else "Release");
   Print_str "  Val: "; Print_float (value m i) 2;
   Print_str "  Thr: "; Print_float (threshold m i) 2;
   Print_str "  Raw: "; Print_num (cap i)].

(** Body of the loop for a selected channel [i]; [labelIndex] is the
    [uint8_t] of that name. *)
Definition print_port (portLabel : nat -> String.string) (N : nat)
    (cap : nat -> Z) (m : Manager) (i : nat) (labelIndex : Z)
    : list serial * Z :=
  if (0 <? N)%nat then
    ([Print_str "  |  "]
       ++ (if labelIndex <? Z.of_nat N
           then [Print_label (portLabel (Z.to_nat labelIndex))] else [])
       ++ print_cells cap m i,
     (labelIndex + 1) mod 256)
  else
    ([Print_str "  |  "; Print_str "Port "; Print_num (Z.of_nat i)]
       ++ print_cells cap m i,
     labelIndex).

Definition print_ports (portLabel : nat -> String.string) (N : nat)
    (cap : nat -> Z) (m : Manager) : list serial :=
  fst (fold_left
         (fun (acc : list serial * Z) i =>
            if bit (activePort m) i
            then let r := print_port portLabel N cap m i (snd acc) in
                 (fst acc ++ fst r, snd r)
            else acc)
         (seq 0 maxPort) ([], 0)).

(** [void MPR121Manager::printStatus(uint32_t interval,
    const String* portLabel, size_t N)]: the new [lastPrintTime] and what
    is sent to [Serial]. *)
Definition printStatus (lastPrintTime : option Z) (millis0 millis1 : Z)
    (cap : nat -> Z) (m : Manager) (interval : Z)
    (portLabel : nat -> String.string) (N : nat) : option Z * list serial :=
  let last := match lastPrintTime with Some t => t | None => millis0 end in
  let currentTime := millis1 in
  if (currentTime - last) mod 2 ^ 32 <? interval then (Some last, [])
  else
    (Some currentTime,
     [Print_str "Add: 0x"; Print_hex (address m); Print_str " ->"]
       ++ print_ports portLabel N cap m ++ [Println]).

(** The selected channels, in increasing order. *)
Definition selected (m : Manager) : list nat :=
  filter (fun i => bit (activePort m) i) (seq 0 maxPort).

(** What is printed for the [k]-th selected channel, [i]. *)
Definition port_report (portLabel : nat -> String.string) (N : nat)
    (cap : nat -> Z) (m : Manager) (k i : nat) : list serial :=
  [Print_str "  |  "]
    ++ (if (0 <? N)%nat
        then if (k <? N)%nat then [Print_label (portLabel k)] else []
        else [Print_str "Port "; Print_num (Z.of_nat i)])
    ++ print_cells cap m i.

Fixpoint ports_report (portLabel : nat -> String.string) (N : nat)
    (cap : nat -> Z) (m : Manager) (k : nat) (ports : list nat) : list serial :=
  match ports with
  | [] => []
  | i :: rest =>
      port_report portLabel N cap m k i
        ++ ports_report portLabel N cap m (S k) rest
  end.

(* ================================================================== *)
(** * Proofs *)

(** ** Floating point: no operation of the smoothing makes a NaN or a
    negative number out of non-negative ones *)

Lemma iter_pos_inv {A : Type} (P : A -> Prop) (f : A -> A) :
  (forall x, P x -> P (f x)) -> forall n x, P x -> P (iter_pos f n x).
Proof.
  intros Hf. induction n as [n IH|n IH|]; intros x Hx; cbn; auto.
Qed.

Lemma shr_1_nonneg mrs : 0 <= shr_m mrs -> 0 <= shr_m (shr_1 mrs).
Proof.
  destruct mrs as [m r s]. cbn.
  destruct m as [|[p|p|]|[p|p|]]; cbn; lia.
Qed.

Lemma shr_nonneg mrs e n : 0 <= shr_m mrs -> 0 <= shr_m (fst (shr mrs e n)).
Proof.
  intros H. unfold shr. destruct n; cbn; auto.
  apply iter_pos_inv; auto using shr_1_nonneg.
Qed.

Lemma shr_fexp_nonneg prec emax m e l :
  0 <= m -> 0 <= shr_m (fst (shr_fexp prec emax m e l)).
Proof.
  intros H. unfold shr_fexp. apply shr_nonneg.
  destruct l as [|[ | | ]]; exact H.
Qed.

Lemma round_nearest_even_nonneg m l : 0 <= m -> 0 <= round_nearest_even m l.
Proof.
  intros H. unfold round_nearest_even.
  destruct l as [|[ | | ]]; try destruct (Z.even m); lia.
Qed.

Lemma binary_round_aux_signed prec emax sx mx ex lx :
  0 <= mx -> signed sx (binary_round_aux prec emax sx mx ex lx).
Proof.
  intros H. unfold binary_round_aux.
  pose proof (shr_fexp_nonneg prec emax mx ex lx H) as H1.
  destruct (shr_fexp prec emax mx ex lx) as [mrs' e']. cbn [fst] in H1.
  pose proof (shr_fexp_nonneg prec emax _ e' loc_Exact
                (round_nearest_even_nonneg _ (loc_of_shr_record mrs') H1)) as H2.
  destruct (shr_fexp prec emax _ e' loc_Exact) as [mrs'' e'']. cbn [fst] in H2.
  destruct (shr_m mrs'') as [|m|m]; [reflexivity| |lia].
  destruct (e'' <=? emax - prec); reflexivity.
Qed.

Lemma binary_round_signed prec emax sx mx ex :
  signed sx (binary_round prec emax sx mx ex).
Proof.
  unfold binary_round. destruct (shl_align _ _ _) as [mz ez].
  apply binary_round_aux_signed. lia.
Qed.

Lemma convert_nonneg prec emax x : F.nonneg x -> F.nonneg (F.convert prec emax x).
Proof.
  destruct x as [s|s| |s m e]; cbn; auto. intros ->. cbn.
  apply (binary_round_signed prec emax false).
Qed.

Lemma f32_of_Z_nonneg z : 0 <= z -> F.nonneg (F.f32_of_Z z).
Proof.
  intros H. unfold F.f32_of_Z, binary_normalize.
  destruct z as [|p|p]; [reflexivity| |lia].
  apply (binary_round_signed 24 128 false).
Qed.

Lemma SFmul_nonneg prec emax m e x :
  F.nonneg x -> F.nonneg (SFmul prec emax (S754_finite false m e) x).
Proof.
  destruct x as [s|s| |s mx ex]; cbn; try tauto; intros ->; try reflexivity.
  apply (binary_round_aux_signed prec emax false). lia.
Qed.

Lemma SFadd_nonneg prec emax x y :
  F.nonneg x -> F.nonneg y -> F.nonneg (SFadd prec emax x y).
Proof.
  destruct x as [s|s| |s mx ex], y as [s'|s'| |s' my ey]; cbn;
    try tauto; intros -> ->; try reflexivity.
  apply (binary_round_signed prec emax false).
Qed.

Lemma alpha_eq : alpha = S754_finite false 10066330 (-24).
Proof. reflexivity. Qed.

Lemma one_minus_alpha_eq :
  F.sub64 F.lit_1_0 (F.f64_of_f32 alpha) = S754_finite false 7205758974296064 (-54).
Proof. reflexivity. Qed.

Lemma smooth_nonneg raw v : 0 <= raw -> F.nonneg v -> F.nonneg (smooth raw v).
Proof.
  intros Hr Hv. unfold smooth. rewrite one_minus_alpha_eq, alpha_eq.
  apply convert_nonneg, SFadd_nonneg.
  - apply convert_nonneg, SFmul_nonneg, f32_of_Z_nonneg, Hr.
  - apply SFmul_nonneg, convert_nonneg, Hv.
Qed.

Lemma constrain_nonneg v lo hi :
  0 <= lo -> 0 <= hi -> F.nonneg v -> F.nonneg (constrain v lo hi).
Proof.
  intros. unfold constrain.
  destruct (F.lt _ _); [|destruct (F.gt _ _)]; auto using f32_of_Z_nonneg.
Qed.

(** ** Floating point: the order *)

Lemma SFcompare_antisym x y :
  SFcompare y x = option_map CompOpp (SFcompare x y).
Proof.
  destruct x as [[]|[]| |[] m e], y as [[]|[]| |[] m' e']; cbn;
    try reflexivity;
    rewrite (Z.compare_antisym e' e);
    destruct (e' ?= e); cbn; try reflexivity;
    change (Pos.compare_cont Eq m' m) with (Pos.compare m' m);
    change (Pos.compare_cont Eq m m') with (Pos.compare m m');
    rewrite (Pos.compare_antisym m m');
    now rewrite ?CompOpp_involutive.
Qed.



Lemma SFcompare_nonneg x y :
  F.nonneg x -> F.nonneg y -> SFcompare x y <> None.
Proof. destruct x, y; cbn; try tauto; discriminate. Qed.

(** Between numbers, [a < b] fails only if [b <= a]. *)
Lemma not_lt_le x y :
  F.nonneg x -> F.nonneg y -> F.lt x y = false -> F.le y x = true.
Proof.
  intros Hx Hy. pose proof (SFcompare_nonneg x y Hx Hy) as Hn. revert Hn.
  unfold F.lt, F.le, SFltb, SFleb. rewrite (SFcompare_antisym x y).
  destruct (SFcompare x y) as [[ | | ]|]; cbn; congruence.
Qed.

Lemma lt_le x y : F.lt x y = true -> F.le x y = true.
Proof.
  unfold F.lt, F.le, SFltb, SFleb. destruct (SFcompare x y) as [[ | | ]|]; congruence.
Qed.


(** ** Floating point: integers below [2^24] convert exactly *)

Lemma digits2_size p : digits2_pos p = Pos.size p.
Proof. induction p; cbn; congruence. Qed.

Lemma size_iter_xO p d : Pos.size (Pos.iter xO p d) = (Pos.size p + d)%positive.
Proof.
  induction d as [|d IH] using Pos.peano_ind.
  - cbn. lia.
  - rewrite Pos.iter_succ. cbn. rewrite IH. lia.
Qed.

Lemma size_mono p q : (p <= q)%positive -> (Pos.size p <= Pos.size q)%positive.
Proof.
  revert q. induction p as [p IH|p IH|]; intros [q|q|] H; cbn; try lia;
    apply -> Pos.succ_le_mono; apply IH; lia.
Qed.

Lemma size_u16 p : Zpos p < 65536 -> Zpos (Pos.size p) <= 16.
Proof.
  intros H.
  assert (Hq : (p <= 65535)%positive) by lia.
  apply size_mono in Hq. cbn in Hq. lia.
Qed.

(** A mantissa that is already in canonical position is not rounded. *)
Lemma binary_round_aux_exact prec emax s m e :
  fexp prec emax (Zpos (digits2_pos m) + e) = e -> e <= emax - prec ->
  binary_round_aux prec emax s (Zpos m) e loc_Exact = S754_finite s m e.
Proof.
  intros Hc He. unfold binary_round_aux, shr_fexp. cbn [Zdigits2 shr_record_of_loc].
  rewrite Hc, Z.sub_diag. cbn [shr shr_m loc_of_shr_record round_nearest_even Zdigits2 shr_record_of_loc].
  rewrite Hc, Z.sub_diag. cbn [shr shr_m].
  apply Z.leb_le in He. now rewrite He.
Qed.

Lemma f32_of_pos p :
  Zpos (Pos.size p) <= 24 ->
  F.f32_of_Z (Zpos p) = S754_finite false (mant32 p) (Zpos (Pos.size p) - 24).
Proof.
  intros Hs. unfold F.f32_of_Z, binary_normalize, binary_round, mant32.
  rewrite digits2_size, Z.add_0_r.
  assert (Hf : fexp 24 128 (Zpos (Pos.size p)) = Zpos (Pos.size p) - 24).
  { unfold fexp, emin. lia. }
  rewrite Hf. unfold shl_align.
  destruct (Zpos (Pos.size p) - 24 - 0) as [|d|d] eqn:Ed; [|lia|].
  - replace (24 - Zpos (Pos.size p)) with 0 by lia. cbn [Z.to_N Pos.shiftl].
    replace (Zpos (Pos.size p) - 24) with 0 by lia.
    apply binary_round_aux_exact; [|lia].
    rewrite digits2_size, Z.add_0_r, Hf. lia.
  - replace (24 - Zpos (Pos.size p)) with (Zpos d) by lia. cbn [Z.to_N Pos.shiftl].
    apply binary_round_aux_exact; [|lia].
    rewrite digits2_size, size_iter_xO. unfold fexp, emin. lia.
Qed.

Lemma compare_iter_xO p q d :
  Pos.compare_cont Eq (Pos.iter xO p d) (Pos.iter xO q d) = Pos.compare_cont Eq p q.
Proof.
  induction d as [|d IH] using Pos.peano_ind; [reflexivity|].
  rewrite !Pos.iter_succ. exact IH.
Qed.

(** The conversion is monotone. *)
Lemma f32_of_Z_mono a b :
  0 <= a <= b -> b < 65536 -> F.le (F.f32_of_Z a) (F.f32_of_Z b) = true.
Proof.
  intros [Ha Hab] Hb.
  destruct a as [|p|p]; [|
    |lia].
  - destruct b as [|q|q]; [reflexivity| |lia].
    pose proof (size_u16 q Hb). rewrite f32_of_pos by lia. reflexivity.
  - destruct b as [|q|q]; [lia| |lia].
    pose proof (size_u16 q Hb) as Hq.
    assert (Hs : (Pos.size p <= Pos.size q)%positive) by (apply size_mono; lia).
    rewrite !f32_of_pos by lia.
    unfold F.le, SFleb, SFcompare.
    destruct (Z.compare_spec (Zpos (Pos.size p) - 24) (Zpos (Pos.size q) - 24)) as [E|E|E];
      [|reflexivity|lia].
    assert (Es : Pos.size p = Pos.size q) by lia.
    unfold mant32. rewrite Es.
    assert (Hc : Pos.compare_cont Eq p q <> Gt) by (change (p <= q)%positive; lia).
    destruct (Z.to_N (24 - Zpos (Pos.size q))) as [|d]; cbn [Pos.shiftl];
      rewrite ?compare_iter_xO; destruct (Pos.compare_cont Eq p q); congruence.
Qed.

(** The conversion of integers is strictly monotone. *)
Lemma f32_of_Z_lt a b :
  0 <= a < b -> b < 65536 -> F.lt (F.f32_of_Z a) (F.f32_of_Z b) = true.
Proof.
  intros [Ha Hab] Hb.
  destruct a as [|p|p]; [| |lia].
  - destruct b as [|q|q]; [lia| |lia].
    pose proof (size_u16 q Hb). rewrite f32_of_pos by lia. reflexivity.
  - destruct b as [|q|q]; [lia| |lia].
    pose proof (size_u16 q Hb) as Hq.
    assert (Hs : (Pos.size p <= Pos.size q)%positive) by (apply size_mono; lia).
    rewrite !f32_of_pos by lia.
    unfold F.lt, SFltb, SFcompare.
    destruct (Z.compare_spec (Zpos (Pos.size p) - 24) (Zpos (Pos.size q) - 24)) as [E|E|E];
      [|reflexivity|lia].
    assert (Es : Pos.size p = Pos.size q) by lia.
    unfold mant32. rewrite Es.
    assert (Hc : Pos.compare_cont Eq p q = Lt) by (change (p < q)%positive; lia).
    destruct (Z.to_N (24 - Zpos (Pos.size q))) as [|d]; cbn [Pos.shiftl];
      rewrite ?compare_iter_xO; now rewrite Hc.
Qed.

Lemma le_not_lt x y : F.le x y = true -> F.lt y x = false.
Proof.
  unfold F.lt, F.le, SFltb, SFleb. rewrite (SFcompare_antisym x y).
  destruct (SFcompare x y) as [[ | | ]|]; cbn; congruence.
Qed.

(** ** Bits *)

Lemma bit_testbit (x : Z) (i : nat) : bit x i = Z.testbit x (Z.of_nat i).
Proof.
  unfold bit.
  change 1 with (Z.ones 1) at 1.
  rewrite Z.land_ones by lia.
  change (2 ^ 1) with 2.
  rewrite <- Z.bit0_mod, Z.shiftr_spec by lia.
  rewrite Z.add_0_l.
  now destruct (Z.testbit x (Z.of_nat i)).
Qed.

Lemma land_shiftl_1 (x : Z) (i : nat) :
  negb (Z.land x (Z.shiftl 1 (Z.of_nat i)) =? 0) = Z.testbit x (Z.of_nat i).
Proof.
  rewrite Z.shiftl_1_l.
  destruct (Z.testbit x (Z.of_nat i)) eqn:E.
  - assert (H : Z.testbit (Z.land x (2 ^ Z.of_nat i)) (Z.of_nat i) = true).
    { rewrite Z.land_spec, E, Z.pow2_bits_true by lia. reflexivity. }
    destruct (Z.eqb_spec (Z.land x (2 ^ Z.of_nat i)) 0) as [H0|]; [|reflexivity].
    rewrite H0, Z.bits_0 in H. discriminate.
  - assert (H : Z.land x (2 ^ Z.of_nat i) = 0).
    { apply Z.bits_inj'. intros n Hn.
      rewrite Z.land_spec, Z.bits_0, Z.pow2_bits_eqb by lia.
      destruct (Z.eqb_spec (Z.of_nat i) n) as [<-|]; [rewrite E|];
        now rewrite ?andb_false_r. }
    now rewrite H.
Qed.

Lemma valid_spec (port : nat) (m : Manager) :
  valid port m = true <->
  (port < maxPort)%nat /\ Z.testbit (activePort m) (Z.of_nat port) = true.
Proof.
  unfold valid. rewrite andb_true_iff, land_shiftl_1, Nat.ltb_lt. tauto.
Qed.

Lemma valid_bit (port : nat) (m : Manager) :
  valid port m = (port <? maxPort)%nat && bit (activePort m) port.
Proof. unfold valid. now rewrite land_shiftl_1, bit_testbit. Qed.

(** [x ^ (1 << i)], stored in 16 bits, toggles bit [i] and keeps the other
    fifteen. *)
Lemma bit_toggle (x : Z) (i j : nat) :
  bit (Z.lxor x (Z.shiftl 1 (Z.of_nat i)) mod 65536) j =
  if (j <? 16)%nat then xorb (bit x j) (Nat.eqb j i) else false.
Proof.
  rewrite !bit_testbit. change 65536 with (2 ^ 16).
  destruct (Nat.ltb_spec j 16).
  - rewrite Z.mod_pow2_bits_low, Z.lxor_spec, Z.shiftl_1_l, Z.pow2_bits_eqb by lia.
    f_equal. destruct (Nat.eqb_spec j i), (Z.eqb_spec (Z.of_nat i) (Z.of_nat j));
      try reflexivity; lia.
  - apply Z.mod_pow2_bits_high. lia.
Qed.

(** ** Array cells *)

Lemma upd_same {A : Type} (a : nat -> A) (i : nat) (x : A) : upd a i x i = x.
Proof. unfold upd. now rewrite Nat.eqb_refl. Qed.

Lemma upd_other {A : Type} (a : nat -> A) (i j : nat) (x : A) :
  j <> i -> upd a i x j = a j.
Proof. unfold upd. intros H. now destruct (Nat.eqb_spec j i). Qed.

(** ** [update] on one channel *)

Ltac split_ifs :=
  repeat match goal with
         | |- context [if ?b then _ else _] => destruct b eqn:?
         end.

Lemma update_port_activePort raw i m :
  activePort (update_port raw i m) = activePort m.
Proof. unfold update_port. cbn. split_ifs; reflexivity. Qed.

Lemma update_port_view raw i m :
  (i < 16)%nat -> port_of (update_port raw i m) i = port_step raw (port_of m i).
Proof.
  intros Hi.
  unfold update_port, port_step, p_flips, p_next_counter, p_confirm,
    p_conditionMet, p_next_value, port_of.
  cbn. rewrite !upd_same.
  destruct (bit (currentTouched m) i) eqn:Ht; cbn;
    match goal with
    | |- context [if ?c then set_counter _ _ _ else _] => destruct c eqn:Hc
    end; cbn; rewrite ?upd_same;
    match goal with
    | |- context [?a >? ?b] => destruct (a >? b) eqn:Hf
    end; cbn; rewrite ?upd_same, ?bit_toggle, ?Ht, ?Nat.eqb_refl;
    try reflexivity;
    apply Nat.ltb_lt in Hi; rewrite Hi; reflexivity.
Qed.

Lemma update_port_cells raw i j m :
  j <> i -> cells_of (update_port raw i m) j = cells_of m j.
Proof.
  intros Hj. unfold update_port, cells_of. cbn.
  split_ifs; cbn; rewrite ?(upd_other _ i j) by exact Hj; reflexivity.
Qed.

Lemma update_port_bit raw i j m :
  j <> i -> (j < 16)%nat ->
  bit (currentTouched (update_port raw i m)) j = bit (currentTouched m) j.
Proof.
  intros Hj Hlt. unfold update_port. cbn.
  apply Nat.ltb_lt in Hlt. apply Nat.eqb_neq in Hj.
  split_ifs; cbn; rewrite ?bit_toggle, ?Hlt, ?Hj, ?xorb_false_r; reflexivity.
Qed.

(** A bit that is set after the pass was set before, or is the channel's. *)
Lemma update_port_bit_set raw i j m :
  bit (currentTouched (update_port raw i m)) j = true ->
  bit (currentTouched m) j = true \/ j = i.
Proof.
  destruct (Nat.eq_dec j i) as [->|Hj]; [now right|]. left.
  destruct (Nat.ltb_spec j 16) as [Hlt|Hge].
  - now rewrite update_port_bit in H.
  - revert H. unfold update_port. cbn.
    apply Nat.ltb_ge in Hge.
    split_ifs; cbn; rewrite ?bit_toggle, ?Hge; congruence.
Qed.

(** ** [update] as a whole *)

Lemma port_of_cells_bit m m' j :
  cells_of m' j = cells_of m j ->
  bit (currentTouched m') j = bit (currentTouched m) j ->
  port_of m' j = port_of m j.
Proof.
  unfold cells_of, port_of. intros Hc Hb. rewrite Hb.
  injection Hc as -> -> -> -> -> -> -> -> ->. reflexivity.
Qed.

Lemma port_of_cells m m' j : port_of m' j = port_of m j -> cells_of m' j = cells_of m j.
Proof.
  unfold cells_of, port_of. intros H.
  injection H as -> -> -> _ -> -> -> -> -> ->. reflexivity.
Qed.

Section Loop.

Variable cap : nat -> Z.

(** One iteration of the [for] loop of [update]. *)
Let body (m : Manager) (i : nat) : Manager :=
  if bit (activePort m) i then update_port (cap i) i m else m.

Lemma body_activePort m i : activePort (body m i) = activePort m.
Proof. unfold body. destruct (bit _ _); [apply update_port_activePort|reflexivity]. Qed.

Lemma loop_activePort l m : activePort (fold_left body l m) = activePort m.
Proof.
  revert m. induction l as [|i l IH]; intros m; cbn; [reflexivity|].
  now rewrite IH, body_activePort.
Qed.

Lemma loop_cells_out l m j :
  ~ In j l -> cells_of (fold_left body l m) j = cells_of m j.
Proof.
  revert m. induction l as [|i l IH]; intros m Hj; cbn; [reflexivity|].
  rewrite IH by (intros H; apply Hj; now right).
  unfold body. destruct (bit (activePort m) i); [|reflexivity].
  apply update_port_cells. intros ->. apply Hj. now left.
Qed.

Lemma loop_bit_out l m j :
  ~ In j l -> (j < 16)%nat ->
  bit (currentTouched (fold_left body l m)) j = bit (currentTouched m) j.
Proof.
  revert m. induction l as [|i l IH]; intros m Hj Hlt; cbn; [reflexivity|].
  rewrite IH; [|intros H; apply Hj; now right|exact Hlt].
  unfold body. destruct (bit (activePort m) i); [|reflexivity].
  apply update_port_bit; [|exact Hlt]. intros ->. apply Hj. now left.
Qed.

Lemma loop_cells_inactive l m j :
  bit (activePort m) j = false -> cells_of (fold_left body l m) j = cells_of m j.
Proof.
  revert m. induction l as [|i l IH]; intros m Hj; cbn; [reflexivity|].
  rewrite IH by now rewrite body_activePort.
  unfold body. destruct (bit (activePort m) i) eqn:Hi; [|reflexivity].
  apply update_port_cells. intros ->. congruence.
Qed.

Lemma loop_bit_set l m j :
  bit (currentTouched (fold_left body l m)) j = true ->
  bit (currentTouched m) j = true \/ (In j l /\ bit (activePort m) j = true).
Proof.
  revert m. induction l as [|i l IH]; intros m H; cbn in *; [now left|].
  destruct (IH _ H) as [H1|[H1 H2]].
  - unfold body in H1. destruct (bit (activePort m) i) eqn:Hi; [|now left].
    destruct (update_port_bit_set _ _ _ _ H1) as [?| ->]; [now left|].
    right. split; [now left|exact Hi].
  - right. rewrite body_activePort in H2. split; [now right|exact H2].
Qed.

Lemma loop_view l m j :
  NoDup l -> (forall i, In i l -> (i < 16)%nat) -> In j l ->
  port_of (fold_left body l m) j =
  if bit (activePort m) j then port_step (cap j) (port_of m j) else port_of m j.
Proof.
  revert m. induction l as [|i l IH]; intros m Hnd Hlt Hj; [destruct Hj|].
  cbn [fold_left]. inversion Hnd as [|? ? Hni Hnd']; subst.
  assert (Hi16 : (i < 16)%nat) by (apply Hlt; now left).
  destruct (Nat.eq_dec j i) as [->|Hne].
  - rewrite (port_of_cells_bit (body m i)).
    + unfold body. destruct (bit (activePort m) i); [|reflexivity].
      now apply update_port_view.
    + now apply loop_cells_out.
    + now apply loop_bit_out.
  - destruct Hj as [->|Hj]; [congruence|].
    rewrite IH; [|exact Hnd'|intros; apply Hlt; now right|exact Hj].
    rewrite body_activePort.
    assert (Hp : port_of (body m i) j = port_of m j).
    { unfold body. destruct (bit (activePort m) i); [|reflexivity].
      apply port_of_cells_bit;
        [now apply update_port_cells|apply update_port_bit; auto].
      apply Hlt. now right. }
    now rewrite Hp.
Qed.

End Loop.

Lemma update_activePort cap m : activePort (update cap m) = activePort m.
Proof. exact (loop_activePort cap (seq 0 maxPort) m). Qed.

Lemma update_valid cap m j : valid j (update cap m) = valid j m.
Proof. unfold valid. now rewrite update_activePort. Qed.

(** On a selected channel, [update] is one [port_step]. *)
Lemma update_view cap m j :
  valid j m = true -> port_of (update cap m) j = port_step (cap j) (port_of m j).
Proof.
  rewrite valid_bit, andb_true_iff, Nat.ltb_lt. intros [Hlt Hb].
  unfold update. rewrite (loop_view cap (seq 0 maxPort) m j).
  - now rewrite Hb.
  - apply seq_NoDup.
  - intros i Hi. apply in_seq in Hi. unfold maxPort in Hi. lia.
  - apply in_seq. lia.
Qed.

(** On any other index, [update] writes no cell. *)
Lemma update_cells_inactive cap m j :
  valid j m = false -> cells_of (update cap m) j = cells_of m j.
Proof.
  rewrite valid_bit, andb_false_iff, Nat.ltb_ge. intros [Hge|Hb].
  - apply (loop_cells_out cap (seq 0 maxPort) m j). rewrite in_seq. lia.
  - now apply (loop_cells_inactive cap (seq 0 maxPort) m j).
Qed.

Lemma update_bit_set cap m j :
  bit (currentTouched (update cap m)) j = true ->
  bit (currentTouched m) j = true \/ valid j m = true.
Proof.
  intros H. apply (loop_bit_set cap (seq 0 maxPort) m j) in H.
  destruct H as [H|[Hin Hb]]; [now left|].
  right. rewrite valid_bit, Hb, andb_true_r. apply Nat.ltb_lt.
  apply in_seq in Hin. lia.
Qed.

Lemma run_cons cap caps m : run (cap :: caps) m = run caps (update cap m).
Proof. reflexivity. Qed.

Lemma run_valid caps m j : valid j (run caps m) = valid j m.
Proof.
  revert m. induction caps as [|cap caps IH]; intros m; [reflexivity|].
  now rewrite run_cons, IH, update_valid.
Qed.

Lemma port_run_cons raw raws p :
  port_run (raw :: raws) p = port_run raws (port_step raw p).
Proof. reflexivity. Qed.

Lemma run_view caps m j :
  valid j m = true ->
  port_of (run caps m) j = port_run (readings j caps) (port_of m j).
Proof.
  revert m. induction caps as [|cap caps IH]; intros m Hv; [reflexivity|].
  rewrite run_cons, IH by now rewrite update_valid.
  now rewrite update_view.
Qed.

Lemma isTouched_view j m : valid j m = true -> isTouched j m = p_touched (port_of m j).
Proof. unfold isTouched. now intros ->. Qed.

(** ** The constructor *)

Lemma init_port_activePort raw i m : activePort (init_port raw i m) = activePort m.
Proof. reflexivity. Qed.

Lemma init_port_currentTouched raw i m :
  currentTouched (init_port raw i m) = currentTouched m.
Proof. reflexivity. Qed.

Lemma init_port_cells raw i m : cells_of (init_port raw i m) i = default_port raw.
Proof.
  unfold init_port, cells_of, default_port. cbn. now rewrite !upd_same.
Qed.

Lemma init_port_cells_other raw i j m :
  j <> i -> cells_of (init_port raw i m) j = cells_of m j.
Proof.
  intros Hj. unfold init_port, cells_of. cbn.
  now rewrite !(upd_other _ i j) by exact Hj.
Qed.

Section InitLoop.

Variable cap : nat -> Z.

Let body (m : Manager) (i : nat) : Manager :=
  if bit (activePort m) i then init_port (cap i) i m else m.

Lemma ibody_activePort m i : activePort (body m i) = activePort m.
Proof. unfold body. now destruct (bit (activePort m) i). Qed.

Lemma iloop_activePort l m : activePort (fold_left body l m) = activePort m.
Proof.
  revert m. induction l as [|i l IH]; intros m; cbn [fold_left]; [reflexivity|].
  now rewrite IH, ibody_activePort.
Qed.

Lemma iloop_currentTouched l m :
  currentTouched (fold_left body l m) = currentTouched m.
Proof.
  revert m. induction l as [|i l IH]; intros m; cbn [fold_left]; [reflexivity|].
  rewrite IH. unfold body. now destruct (bit (activePort m) i).
Qed.

Lemma iloop_cells_out l m j :
  ~ In j l -> cells_of (fold_left body l m) j = cells_of m j.
Proof.
  revert m. induction l as [|i l IH]; intros m Hj; cbn [fold_left]; [reflexivity|].
  rewrite IH by (intros H; apply Hj; now right).
  unfold body. destruct (bit (activePort m) i); [|reflexivity].
  apply init_port_cells_other. intros ->. apply Hj. now left.
Qed.

Lemma iloop_cells_inactive l m j :
  bit (activePort m) j = false -> cells_of (fold_left body l m) j = cells_of m j.
Proof.
  revert m. induction l as [|i l IH]; intros m Hj; cbn [fold_left]; [reflexivity|].
  rewrite IH by now rewrite ibody_activePort.
  unfold body. destruct (bit (activePort m) i) eqn:Hi; [|reflexivity].
  apply init_port_cells_other. intros ->. congruence.
Qed.

Lemma iloop_cells_in l m j :
  NoDup l -> In j l -> bit (activePort m) j = true ->
  cells_of (fold_left body l m) j = default_port (cap j).
Proof.
  revert m. induction l as [|i l IH]; intros m Hnd Hj Hb; [destruct Hj|].
  cbn [fold_left]. inversion Hnd as [|? ? Hni Hnd']; subst.
  destruct (Nat.eq_dec j i) as [->|Hne].
  - rewrite iloop_cells_out by exact Hni.
    unfold body. rewrite Hb. apply init_port_cells.
  - destruct Hj as [->|Hj]; [congruence|].
    apply IH; auto. now rewrite ibody_activePort.
Qed.

End InitLoop.

Section Constructed.

Variables (mem : Manager) (cap : nat -> Z) (setAddress usedPortMask : Z).

Let m0 : Manager :=
  mkManager usedPortMask setAddress (value mem) (minValue mem)
    (maxValue mem) 0 (counter mem) (threshold mem) (touchMargin mem)
    (releaseMargin mem) (touchJuge mem) (releaseJuge mem).

Let built : Manager := MPR121Manager mem cap setAddress usedPortMask.

Lemma new_activePort : activePort built = usedPortMask.
Proof. exact (iloop_activePort cap (seq 0 maxPort) m0). Qed.

Lemma new_currentTouched : currentTouched built = 0.
Proof. exact (iloop_currentTouched cap (seq 0 maxPort) m0). Qed.

Lemma new_cells j : valid j built = true -> cells_of built j = default_port (cap j).
Proof.
  rewrite valid_bit, andb_true_iff, Nat.ltb_lt, new_activePort. intros [Hlt Hb].
  apply (iloop_cells_in cap (seq 0 maxPort) m0 j).
  - apply seq_NoDup.
  - apply in_seq. lia.
  - exact Hb.
Qed.

Lemma new_cells_inactive j : valid j built = false -> cells_of built j = cells_of mem j.
Proof.
  rewrite valid_bit, andb_false_iff, Nat.ltb_ge, new_activePort. intros [Hge|Hb].
  - apply (iloop_cells_out cap (seq 0 maxPort) m0 j). rewrite in_seq. lia.
  - now apply (iloop_cells_inactive cap (seq 0 maxPort) m0 j).
Qed.

Lemma new_bit j : bit (currentTouched built) j = false.
Proof. rewrite new_currentTouched, bit_testbit. apply Z.bits_0. Qed.

Lemma new_port j : valid j built = true -> port_of built j = default_port (cap j).
Proof.
  intros Hv. rewrite <- (new_cells j Hv). unfold port_of, cells_of.
  now rewrite new_bit.
Qed.

End Constructed.

(** ** The setters and the invariant *)

Lemma exec_activePort o m : activePort (exec o m) = activePort m.
Proof.
  destruct o; cbn [exec]; [apply update_activePort|..];
    unfold setTouchMargin, setReleaseMargin, setSensorMinValue,
      setSensorMaxValue, setTouchJugeCount, setReleaseJugeCount, rethreshold;
    destruct (valid port m); cbn; try reflexivity;
    destruct (bit (currentTouched m) port); reflexivity.
Qed.

Lemma exec_valid o m j : valid j (exec o m) = valid j m.
Proof. unfold valid. now rewrite exec_activePort. Qed.

Lemma setter_currentTouched o m :
  (forall cap, o <> Update cap) -> currentTouched (exec o m) = currentTouched m.
Proof.
  intros Ho. destruct o; cbn [exec]; [now contradiction (Ho cap)|..];
    unfold setTouchMargin, setReleaseMargin, setSensorMinValue,
      setSensorMaxValue, setTouchJugeCount, setReleaseJugeCount, rethreshold;
    destruct (valid port m); cbn; try reflexivity;
    destruct (bit (currentTouched m) port); reflexivity.
Qed.

Lemma setter_value o m :
  (forall cap, o <> Update cap) -> value (exec o m) = value m.
Proof.
  intros Ho. destruct o; cbn [exec]; [now contradiction (Ho cap)|..];
    unfold setTouchMargin, setReleaseMargin, setSensorMinValue,
      setSensorMaxValue, setTouchJugeCount, setReleaseJugeCount, rethreshold;
    destruct (valid port m); cbn; try reflexivity;
    destruct (bit (currentTouched m) port); reflexivity.
Qed.

(** No member function writes a cell of a channel that is not selected. *)
Lemma exec_cells_inactive o m j :
  valid j m = false -> cells_of (exec o m) j = cells_of m j.
Proof.
  intros Hj. destruct o; cbn [exec]; [now apply update_cells_inactive|..];
    unfold setTouchMargin, setReleaseMargin, setSensorMinValue,
      setSensorMaxValue, setTouchJugeCount, setReleaseJugeCount, rethreshold;
    destruct (valid port m) eqn:Hp; try reflexivity;
    assert (Hne : j <> port) by congruence;
    unfold cells_of; cbn; try destruct (bit (currentTouched m) port); cbn;
    now rewrite ?(upd_other _ port j) by exact Hne.
Qed.

Lemma exec_bit_set o m j :
  bit (currentTouched (exec o m)) j = true ->
  bit (currentTouched m) j = true \/ valid j m = true.
Proof.
  destruct o; try (rewrite setter_currentTouched by discriminate; now left).
  apply update_bit_set.
Qed.

(** On a selected channel every operation acts as [port_exec]: its
    outcome there depends on that channel's cells and bit alone. *)
Lemma exec_view o m j :
  valid j m = true -> port_of (exec o m) j = port_exec o j (port_of m j).
Proof.
  intros Hj. destruct o; [now apply update_view|..];
    cbn [exec port_exec op_port];
    unfold setTouchMargin, setReleaseMargin, setSensorMinValue,
      setSensorMaxValue, setTouchJugeCount, setReleaseJugeCount, rethreshold;
    (destruct (Nat.eqb_spec port j) as [->|Hne];
     [rewrite Hj; unfold port_of, p_setter, p_rethreshold; cbn;
      try (destruct (bit (currentTouched m) j) eqn:Hb; cbn; rewrite ?Hb);
      unfold upd; now rewrite ?Nat.eqb_refl
     |destruct (valid port m); [|reflexivity];
      unfold port_of; cbn; try destruct (bit (currentTouched m) port); cbn;
      unfold upd; (destruct (Nat.eqb_spec j port); [congruence|reflexivity])]).
Qed.

Lemma port_step_ok raw p : 0 <= raw -> port_ok p -> port_ok (port_step raw p).
Proof.
  intros Hr (Hv & Hlo & Hhi). unfold port_ok in *.
  assert (Hn : F.nonneg (p_next_value raw p)).
  { unfold p_next_value. apply constrain_nonneg; unfold u16 in *; try lia.
    now apply smooth_nonneg. }
  unfold port_step. destruct (p_flips raw p); cbn; auto.
Qed.

Lemma default_port_ok raw : 0 <= raw -> port_ok (default_port raw).
Proof.
  intros Hr. unfold port_ok, default_port, u16. cbn. repeat split; try lia.
  apply constrain_nonneg; try lia. now apply f32_of_Z_nonneg.
Qed.

Lemma setter_port_ok o m i :
  (forall cap, o <> Update cap) -> typed o ->
  port_ok (port_of m i) -> port_ok (port_of (exec o m) i).
Proof.
  intros Ho Ht. unfold port_ok, port_of. cbn [p_value p_minValue p_maxValue].
  rewrite (setter_value o m Ho). intros (Hv & Hlo & Hhi).
  split; [exact Hv|].
  destruct o; cbn [exec typed] in *; [now contradiction (Ho cap)|..];
    unfold setTouchMargin, setReleaseMargin, setSensorMinValue,
      setSensorMaxValue, setTouchJugeCount, setReleaseJugeCount, rethreshold;
    destruct (valid port m); cbn; auto;
    try (destruct (bit (currentTouched m) port); cbn; now auto);
    unfold upd; destruct (Nat.eqb i port); auto.
Qed.

Lemma reachable_inv m : reachable m -> inv m.
Proof.
  induction 1 as [mem cap a mask Hc|o m Hm [IHp IHb] Ht].
  - split.
    + intros i Hi. rewrite new_port by exact Hi. apply default_port_ok, Hc.
    + intros j Hj. now rewrite new_bit in Hj.
  - split.
    + intros i Hi. rewrite exec_valid in Hi.
      destruct o; try (apply setter_port_ok; [discriminate|exact Ht|now apply IHp]).
      cbn [exec]. rewrite update_view by exact Hi.
      apply port_step_ok; [apply Ht|now apply IHp].
    + intros j Hj. rewrite exec_valid.
      destruct (exec_bit_set _ _ _ Hj); auto.
Qed.

(** ** What [update] stores *)

Lemma port_step_value raw p : p_value (port_step raw p) = p_next_value raw p.
Proof. unfold port_step. now destruct (p_flips raw p). Qed.

Lemma port_step_params raw p :
  p_minValue (port_step raw p) = p_minValue p /\
  p_maxValue (port_step raw p) = p_maxValue p /\
  p_touchMargin (port_step raw p) = p_touchMargin p /\
  p_releaseMargin (port_step raw p) = p_releaseMargin p /\
  p_touchJuge (port_step raw p) = p_touchJuge p /\
  p_releaseJuge (port_step raw p) = p_releaseJuge p.
Proof. unfold port_step. destruct (p_flips raw p); cbn; tauto. Qed.

Lemma update_value cap m i :
  valid i m = true ->
  value (update cap m) i =
  constrain (smooth (cap i) (value m i)) (minValue m i) (maxValue m i).
Proof.
  intros Hv.
  change (value (update cap m) i) with (p_value (port_of (update cap m) i)).
  now rewrite update_view, port_step_value.
Qed.



(** The [double] literal [0.6] is the correctly rounded quotient 6/10, and
    [alpha], its rounding to [float], is within half a unit in the last
    place ([2^-25]) of 6/10. *)
Lemma alpha_is_0_6 :
  SFdiv 53 1024 (F.f64_of_Z 6) (F.f64_of_Z 10) = F.lit_0_6 /\
  alpha = S754_finite false 10066330 (-24) /\
  2 * Z.abs (10 * 10066330 - 6 * 2 ^ 24) <= 10.
Proof. repeat split. vm_compute. discriminate. Qed.

Lemma lt_not_le x y : F.lt x y = true -> F.le y x = false.
Proof.
  unfold F.lt, F.le, SFltb, SFleb. rewrite (SFcompare_antisym x y).
  destruct (SFcompare x y) as [[ | | ]|]; cbn; congruence.
Qed.

Lemma lt_trans x y z : F.lt x y = true -> F.lt y z = true -> F.lt x z = true.
Proof.
  unfold F.lt, SFltb.
  destruct x as [[]|[]| |[] m1 e1], y as [[]|[]| |[] m2 e2],
    z as [[]|[]| |[] m3 e3]; cbn; try discriminate; try reflexivity;
    change (Pos.compare_cont Eq) with Pos.compare;
    destruct (Z.compare_spec e1 e2), (Z.compare_spec e2 e3),
      (Z.compare_spec e1 e3); try discriminate; try reflexivity; try lia;
    destruct (Pos.compare_spec m1 m2), (Pos.compare_spec m2 m3),
      (Pos.compare_spec m1 m3); cbn; try discriminate; try reflexivity; lia.
Qed.

(** Clamped from below by a bound above [t], a value is not below [t]. *)
Lemma constrain_not_below x lo hi t :
  F.lt t (F.f32_of_Z lo) = true -> F.lt (F.f32_of_Z hi) t = false ->
  F.lt (constrain x lo hi) t = false.
Proof.
  intros Hlo Hhi. unfold constrain.
  destruct (F.lt x (F.f32_of_Z lo)) eqn:E1.
  - destruct (F.lt (F.f32_of_Z lo) t) eqn:E; [|reflexivity].
    apply lt_le in E. rewrite (lt_not_le _ _ Hlo) in E. discriminate.
  - destruct (F.gt x (F.f32_of_Z hi)); [exact Hhi|].
    destruct (F.lt x t) eqn:E; [|reflexivity].
    rewrite (lt_trans _ _ _ E Hlo) in E1. discriminate.
Qed.

(** ** Lists checked by evaluation *)

Lemma Forall_of_forallb {A : Type} (f : A -> bool) (l : list A) :
  forallb f l = true -> Forall (fun x => f x = true) l.
Proof.
  intros H. apply Forall_forall. intros x Hx.
  now apply (proj1 (forallb_forall f l) H).
Qed.

Lemma Forall_le_of_forallb (c : Z) (l : list Z) :
  forallb (fun s => s <=? c) l = true -> Forall (fun s => s <= c) l.
Proof.
  intros H. apply Forall_forall. intros x Hx.
  apply Z.leb_le. now apply (proj1 (forallb_forall _ l) H).
Qed.

(** ** One channel over many cycles *)

Lemma gtb_false a b : a <= b -> (a >? b) = false.
Proof. intros H. rewrite Z.gtb_ltb. apply Z.ltb_ge. exact H. Qed.

Lemma gtb_true a b : b < a -> (a >? b) = true.
Proof. intros H. rewrite Z.gtb_ltb. apply Z.ltb_lt. exact H. Qed.

Lemma next_counter_range raw p : 0 <= p_next_counter raw p < 256.
Proof.
  unfold p_next_counter. destruct (p_conditionMet raw p); [|lia].
  apply Z.mod_pos_bound. lia.
Qed.

Lemma next_counter_le raw p s :
  0 <= p_counter p <= s ->
  0 <= p_next_counter raw p <= (if p_conditionMet raw p then s + 1 else 0).
Proof.
  intros H. unfold p_next_counter. destruct (p_conditionMet raw p); [|lia].
  pose proof (Z.mod_pos_bound (p_counter p + 1) 256).
  pose proof (Z.mod_le (p_counter p + 1) 256). lia.
Qed.

(** A step that does not flip keeps state, threshold and parameters. *)
Lemma port_step_stay raw p :
  p_flips raw p = false ->
  port_step raw p =
  mkPort (p_next_value raw p) (p_minValue p) (p_maxValue p) (p_touched p)
    (p_next_counter raw p) (p_threshold p)
    (p_touchMargin p) (p_releaseMargin p) (p_touchJuge p) (p_releaseJuge p).
Proof. unfold port_step. now intros ->. Qed.

Lemma port_step_touched raw p :
  p_touched (port_step raw p) = xorb (p_touched p) (p_flips raw p).
Proof.
  unfold port_step. destruct (p_flips raw p), (p_touched p); reflexivity.
Qed.

Lemma port_run_no_flip raws : forall p s,
  0 <= p_counter p <= s ->
  Forall (fun x => x <= p_confirm p) (streaks raws p s) ->
  p_touched (port_run raws p) = p_touched p.
Proof.
  induction raws as [|raw raws IH]; intros p s Hc Hs; [reflexivity|].
  rewrite port_run_cons. cbn [streaks] in Hs.
  inversion Hs as [|x l Hx Hl]; subst.
  pose proof (next_counter_le raw p s Hc) as Hn.
  assert (Hf : p_flips raw p = false).
  { unfold p_flips. apply gtb_false. lia. }
  assert (Hq : p_confirm (port_step raw p) = p_confirm p)
    by (rewrite (port_step_stay raw p Hf); reflexivity).
  rewrite (IH (port_step raw p) (if p_conditionMet raw p then s + 1 else 0)).
  - rewrite (port_step_stay raw p Hf). reflexivity.
  - rewrite (port_step_stay raw p Hf). cbn. exact Hn.
  - now rewrite Hq.
Qed.

(** With a confirm count of 255 the counter, which stays below 256,
    never exceeds it. *)
Lemma port_run_stuck raws : forall p,
  p_confirm p = 255 -> 
  p_touched (port_run raws p) = p_touched p /\ p_confirm (port_run raws p) = 255.
Proof.
  induction raws as [|raw raws IH]; intros p Hc; [now split|].
  rewrite port_run_cons.
  assert (Hf : p_flips raw p = false).
  { unfold p_flips. pose proof (next_counter_range raw p).
    apply gtb_false. lia. }
  assert (Hq : p_confirm (port_step raw p) = 255)
    by (rewrite (port_step_stay raw p Hf); exact Hc).
  destruct (IH _ Hq) as [-> ->]. split; [|reflexivity].
  rewrite (port_step_stay raw p Hf). reflexivity.
Qed.

(** Cycles in sequence compose. *)
Lemma run_app caps caps' m : run (caps ++ caps') m = run caps' (run caps m).
Proof. apply fold_left_app. Qed.

Lemma port_run_app raws raws' p :
  port_run (raws ++ raws') p = port_run raws' (port_run raws p).
Proof. apply fold_left_app. Qed.

(** The cycles leave the two confirm counts as they are. *)
Lemma port_run_confirm_counts raws : forall p,
  p_touchJuge (port_run raws p) = p_touchJuge p /\
  p_releaseJuge (port_run raws p) = p_releaseJuge p.
Proof.
  induction raws as [|raw raws IH]; intros p; [now split|].
  rewrite port_run_cons.
  destruct (IH (port_step raw p)) as [-> ->].
  pose proof (port_step_params raw p). tauto.
Qed.

(** A released channel does not become touched before its counter can
    have passed the confirm count. *)
Lemma port_run_not_earlier raws : forall p,
  p_touched p = false -> 0 <= p_counter p ->
  p_counter p + Z.of_nat (length raws) <= p_touchJuge p ->
  p_touched (port_run raws p) = false.
Proof.
  induction raws as [|raw raws IH]; intros p Ht Hc Hl; [exact Ht|].
  rewrite port_run_cons. cbn [length] in Hl.
  pose proof (next_counter_le raw p (p_counter p) ltac:(lia)) as Hn.
  assert (Hs : 0 <= p_next_counter raw p <= p_counter p + 1)
    by (destruct (p_conditionMet raw p); lia).
  assert (Hf : p_flips raw p = false).
  { unfold p_flips, p_confirm. rewrite Ht. apply gtb_false. lia. }
  apply IH; rewrite (port_step_stay raw p Hf); cbn; try assumption; lia.
Qed.

(** A released channel whose smoothed value is below the threshold on each
    of the cycles that take the counter from its value to the confirm
    count plus one is touched after the last of them. *)
Lemma port_run_touch raws : forall p,
  p_touched p = false -> 0 <= p_counter p <= p_touchJuge p ->
  p_touchJuge p < 255 ->
  p_counter p + Z.of_nat (length raws) = p_touchJuge p + 1 ->
  Forall (fun v => F.lt v (p_threshold p) = true) (p_smoothed raws p) ->
  p_touched (port_run raws p) = true.
Proof.
  induction raws as [|raw raws IH]; intros p Ht Hc Hj Hl Hs.
  - cbn in Hl. lia.
  - rewrite port_run_cons. cbn [length p_smoothed] in *.
    inversion Hs as [|x l Hx Hrest]; subst.
    assert (Hm : p_conditionMet raw p = true)
      by (unfold p_conditionMet; now rewrite Ht).
    assert (Hn : p_next_counter raw p = p_counter p + 1).
    { unfold p_next_counter. rewrite Hm. apply Z.mod_small. lia. }
    destruct raws as [|raw' raws].
    + cbn. rewrite port_step_touched, Ht. unfold p_flips, p_confirm.
      rewrite Ht, Hn. cbn [length] in Hl.
      rewrite gtb_true by lia. reflexivity.
    + assert (Hf : p_flips raw p = false).
      { unfold p_flips, p_confirm. rewrite Ht, Hn.
        apply gtb_false. cbn [length] in Hl. lia. }
      rewrite (port_step_stay raw p Hf) in *.
      apply IH; cbn [p_touched p_counter p_touchJuge p_threshold length] in *;
        try assumption; lia.
Qed.

(** A released channel whose clamped value cannot be below its threshold
    stays released. *)
Lemma port_run_never_touch raws : forall p,
  p_touched p = false -> p_counter p = 0 -> 0 <= p_touchJuge p ->
  (forall x, F.lt (constrain x (p_minValue p) (p_maxValue p)) (p_threshold p) = false) ->
  p_touched (port_run raws p) = false.
Proof.
  induction raws as [|raw raws IH]; intros p Ht Hc Hj Hx; [exact Ht|].
  rewrite port_run_cons.
  assert (Hm : p_conditionMet raw p = false)
    by (unfold p_conditionMet, p_next_value; rewrite Ht; apply Hx).
  assert (Hn : p_next_counter raw p = 0)
    by (unfold p_next_counter; now rewrite Hm).
  assert (Hf : p_flips raw p = false).
  { unfold p_flips, p_confirm. rewrite Ht, Hn. apply gtb_false. lia. }
  apply IH; rewrite (port_step_stay raw p Hf); cbn; assumption.
Qed.

(** The observations of a channel are those of its view. *)
Lemma conditionMet_view cap i m :
  valid i m = true -> conditionMet cap i m = p_conditionMet (cap i) (port_of m i).
Proof.
  intros Hv. unfold conditionMet, p_conditionMet, p_next_value.
  now rewrite update_value.
Qed.

Lemma condition_runs_view i caps : forall m s,
  valid i m = true ->
  condition_runs i caps m s = streaks (readings i caps) (port_of m i) s.
Proof.
  induction caps as [|cap caps IH]; intros m s Hv; [reflexivity|].
  cbn [condition_runs readings map streaks].
  rewrite conditionMet_view, IH, update_view by now rewrite ?update_valid.
  reflexivity.
Qed.

Lemma smoothed_view i caps : forall m,
  valid i m = true ->
  smoothed i caps m = p_smoothed (readings i caps) (port_of m i).
Proof.
  induction caps as [|cap caps IH]; intros m Hv; [reflexivity|].
  cbn [smoothed readings map p_smoothed].
  rewrite update_value, IH, update_view by now rewrite ?update_valid.
  reflexivity.
Qed.

Lemma readings_length i caps : length (readings i caps) = length caps.
Proof. apply length_map. Qed.

(* ================================================================== *)
(** ** Floating point: rounding in integer arithmetic *)

(** Counting the iterations of [iter_pos]. *)
Lemma iter_pos_count {A : Type} (P : Z -> A -> Prop) (f : A -> A) :
  (forall k x, P k x -> P (k + 1) (f x)) ->
  forall n k x, P k x -> P (k + Zpos n) (iter_pos f n x).
Proof.
  intros Hf. induction n as [n IH|n IH|]; intros k x Hx; cbn [iter_pos].
  - replace (k + Zpos n~1) with (k + 1 + Zpos n + Zpos n) by lia. auto.
  - replace (k + Zpos n~0) with (k + Zpos n + Zpos n) by lia. auto.
  - auto.
Qed.

Lemma shr_1_m mrs : 0 <= shr_m mrs -> shr_m (shr_1 mrs) = shr_m mrs / 2.
Proof.
  destruct mrs as [m r s]. cbn [shr_m shr_1].
  destruct m as [|[q|q|]|q]; intros H; cbn [shr_m]; try lia; try reflexivity.
  - apply (Z.div_unique (Zpos q~1) 2 (Zpos q) 1); [lia|].
    rewrite (Pos2Z.inj_xI q). reflexivity.
  - apply (Z.div_unique (Zpos q~0) 2 (Zpos q) 0); [lia|].
    rewrite (Pos2Z.inj_xO q). lia.
Qed.

Lemma shr_1_flags mrs :
  0 <= shr_m mrs -> shr_r mrs = false -> shr_s mrs = false ->
  shr_m mrs mod 2 = 0 ->
  shr_r (shr_1 mrs) = false /\ shr_s (shr_1 mrs) = false.
Proof.
  destruct mrs as [m r s]. cbn [shr_m shr_r shr_s]. intros H -> -> Hm.
  destruct m as [|[q|q|]|q]; cbn [shr_1 shr_r shr_s orb];
    try (now split); try lia; try discriminate.
  rewrite (Pos2Z.inj_xI q), Z.add_comm, Z.mul_comm, Z.mod_add in Hm by lia.
  discriminate.
Qed.

(** [n] steps of [shr_1] divide by [2^n], exactly when nothing is lost. *)
Lemma shr_iter (mx : Z) (n : positive) :
  0 <= mx ->
  let mrs := iter_pos shr_1 n (Build_shr_record mx false false) in
  shr_m mrs = mx / 2 ^ Zpos n /\
  (mx mod 2 ^ Zpos n = 0 -> shr_r mrs = false /\ shr_s mrs = false).
Proof.
  intros Hm mrs.
  pose (P := fun (k : Z) (x : shr_record) =>
    0 <= k /\ shr_m x = mx / 2 ^ k /\
    (mx mod 2 ^ k = 0 -> shr_r x = false /\ shr_s x = false)).
  assert (H : P (0 + Zpos n) mrs).
  { apply iter_pos_count.
    - intros k x (Hk & Hx & Hf). unfold P.
      assert (Hp : 0 < 2 ^ k) by (apply Z.pow_pos_nonneg; lia).
      assert (Hx0 : 0 <= shr_m x) by (rewrite Hx; apply Z.div_pos; lia).
      split; [lia|]. split.
      + rewrite shr_1_m, Hx, Z.pow_add_r, Z.pow_1_r, Z.div_div by lia. reflexivity.
      + intros Hd. rewrite Z.pow_add_r, Z.pow_1_r in Hd by lia.
        apply Z.mod_divide in Hd; [|lia]. destruct Hd as [t Ht].
        assert (Hk0 : mx mod 2 ^ k = 0).
        { rewrite Ht. replace (t * (2 ^ k * 2)) with (t * 2 * 2 ^ k) by ring.
          apply Z.mod_mul. lia. }
        destruct (Hf Hk0) as [Hr Hs].
        apply shr_1_flags; try assumption.
        rewrite Hx, Ht. replace (t * (2 ^ k * 2)) with (t * 2 * 2 ^ k) by ring.
        rewrite Z.div_mul by lia. apply Z.mod_mul. lia.
    - unfold P. cbn [shr_m shr_r shr_s]. rewrite Z.pow_0_r, Z.div_1_r. now repeat split. }
  destruct H as (_ & H1 & H2). split; assumption.
Qed.

Lemma round_nearest_even_near m l :
  m <= round_nearest_even m l <= m + 1.
Proof.
  unfold round_nearest_even. destruct l as [|[ | | ]]; try destruct (Z.even m); lia.
Qed.

(** The number of binary digits, from a bracket. *)
Lemma range_of_digits p :
  2 ^ (Zpos (digits2_pos p) - 1) <= Zpos p < 2 ^ Zpos (digits2_pos p).
Proof.
  rewrite digits2_size.
  pose proof (Pos.size_gt p) as Hgt. pose proof (Pos.size_le p) as Hle.
  apply Pos2Z.pos_lt_pos in Hgt. apply Pos2Z.pos_le_pos in Hle.
  rewrite Pos2Z.inj_pow in Hgt, Hle.
  change (Zpos p~0) with (2 * Zpos p) in Hle.
  generalize dependent (Zpos (Pos.size p)). intros d Hgt Hle.
  assert (Hd : 0 < d).
  { destruct (Z.lt_trichotomy d 0) as [H|[H|H]]; [|subst|exact H].
    - rewrite Z.pow_neg_r in Hgt by lia. lia.
    - cbn in Hgt. lia. }
  split; [|exact Hgt].
  replace d with (d - 1 + 1) in Hle by lia.
  rewrite Z.pow_add_r, Z.pow_1_r in Hle by lia. lia.
Qed.

Lemma digits_of_range p k :
  2 ^ (k - 1) <= Zpos p < 2 ^ k -> Zpos (digits2_pos p) = k.
Proof.
  intros [Hl Hu]. pose proof (range_of_digits p) as [Hl' Hu'].
  assert (Hd : 0 < Zpos (digits2_pos p)) by lia.
  generalize dependent (Zpos (digits2_pos p)). intros d Hl' Hu' Hd.
  assert (Hk : 0 < k).
  { destruct (Z.lt_trichotomy k 0) as [H|[H|H]]; [|subst|exact H].
    - rewrite Z.pow_neg_r in Hu by lia. lia.
    - cbn in Hu. lia. }
  destruct (Z.lt_trichotomy d k) as [H|[H|H]]; [|exact H|].
  - assert (2 ^ d <= 2 ^ (k - 1)) by (apply Z.pow_le_mono_r; lia). lia.
  - assert (2 ^ k <= 2 ^ (d - 1)) by (apply Z.pow_le_mono_r; lia). lia.
Qed.

(** Rounding a positive mantissa that is [n > 0] digits too long: the
    mantissa is divided by [2^n] and rounded to one of the two neighbours,
    to the quotient itself when the division is exact; a mantissa that
    rounding takes to [2^prec] is renormalised. *)
Lemma binary_round_aux_shr prec emax mx ex n :
  0 < prec -> 0 < n ->
  Zpos (digits2_pos mx) = prec + n ->
  emin prec emax <= ex + n ->
  ex + n + 1 <= emax - prec ->
  exists m1 e1,
    binary_round_aux prec emax false (Zpos mx) ex loc_Exact = S754_finite false m1 e1 /\
    Zpos (digits2_pos m1) = prec /\
    ((e1 = ex + n /\
      Zpos mx / 2 ^ n <= Zpos m1 <= Zpos mx / 2 ^ n + 1 /\ Zpos m1 < 2 ^ prec /\
      (Zpos mx mod 2 ^ n = 0 -> Zpos m1 = Zpos mx / 2 ^ n)) \/
     (e1 = ex + n + 1 /\ Zpos m1 = 2 ^ (prec - 1) /\ Zpos mx / 2 ^ n + 1 = 2 ^ prec /\
      Zpos mx mod 2 ^ n <> 0)).
Proof.
  intros Hp Hn Hd Hmin Hmax.
  pose proof (range_of_digits mx) as [Hlo Hhi]. rewrite Hd in Hlo, Hhi.
  assert (H2n : 0 < 2 ^ n) by (apply Z.pow_pos_nonneg; lia).
  assert (Hq : 2 ^ (prec - 1) <= Zpos mx / 2 ^ n < 2 ^ prec).
  { split.
    - apply Z.div_le_lower_bound; [lia|].
      rewrite Z.mul_comm, <- Z.pow_add_r by lia.
      replace (prec - 1 + n) with (prec + n - 1) by lia. exact Hlo.
    - apply Z.div_lt_upper_bound; [lia|].
      rewrite <- Z.pow_add_r by lia. replace (n + prec) with (prec + n) by lia.
      exact Hhi. }
  assert (Hpp : 0 < 2 ^ (prec - 1)) by (apply Z.pow_pos_nonneg; lia).
  assert (H2p : 2 ^ prec = 2 * 2 ^ (prec - 1)).
  { replace prec with (prec - 1 + 1) at 1 by lia.
    rewrite Z.pow_add_r, Z.pow_1_r by lia. lia. }
  unfold binary_round_aux, shr_fexp. cbn [Zdigits2 shr_record_of_loc].
  rewrite Hd.
  assert (Hf : fexp prec emax (prec + n + ex) - ex = n) by (unfold fexp; lia).
  rewrite Hf. destruct n as [|np|np]; try lia. cbn [shr].
  destruct (shr_iter (Zpos mx) np ltac:(lia)) as [Hm Hfl].
  set (mrs := iter_pos shr_1 np _) in *.
  pose proof (round_nearest_even_near (shr_m mrs) (loc_of_shr_record mrs)) as Hr.
  assert (Hex : Zpos mx mod 2 ^ Zpos np = 0 ->
                round_nearest_even (shr_m mrs) (loc_of_shr_record mrs) = shr_m mrs).
  { intros H0. destruct (Hfl H0) as [Hr0 Hs0].
    destruct mrs as [m r s]. cbn in Hr0, Hs0. subst. reflexivity. }
  set (m1 := round_nearest_even (shr_m mrs) (loc_of_shr_record mrs)) in *.
  rewrite Hm in Hr, Hex. clearbody m1.
  destruct m1 as [|m1|m1]; try lia.
  cbn [Zdigits2].
  destruct (Z.lt_ge_cases (Zpos m1) (2 ^ prec)) as [Hlt|Hge].
  - assert (Hd1 : Zpos (digits2_pos m1) = prec) by (apply digits_of_range; lia).
    rewrite Hd1.
    assert (Hf1 : fexp prec emax (prec + (ex + Zpos np)) - (ex + Zpos np) = 0)
      by (unfold fexp; lia).
    rewrite Hf1. cbn [shr shr_m].
    assert (Hle : (ex + Zpos np <=? emax - prec) = true) by (apply Z.leb_le; lia).
    rewrite Hle. exists m1, (ex + Zpos np). split; [reflexivity|].
    split; [exact Hd1|]. left. repeat split; lia.
  - assert (E1 : Zpos m1 = 2 ^ prec) by lia.
    assert (Hd1 : Zpos (digits2_pos m1) = prec + 1).
    { apply digits_of_range. replace (prec + 1 - 1) with prec by lia.
      rewrite Z.pow_add_r, Z.pow_1_r by lia. lia. }
    rewrite Hd1.
    assert (Hf1 : fexp prec emax (prec + 1 + (ex + Zpos np)) - (ex + Zpos np) = 1)
      by (unfold fexp; lia).
    rewrite Hf1. cbn [shr iter_pos].
    rewrite shr_1_m by (cbn; lia). cbn [shr_m].
    assert (Eh : Zpos m1 / 2 = 2 ^ (prec - 1)).
    { rewrite E1, H2p, Z.mul_comm, Z.div_mul by lia. reflexivity. }
    rewrite Eh.
    destruct (2 ^ (prec - 1)) as [|h|h] eqn:Eh2; try lia.
    assert (Hle : (ex + Zpos np + 1 <=? emax - prec) = true) by (apply Z.leb_le; lia).
    rewrite Hle. exists h, (ex + Zpos np + 1). split; [reflexivity|].
    split; [apply digits_of_range; lia|]. right. repeat split; lia.
Qed.

Lemma iter_xO_Z mx k : Zpos (Pos.iter xO mx k) = Zpos mx * 2 ^ Zpos k.
Proof.
  induction k as [|k IH] using Pos.peano_ind.
  - cbn [Pos.iter]. rewrite Z.pow_1_r. lia.
  - rewrite Pos.iter_succ, Pos2Z.inj_succ, Z.pow_succ_r by lia.
    change (Zpos (Pos.iter xO mx k)~0) with (2 * Zpos (Pos.iter xO mx k)).
    rewrite IH. ring.
Qed.

Lemma shl_align_fst mx ex ez :
  ez <= ex -> Zpos (fst (shl_align mx ex ez)) = Zpos mx * 2 ^ (ex - ez).
Proof.
  intros H. unfold shl_align.
  destruct (ez - ex) as [|d|d] eqn:E; cbn [fst]; try lia.
  - replace (ex - ez) with 0 by lia. rewrite Z.pow_0_r. lia.
  - rewrite iter_xO_Z. replace (ex - ez) with (Zpos d) by lia. reflexivity.
Qed.

(** Normalising a number that the format holds exactly: the mantissa is
    brought to [prec] digits and the value is kept. [k] is any scale that
    makes the two numbers integers. *)
Lemma binary_round_exact prec emax mx ex k :
  0 < prec ->
  emin prec emax <= Zpos (digits2_pos mx) + ex - prec ->
  Zpos (digits2_pos mx) + ex - prec + 1 <= emax - prec ->
  (prec < Zpos (digits2_pos mx) ->
   Zpos mx mod 2 ^ (Zpos (digits2_pos mx) - prec) = 0) ->
  0 <= k + ex -> 0 <= k + (Zpos (digits2_pos mx) + ex - prec) ->
  exists mz,
    binary_round prec emax false mx ex
    = S754_finite false mz (Zpos (digits2_pos mx) + ex - prec) /\
    Zpos (digits2_pos mz) = prec /\
    Zpos mz * 2 ^ (k + (Zpos (digits2_pos mx) + ex - prec)) = Zpos mx * 2 ^ (k + ex).
Proof.
  set (d := Zpos (digits2_pos mx)). intros Hp Hmin Hmax Hdiv Hk Hke.
  unfold binary_round. fold d.
  assert (Hf : fexp prec emax (d + ex) = d + ex - prec) by (unfold fexp; lia).
  rewrite Hf.
  destruct (Z.lt_trichotomy d prec) as [Hlt|[Heq|Hgt]].
  - unfold shl_align. destruct (d + ex - prec - ex) as [|q|q] eqn:E; try lia.
    assert (Hq : Zpos q = prec - d) by lia.
    assert (Hs : Zpos (digits2_pos (Pos.iter xO mx q)) = prec).
    { rewrite digits2_size, size_iter_xO, <- digits2_size. fold d. lia. }
    exists (Pos.iter xO mx q). split; [|split; [exact Hs|]].
    + apply binary_round_aux_exact; [|lia]. rewrite Hs. unfold fexp. lia.
    + rewrite iter_xO_Z, Hq, <- Z.mul_assoc, <- Z.pow_add_r by lia.
      f_equal. f_equal. lia.
  - unfold shl_align. destruct (d + ex - prec - ex) as [|q|q] eqn:E; try lia.
    exists mx. split; [|split; [exact Heq|]].
    + replace (d + ex - prec) with ex by lia.
      apply binary_round_aux_exact; [|lia]. fold d. unfold fexp. lia.
    + f_equal. f_equal. lia.
  - unfold shl_align. destruct (d + ex - prec - ex) as [|q|q] eqn:E; try lia.
    destruct (binary_round_aux_shr prec emax mx ex (d - prec))
      as (m1 & e1 & Hr & Hd1 & [(He1 & Hq1 & Hlt1 & Hex1)|(He1 & Hm1 & Hc1 & Hne)]);
      try (fold d; lia).
    exists m1. split; [|split; [exact Hd1|]].
    + rewrite Hr. f_equal. lia.
    + rewrite (Hex1 (Hdiv Hgt)).
        assert (H2 : 0 < 2 ^ (d - prec)) by (apply Z.pow_pos_nonneg; lia).
        pose proof (Z.div_mod (Zpos mx) (2 ^ (d - prec)) ltac:(lia)) as Hdm.
        rewrite (Hdiv Hgt), Z.add_0_r in Hdm.
        rewrite Hdm at 2.
        replace (k + (d + ex - prec)) with (k + ex + (d - prec)) by lia.
        rewrite Z.pow_add_r by lia. ring.
Qed.

Lemma convert_finite prec emax m e :
  F.convert prec emax (S754_finite false m e) = binary_round prec emax false m e.
Proof. reflexivity. Qed.

Lemma lt_same_exponent m m' e :
  F.lt (S754_finite false m e) (S754_finite false m' e) = (Zpos m <? Zpos m').
Proof.
  unfold F.lt, SFltb, SFcompare. rewrite Z.compare_refl.
  unfold Z.ltb. cbn [Z.compare]. unfold Pos.compare. reflexivity.
Qed.

Lemma lt_lower_exponent m m' e e' :
  e < e' -> F.lt (S754_finite false m e) (S754_finite false m' e') = true.
Proof.
  intros H. unfold F.lt, SFltb, SFcompare.
  apply Z.compare_lt_iff in H. now rewrite H.
Qed.

(** ** The smoothing step in units of [2^-14] *)

Lemma f64_of_value m :
  2 ^ 23 <= Zpos m < 2 ^ 24 ->
  exists mz, F.f64_of_f32 (S754_finite false m (-14)) = S754_finite false mz (-43) /\
             Zpos mz = Zpos m * 2 ^ 29.
Proof.
  intros Hm.
  assert (Hd : Zpos (digits2_pos m) = 24) by (apply digits_of_range; exact Hm).
  unfold F.f64_of_f32. rewrite convert_finite.
  destruct (binary_round_exact 53 1024 m (-14) 43) as (mz & Hr & _ & Hv);
    rewrite ?Hd; unfold emin; try lia.
  rewrite Hd in Hr, Hv. exists mz. split; [exact Hr|].
  change (43 + (24 + -14 - 53)) with 0 in Hv. change (43 + -14) with 29 in Hv.
  rewrite Z.pow_0_r in Hv. lia.
Qed.

Lemma mul64_value mz m :
  Zpos mz = Zpos m * 2 ^ 29 -> 9830400 <= Zpos m <= 11632640 ->
  exists mb eb,
    F.mul64 (S754_finite false 7205758974296064 (-54)) (S754_finite false mz (-43))
    = S754_finite false mb eb /\
    Zpos (digits2_pos mb) = 53 /\ -45 <= eb <= -44 /\
    Zpos mb * 2 ^ (eb + 53) = 6710886 * 2 ^ 15 * Zpos m.
Proof.
  intros Hz Hm. unfold F.mul64, SFmul. cbn [xorb].
  change (-54 + -43) with (-97).
  assert (Hp : Zpos (7205758974296064 * mz) = 6710886 * Zpos m * 2 ^ 59).
  { rewrite Pos2Z.inj_mul, Hz. change 7205758974296064 with (6710886 * 2 ^ 30). 
    change (2 ^ 59) with (2 ^ 30 * 2 ^ 29). ring. }
  destruct (Z.le_gt_cases (Zpos m) 10485760) as [Hlow|Hhigh].
  - destruct (binary_round_aux_shr 53 1024 (7205758974296064 * mz) (-97) 52)
      as (m1 & e1 & Hr & Hd1 & [(He1 & Hq1 & Hlt1 & Hex1)|(He1 & Hm1 & Hc1 & Hne)]);
      unfold emin; try lia.
    + apply digits_of_range. rewrite Hp. lia.
    + exists m1, e1. split; [exact Hr|]. split; [exact Hd1|]. subst e1.
      split; [lia|]. rewrite Hex1.
      * rewrite Hp. change (2 ^ 59) with (2 ^ 7 * 2 ^ 52).
        rewrite Z.mul_assoc, Z.div_mul by lia. 
        change (-97 + 52 + 53) with 8. lia.
      * rewrite Hp. change (2 ^ 59) with (2 ^ 7 * 2 ^ 52).
        rewrite Z.mul_assoc. apply Z.mod_mul. lia.
    + exfalso. apply Hne. rewrite Hp. change (2 ^ 59) with (2 ^ 7 * 2 ^ 52).
      rewrite Z.mul_assoc. apply Z.mod_mul. lia.
  - destruct (binary_round_aux_shr 53 1024 (7205758974296064 * mz) (-97) 53)
      as (m1 & e1 & Hr & Hd1 & [(He1 & Hq1 & Hlt1 & Hex1)|(He1 & Hm1 & Hc1 & Hne)]);
      unfold emin; try lia.
    + apply digits_of_range. rewrite Hp. lia.
    + exists m1, e1. split; [exact Hr|]. split; [exact Hd1|]. subst e1.
      split; [lia|]. rewrite Hex1.
      * rewrite Hp. change (2 ^ 59) with (2 ^ 6 * 2 ^ 53).
        rewrite Z.mul_assoc, Z.div_mul by lia. 
        change (-97 + 53 + 53) with 9. lia.
      * rewrite Hp. change (2 ^ 59) with (2 ^ 6 * 2 ^ 53).
        rewrite Z.mul_assoc. apply Z.mod_mul. lia.
    + exfalso. apply Hne. rewrite Hp. change (2 ^ 59) with (2 ^ 6 * 2 ^ 53).
      rewrite Z.mul_assoc. apply Z.mod_mul. lia.
Qed.

Lemma pow2_lt_inv a b : 0 <= b -> 2 ^ a < 2 ^ b -> a < b.
Proof. intros Hb H. apply (Z.pow_lt_mono_r_iff 2); [lia|exact Hb|exact H]. Qed.

(** A [double] sum of two positive numbers that has no more than 53
    significant bits is exact. *)
Lemma add64_value ma ea mb eb :
  -53 <= ea -> -53 <= eb ->
  2 ^ 60 <= Zpos ma * 2 ^ (ea + 53) + Zpos mb * 2 ^ (eb + 53) < 2 ^ 63 ->
  (Zpos ma * 2 ^ (ea + 53) + Zpos mb * 2 ^ (eb + 53)) mod 2 ^ 15 = 0 ->
  exists ms es,
    F.add64 (S754_finite false ma ea) (S754_finite false mb eb)
    = S754_finite false ms es /\
    Zpos (digits2_pos ms) = 53 /\ -45 <= es <= -43 /\
    Zpos ms * 2 ^ (es + 53)
    = Zpos ma * 2 ^ (ea + 53) + Zpos mb * 2 ^ (eb + 53).
Proof.
  intros Hea Heb. set (T := _ + _). intros HT Hdiv.
  unfold F.add64, SFadd. cbn [cond_Zopp].
  set (ez := Z.min ea eb).
  assert (Hez : -53 <= ez /\ ez <= ea /\ ez <= eb) by (unfold ez; lia).
  set (a' := fst (shl_align ma ea ez)). set (b' := fst (shl_align mb eb ez)).
  change (Zpos a' + Zpos b') with (Zpos (a' + b')). cbn [binary_normalize].
  assert (Hs : Zpos (a' + b') * 2 ^ (ez + 53) = T).
  { rewrite Pos2Z.inj_add. unfold a', b'. rewrite !shl_align_fst by lia.
    unfold T. rewrite Z.mul_add_distr_r, <- !Z.mul_assoc, <- !Z.pow_add_r by lia.
    replace (ea - ez + (ez + 53)) with (ea + 53) by lia.
    replace (eb - ez + (ez + 53)) with (eb + 53) by lia. reflexivity. }
  clearbody T. generalize dependent (a' + b')%positive. clear a' b'. intros s Hs.
  pose proof (range_of_digits s) as [Hlo Hhi].
  set (d := Zpos (digits2_pos s)) in *.
  assert (Hd0 : 0 < d) by (unfold d; lia).
  assert (Hw : 0 < 2 ^ (ez + 53)) by (apply Z.pow_pos_nonneg; lia).
  assert (H1 : 2 ^ (d - 1 + (ez + 53)) <= T).
  { rewrite Z.pow_add_r by lia. rewrite <- Hs. apply Z.mul_le_mono_nonneg_r; lia. }
  assert (H2 : T < 2 ^ (d + (ez + 53))).
  { rewrite Z.pow_add_r by lia. rewrite <- Hs. apply Z.mul_lt_mono_pos_r; lia. }
  assert (H3 : d - 1 + (ez + 53) < 63) by (apply pow2_lt_inv; lia).
  assert (H4 : 60 < d + (ez + 53)) by (apply pow2_lt_inv; lia).
  destruct (binary_round_exact 53 1024 s ez 53) as (ms & Hr & Hd & Hv);
    fold d; unfold emin; try lia.
  - intros Hgt.
    apply Z.mod_divide in Hdiv; [|lia]. destruct Hdiv as [u Hu].
    assert (E : Zpos s = u * 2 ^ (15 - (d - 53) - (ez + 53)) * 2 ^ (d - 53)).
    { apply (Z.mul_reg_r _ _ (2 ^ (ez + 53))); [lia|].
      rewrite Hs, Hu, <- !Z.mul_assoc, <- !Z.pow_add_r by lia.
      f_equal. f_equal. lia. }
    rewrite E. apply Z.mod_mul.
    assert (0 < 2 ^ (d - 53)) by (apply Z.pow_pos_nonneg; lia). lia.
  - fold d in Hr, Hv. exists ms, (d + ez - 53).
    split; [exact Hr|]. split; [exact Hd|]. split; [lia|].
    rewrite <- Hs.
    replace (d + ez - 53 + 53) with (53 + (d + ez - 53)) by lia.
    replace (ez + 53) with (53 + ez) by lia. exact Hv.
Qed.

(** The sum of the smoothing narrowed to [float]: a sum below 512 gives a
    [float] up to 512; one from 512 gives a mantissa of exponent [-14] next
    to the exact one. *)
Lemma f32_of_sum ms es :
  Zpos (digits2_pos ms) = 53 -> -45 <= es <= -43 ->
  Zpos ms * 2 ^ (es + 53) < 11632640 * 2 ^ 39 ->
  exists m1 e1,
    F.f32_of_f64 (S754_finite false ms es) = S754_finite false m1 e1 /\
    ((e1 = -14 /\ 
      (Zpos m1 - 1) * 2 ^ 39 < Zpos ms * 2 ^ (es + 53) < (Zpos m1 + 1) * 2 ^ 39) \/
     ((e1 < -14 \/ e1 = -14 /\ Zpos m1 = 2 ^ 23) /\
      Zpos ms * 2 ^ (es + 53) < 2 ^ 62)).
Proof.
  intros Hd Hes HT.
  pose proof (range_of_digits ms) as [Hlo Hhi]. rewrite Hd in Hlo, Hhi.
  unfold F.f32_of_f64. rewrite convert_finite.
  unfold binary_round. rewrite Hd.
  assert (Hf : fexp 24 128 (53 + es) = es + 29) by (unfold fexp, emin; lia).
  rewrite Hf. unfold shl_align.
  destruct (es + 29 - es) as [|q|q] eqn:E; try lia.
  destruct (binary_round_aux_shr 24 128 ms es 29)
    as (m1 & e1 & Hr & Hd1 & [(He1 & Hq1 & Hlt1 & Hex1)|(He1 & Hm1 & Hc1 & Hne)]);
    unfold emin; try lia.
  - exists m1, e1. split; [exact Hr|].
    assert (Hes' : es = -45 \/ es = -44 \/ es = -43) by lia.
    pose proof (Z.div_mod (Zpos ms) (2 ^ 29) ltac:(lia)) as Hdm.
    pose proof (Z.mod_pos_bound (Zpos ms) (2 ^ 29) ltac:(lia)) as Hmb.
    destruct Hes' as [-> | [-> | ->]].
    + right. split; [left; lia|]. change (-45 + 53) with 8. lia.
    + right. split; [left; lia|]. change (-44 + 53) with 9. lia.
    + left. split; [lia|]. change (-43 + 53) with 10.
      destruct (Z.eq_dec (Zpos ms mod 2 ^ 29) 0) as [H0|H0].
      * rewrite (Hex1 H0). lia.
      * lia.
  - exists m1, e1. split; [exact Hr|].
    assert (Hes' : es = -45 \/ es = -44 \/ es = -43) by lia.
    pose proof (Z.div_mod (Zpos ms) (2 ^ 29) ltac:(lia)) as Hdm.
    pose proof (Z.mod_pos_bound (Zpos ms) (2 ^ 29) ltac:(lia)) as Hmb.
    destruct Hes' as [-> | [-> | ->]].
    + right. split; [left; lia|]. change (-45 + 53) with 8. lia.
    + right. split; [right; lia|]. change (-44 + 53) with 9. lia.
    + exfalso. change (-43 + 53) with 10 in HT. lia.
Qed.

Lemma weighted_checked raw : 0 <= raw <= 680 -> weighted_ok raw = true.
Proof.
  intros Hr.
  assert (Hall : forallb (fun n => weighted_ok (Z.of_nat n)) (seq 0 681) = true)
    by (vm_compute; reflexivity).
  pose proof (proj1 (forallb_forall _ _) Hall (Z.to_nat raw)) as H.
  cbv beta in H. rewrite Z2Nat.id in H by lia.
  apply H. apply in_seq. lia.
Qed.

Lemma weighted_units raw :
  weighted_ok raw = true ->
  (units53 (weighted raw)) mod 2 ^ 15 = 0 /\
  10066330 * 2 ^ 15 * (raw * 16384 - 2) <= units53 (weighted raw)
    <= 10066330 * 2 ^ 15 * (raw * 16384 + 2).
Proof.
  unfold weighted_ok, units53.
  destruct (weighted raw) as [[|]|s| |[|] ma ea]; try discriminate.
  - intros H. apply Z.eqb_eq in H. subst raw. split; [reflexivity|lia].
  - intros H. repeat (apply andb_true_iff in H; destruct H as [H ?]).
    rewrite Z.eqb_eq in *. rewrite Z.leb_le in *. split; [assumption|lia].
Qed.

(** One smoothing step on a value between 600 and 710, in units of
    [2^-14]: the result is the exact [alpha * raw + (1 - alpha) * value]
    (with the [float] product for [alpha * raw]) rounded to a neighbouring
    unit, then clamped. *)
Lemma next_value_units raw m :
  weighted_ok raw = true -> 0 <= raw <= 680 ->
  9830400 <= Zpos m <= 11632640 ->
  exists g,
    constrain (smooth raw (S754_finite false m (-14))) 600 710
    = S754_finite false g (-14) /\
    9830400 <= Zpos g <= 11632640 /\
    (Zpos g = 9830400 \/
     (Zpos g - 1) * 2 ^ 39 < units53 (weighted raw) + 6710886 * 2 ^ 15 * Zpos m) /\
    (Zpos g = 11632640 \/
     units53 (weighted raw) + 6710886 * 2 ^ 15 * Zpos m < (Zpos g + 1) * 2 ^ 39).
Proof.
  intros Hok Hraw Hm.
  destruct (weighted_units raw Hok) as (Hdiv & Hlo & Hhi).
  destruct (f64_of_value m ltac:(lia)) as (mz & Ez & Hz).
  destruct (mul64_value mz m Hz Hm) as (mb & eb & Eb & Hdb & Heb & Hb).
  unfold smooth. rewrite one_minus_alpha_eq, Ez, Eb.
  fold (weighted raw).
  assert (Hsum : exists ms es,
    F.add64 (weighted raw) (S754_finite false mb eb) = S754_finite false ms es /\
    Zpos (digits2_pos ms) = 53 /\ -45 <= es <= -43 /\
    Zpos ms * 2 ^ (es + 53) = units53 (weighted raw) + 6710886 * 2 ^ 15 * Zpos m).
  { unfold weighted_ok in Hok. unfold units53 in *.
    destruct (weighted raw) as [[|]|s| |[|] ma ea]; try discriminate.
    - exists mb, eb. split; [reflexivity|]. split; [exact Hdb|]. split; [lia|].
      rewrite Hb. reflexivity.
    - repeat (apply andb_true_iff in Hok; destruct Hok as [Hok ?]).
      rewrite Z.leb_le in *.
      destruct (add64_value ma ea mb eb) as (ms & es & E & Hd & Hes & Hv);
        try lia.
      + rewrite Hb. 
        rewrite <- Z.add_mod_idemp_l, Hdiv, Z.add_0_l by lia.
        rewrite (Z.mul_comm 6710886), <- Z.mul_assoc, Z.mul_comm. apply Z.mod_mul. lia.
      + exists ms, es. rewrite <- Hb. auto. }
  destruct Hsum as (ms & es & Es & Hds & Hes & Hs). rewrite Es.
  set (T := units53 (weighted raw) + 6710886 * 2 ^ 15 * Zpos m) in *.
  assert (HT : T < 11632640 * 2 ^ 39) by (unfold T; lia).
  destruct (f32_of_sum ms es Hds Hes ltac:(lia))
    as (m1 & e1 & E1 & [(He1 & Hm1)|(Hsmall & H62)]); rewrite E1.
  - subst e1. rewrite Hs in Hm1. unfold constrain.
    change (F.f32_of_Z 600) with (S754_finite false 9830400 (-14)).
    change (F.f32_of_Z 710) with (S754_finite false 11632640 (-14)).
    unfold F.gt. rewrite !lt_same_exponent.
    destruct (Z.ltb_spec (Zpos m1) 9830400) as [H1|H1].
    + exists 9830400%positive. split; [reflexivity|]. lia.
    + destruct (Z.ltb_spec 11632640 (Zpos m1)) as [H2|H2].
      * exists 11632640%positive. split; [reflexivity|]. lia.
      * exists m1. split; [reflexivity|]. lia.
  - rewrite Hs in H62.
    assert (Hl : F.lt (S754_finite false m1 e1) (F.f32_of_Z 600) = true).
    { change (F.f32_of_Z 600) with (S754_finite false 9830400 (-14)).
      destruct Hsmall as [H|[-> H]].
      - now apply lt_lower_exponent.
      - rewrite lt_same_exponent. apply Z.ltb_lt. rewrite H. reflexivity. }
    unfold constrain. rewrite Hl.
    change (F.f32_of_Z 600) with (S754_finite false 9830400 (-14)).
    exists 9830400%positive. split; [reflexivity|]. lia.
Qed.

Lemma sf_eqb_eq x y : sf_eqb x y = true -> x = y.
Proof.
  destruct x as [s|s| |s m e], y as [s'|s'| |s' m' e']; cbn; try discriminate;
    intros H; try reflexivity.
  - apply eqb_prop in H. now subst.
  - apply eqb_prop in H. now subst.
  - apply andb_true_iff in H. destruct H as [H He].
    apply andb_true_iff in H. destruct H as [Hs Hm].
    apply eqb_prop in Hs. apply Pos.eqb_eq in Hm. apply Z.eqb_eq in He. now subst.
Qed.

Lemma units14_inv x :
  0 < units14 x -> x = S754_finite false (Z.to_pos (units14 x)) (-14).
Proof.
  destruct x as [s|s| |[|] m e]; cbn; try lia.
  destruct (Z.eqb_spec e (-14)) as [->|]; [|lia]. intros _.
  now rewrite Pos2Z.id.
Qed.

(** The [float] of an integer from 512 to 1023 has it for mantissa, in
    units of [2^-14]. *)
Lemma f32_units t :
  512 <= t <= 1023 ->
  F.f32_of_Z t = S754_finite false (Z.to_pos (t * 16384)) (-14).
Proof.
  intros Ht.
  assert (Hall :
    forallb (fun n => sf_eqb (F.f32_of_Z (Z.of_nat n))
                        (S754_finite false (Z.to_pos (Z.of_nat n * 16384)) (-14)))
      (seq 512 512) = true) by (vm_compute; reflexivity).
  pose proof (proj1 (forallb_forall _ _) Hall (Z.to_nat t)) as H.
  cbv beta in H. rewrite Z2Nat.id in H by lia.
  apply sf_eqb_eq, H. apply in_seq. lia.
Qed.

(** The cells that the constructor leaves for a first reading above 630:
    the reading, at most 710, and a threshold 30 below it. *)
Lemma default_port_units seed :
  630 < seed < 65536 ->
  default_port seed =
  mkPort (S754_finite false (Z.to_pos (Z.min seed 710 * 16384)) (-14)) 600 710 false 0
    (S754_finite false (Z.to_pos ((Z.min seed 710 - 30) * 16384)) (-14)) 30 20 15 15.
Proof.
  intros Hs.
  assert (Hall :
    forallb (fun n =>
      sf_eqb (F.sub32 (S754_finite false (Z.to_pos (Z.of_nat n * 16384)) (-14))
                (F.f32_of_Z 30))
        (S754_finite false (Z.to_pos ((Z.of_nat n - 30) * 16384)) (-14)))
      (seq 631 80) = true) by (vm_compute; reflexivity).
  assert (Hv : constrain (F.f32_of_Z seed) 600 710
               = S754_finite false (Z.to_pos (Z.min seed 710 * 16384)) (-14)).
  { unfold constrain.
    rewrite (le_not_lt (F.f32_of_Z 600) (F.f32_of_Z seed))
      by (apply f32_of_Z_mono; lia).
    change (F.gt (F.f32_of_Z seed) (F.f32_of_Z 710))
      with (F.lt (F.f32_of_Z 710) (F.f32_of_Z seed)).
    destruct (Z.le_gt_cases seed 710) as [H|H].
    - rewrite (le_not_lt (F.f32_of_Z seed) (F.f32_of_Z 710))
        by (apply f32_of_Z_mono; lia).
      replace (Z.min seed 710) with seed by lia. apply f32_units. lia.
    - rewrite f32_of_Z_lt by lia.
      replace (Z.min seed 710) with 710 by lia. reflexivity. }
  unfold default_port. rewrite Hv. cbv zeta. f_equal.
  pose proof (proj1 (forallb_forall _ _) Hall (Z.to_nat (Z.min seed 710))) as H.
  cbv beta in H. rewrite Z2Nat.id in H by lia.
  apply sf_eqb_eq, H. apply in_seq. lia.
Qed.

(** A reading below that threshold is at least 31 below the first. *)
Lemma below_threshold seed raw :
  630 < seed < 65536 -> 0 <= raw < 65536 ->
  F.lt (F.f32_of_Z raw) (p_threshold (default_port seed)) = true ->
  raw <= Z.min seed 710 - 31.
Proof.
  intros Hs Hr Hlt. rewrite default_port_units in Hlt by exact Hs.
  cbn [p_threshold] in Hlt.
  rewrite <- f32_units in Hlt by lia.
  destruct (Z.le_gt_cases raw (Z.min seed 710 - 31)) as [H|H]; [exact H|].
  rewrite le_not_lt in Hlt; [discriminate|]. apply f32_of_Z_mono; lia.
Qed.

(** The threshold a touch sets: 20 above the value. *)
Lemma add32_release_margin g :
  9830400 <= Zpos g <= 11632640 ->
  F.add32 (S754_finite false g (-14)) (F.f32_of_Z 20)
  = S754_finite false (Z.to_pos (Zpos g + 327680)) (-14).
Proof.
  intros Hg.
  change (F.f32_of_Z 20) with (S754_finite false 10485760 (-19)).
  unfold F.add32, SFadd. cbn [cond_Zopp]. change (Z.min (-14) (-19)) with (-19).
  set (a' := fst (shl_align g (-14) (-19))).
  change (fst (shl_align 10485760 (-19) (-19))) with 10485760%positive.
  change (Zpos a' + Zpos 10485760) with (Zpos (a' + 10485760)).
  cbn [binary_normalize].
  assert (Hs : Zpos (a' + 10485760) = (Zpos g + 327680) * 32).
  { rewrite Pos2Z.inj_add. unfold a'. rewrite shl_align_fst by lia.
    change (2 ^ (-14 - -19)) with 32. lia. }
  generalize dependent (a' + 10485760)%positive. clear a'. intros s Hs.
  assert (Hd : Zpos (digits2_pos s) = 29) by (apply digits_of_range; lia).
  destruct (binary_round_exact 24 128 s (-19) 19) as (mz & Hr & _ & Hv);
    rewrite ?Hd; unfold emin; try lia.
  - intros _. rewrite Hs. change (2 ^ (29 - 24)) with 32. apply Z.mod_mul. lia.
  - rewrite Hd in Hr, Hv. rewrite Hr. f_equal.
    change (2 ^ (19 + (29 + -19 - 24))) with 32 in Hv.
    change (2 ^ (19 + -19)) with 1 in Hv. lia.
Qed.

(** ** A constant reading below the first threshold *)

Section Stream.

(** A constant reading [raw], at least 31 below the first reading [s]
    (between 631 and 710) of a channel. *)
Variables raw s : Z.
Hypothesis Hok : weighted_ok raw = true.
Hypothesis Hs : 631 <= s <= 710.
Hypothesis Hraw : 0 <= raw <= s - 31.

Lemma step_units p :
  in_band p ->
  exists g,
    p_next_value raw p = S754_finite false g (-14) /\
    9830400 <= Zpos g <= 11632640 /\
    Zpos g <= Z.max (units14 (p_value p)) (raw * 16384 + 2) /\
    (raw * 16384 - 3 <= units14 (p_value p) -> raw * 16384 - 3 <= Zpos g) /\
    (Zpos g = 9830400 \/
     (Zpos g - 1) * 2 ^ 39
     < units53 (weighted raw) + 6710886 * 2 ^ 15 * units14 (p_value p)).
Proof.
  intros (Hmin & Hmax & _ & _ & _ & _ & Hv).
  pose proof (units14_inv (p_value p) ltac:(lia)) as Ev.
  destruct (weighted_units raw Hok) as (_ & Hlo & Hhi).
  destruct (next_value_units raw (Z.to_pos (units14 (p_value p))) Hok ltac:(lia))
    as (g & Eg & Hg & H2 & H3); [rewrite Z2Pos.id; lia|].
  rewrite Z2Pos.id in H2, H3 by lia.
  exists g. unfold p_next_value. rewrite Hmin, Hmax, Ev at 1.
  split; [exact Eg|]. split; [exact Hg|].
  repeat split; lia.
Qed.

(** One cycle of a released channel. *)
Lemma released_step c p :
  released_at ((s - 30) * 16384) c p -> 0 <= c <= 15 ->
  raw * 16384 - 3 <= units14 (p_value p) ->
  exists g,
    9830400 <= Zpos g <= 11632640 /\
    Zpos g <= Z.max (units14 (p_value p)) (raw * 16384 + 2) /\
    raw * 16384 - 3 <= Zpos g /\
    (Zpos g = 9830400 \/
     (Zpos g - 1) * 2 ^ 39
     < units53 (weighted raw) + 6710886 * 2 ^ 15 * units14 (p_value p)) /\
    units14 (p_value (port_step raw p)) = Zpos g /\
    if Zpos g <? (s - 30) * 16384 then
      if c <? 15 then released_at ((s - 30) * 16384) (c + 1) (port_step raw p)
      else touched_at (Zpos g + 327680) (port_step raw p)
    else released_at ((s - 30) * 16384) 0 (port_step raw p).
Proof.
  intros (Hb & Ht & Hc & Hthr) Hc15 Hlow.
  destruct (step_units p Hb) as (g & Eg & Hg & Hmax & Hmin & Hchain).
  exists g. split; [exact Hg|]. split; [exact Hmax|]. split; [auto|].
  split; [exact Hchain|].
  rewrite port_step_value, Eg. split; [reflexivity|].
  destruct Hb as (B1 & B2 & B3 & B4 & B5 & B6 & B7).
  assert (Hcond : p_conditionMet raw p = (Zpos g <? (s - 30) * 16384)).
  { unfold p_conditionMet. rewrite Ht, Eg, Hthr, lt_same_exponent.
    rewrite Z2Pos.id by lia. reflexivity. }
  assert (Hcnt : p_next_counter raw p
                 = if Zpos g <? (s - 30) * 16384 then c + 1 else 0).
  { unfold p_next_counter. rewrite Hcond, Hc.
    destruct (Zpos g <? (s - 30) * 16384); [|reflexivity].
    apply Z.mod_small. lia. }
  assert (Hfl : p_flips raw p
                = if Zpos g <? (s - 30) * 16384 then negb (c <? 15) else false).
  { unfold p_flips, p_confirm. rewrite Hcnt, Ht, B5.
    destruct (Zpos g <? (s - 30) * 16384).
    - destruct (Z.ltb_spec c 15); [apply gtb_false|apply gtb_true]; lia.
    - reflexivity. }
  unfold port_step. rewrite Hfl, Hcnt, Ht, Eg, B1, B2, B3, B4, B5, B6.
  destruct (Zpos g <? (s - 30) * 16384).
  - destruct (c <? 15); cbn [negb].
    + unfold released_at, in_band. cbn. repeat split; try lia. exact Hthr.
    + unfold touched_at, in_band. cbn. repeat split; try lia.
      apply add32_release_margin. exact Hg.
  - unfold released_at, in_band. cbn. repeat split; try lia. exact Hthr.
Qed.

(** One cycle of a touched channel whose threshold is out of reach of
    the readings. *)
Lemma touched_step t p :
  touched_at t p -> units14 (p_value p) <= t -> raw * 16384 + 2 <= t ->
  touched_at t (port_step raw p) /\ units14 (p_value (port_step raw p)) <= t.
Proof.
  intros (Hb & Ht & Hc & Hthr) Hv Hr.
  destruct (step_units p Hb) as (g & Eg & Hg & Hmax & _ & _).
  destruct Hb as (B1 & B2 & B3 & B4 & B5 & B6 & B7).
  assert (Hcond : p_conditionMet raw p = false).
  { unfold p_conditionMet, F.gt. rewrite Ht, Eg, Hthr.
    change (SFltb (S754_finite false (Z.to_pos t) (-14)) (S754_finite false g (-14)))
      with (F.lt (S754_finite false (Z.to_pos t) (-14)) (S754_finite false g (-14))).
    rewrite lt_same_exponent, Z2Pos.id by lia. apply Z.ltb_ge. lia. }
  assert (Hcnt : p_next_counter raw p = 0).
  { unfold p_next_counter. now rewrite Hcond. }
  assert (Hfl : p_flips raw p = false).
  { unfold p_flips, p_confirm. rewrite Hcnt, Ht, B6. reflexivity. }
  rewrite (port_step_stay raw p Hfl), Hcnt, Ht, Eg, B1, B2, B3, B4, B5, B6.
  unfold touched_at, in_band. cbn. repeat split; try lia. exact Hthr.
Qed.

Lemma touched_run t n : forall p,
  touched_at t p -> units14 (p_value p) <= t -> raw * 16384 + 2 <= t ->
  p_touched (port_run (repeat raw n) p) = true.
Proof.
  induction n as [|n IH]; intros p Hp Hv Hr.
  - destruct Hp as (_ & Ht & _). exact Ht.
  - cbn [repeat]. rewrite port_run_cons.
    destruct (touched_step t p Hp Hv Hr) as [Hp' Hv']. now apply IH.
Qed.

(** Once the value is below the threshold it stays there, and the counter
    counts the cycles. *)
Lemma count_run n : forall c p,
  released_at ((s - 30) * 16384) c p -> 0 <= c -> c + Z.of_nat n <= 15 ->
  raw * 16384 - 3 <= units14 (p_value p) < (s - 30) * 16384 ->
  released_at ((s - 30) * 16384) (c + Z.of_nat n) (port_run (repeat raw n) p) /\
  raw * 16384 - 3 <= units14 (p_value (port_run (repeat raw n) p))
    < (s - 30) * 16384.
Proof.
  induction n as [|n IH]; intros c p Hp Hc Hn Hv.
  - cbn [repeat port_run fold_left]. rewrite Z.add_0_r. now split.
  - cbn [repeat]. rewrite port_run_cons.
    destruct (released_step c p Hp ltac:(lia) ltac:(lia))
      as (g & Hg & Hmax & Hmin & _ & Eu & Hnext).
    assert (Hlt : Zpos g < (s - 30) * 16384) by lia.
    apply Z.ltb_lt in Hlt. rewrite Hlt in Hnext.
    assert (Hc' : (c <? 15) = true) by (apply Z.ltb_lt; lia).
    rewrite Hc' in Hnext.
    replace (c + Z.of_nat (S n)) with (c + 1 + Z.of_nat n) by lia.
    apply Z.ltb_lt in Hlt.
    apply IH; try assumption; lia.
Qed.

(** The cycle that takes the counter past the confirm count touches the
    channel, for good. *)
Lemma flip_run n p :
  released_at ((s - 30) * 16384) 15 p ->
  raw * 16384 - 3 <= units14 (p_value p) < (s - 30) * 16384 ->
  p_touched (port_run (repeat raw (S n)) p) = true.
Proof.
  intros Hp Hv. cbn [repeat]. rewrite port_run_cons.
  destruct (released_step 15 p Hp ltac:(lia) ltac:(lia))
    as (g & Hg & Hmax & Hmin & _ & Eu & Hnext).
  assert (Hlt : Zpos g < (s - 30) * 16384) by lia.
  apply Z.ltb_lt in Hlt. rewrite Hlt in Hnext. cbn in Hnext.
  apply (touched_run (Zpos g + 327680)); [exact Hnext|lia|lia].
Qed.

(** The smoothed value is below the threshold after four cycles at the
    latest. *)
Lemma descent p0 :
  released_at ((s - 30) * 16384) 0 p0 -> units14 (p_value p0) = s * 16384 ->
  exists j, (1 <= j <= 4)%nat /\
    released_at ((s - 30) * 16384) 1 (port_run (repeat raw j) p0) /\
    raw * 16384 - 3 <= units14 (p_value (port_run (repeat raw j) p0))
      < (s - 30) * 16384.
Proof.
  intros Hp0 Hu0.
  destruct (weighted_units raw Hok) as (_ & Hlo & Hhi).
  destruct (released_step 0 p0 Hp0 ltac:(lia) ltac:(lia))
    as (g1 & Hg1 & Hmax1 & Hmin1 & Hch1 & Eu1 & Hn1).
  destruct (Z.ltb_spec (Zpos g1) ((s - 30) * 16384)) as [H1|H1].
  { exists 1%nat. split; [lia|]. cbn [repeat port_run fold_left Z.ltb] in *.
    rewrite Eu1. split; [exact Hn1|lia]. }
  set (p1 := port_step raw p0) in *.
  destruct (released_step 0 p1 Hn1 ltac:(lia) ltac:(lia))
    as (g2 & Hg2 & Hmax2 & Hmin2 & Hch2 & Eu2 & Hn2).
  destruct (Z.ltb_spec (Zpos g2) ((s - 30) * 16384)) as [H2|H2].
  { exists 2%nat. split; [lia|]. cbn [repeat port_run fold_left Z.ltb] in *.
    fold p1. rewrite Eu2. split; [exact Hn2|lia]. }
  set (p2 := port_step raw p1) in *.
  destruct (released_step 0 p2 Hn2 ltac:(lia) ltac:(lia))
    as (g3 & Hg3 & Hmax3 & Hmin3 & Hch3 & Eu3 & Hn3).
  destruct (Z.ltb_spec (Zpos g3) ((s - 30) * 16384)) as [H3|H3].
  { exists 3%nat. split; [lia|]. cbn [repeat port_run fold_left Z.ltb] in *.
    fold p1. fold p2. rewrite Eu3. split; [exact Hn3|lia]. }
  set (p3 := port_step raw p2) in *.
  destruct (released_step 0 p3 Hn3 ltac:(lia) ltac:(lia))
    as (g4 & Hg4 & Hmax4 & Hmin4 & Hch4 & Eu4 & Hn4).
  assert (H4 : Zpos g4 < (s - 30) * 16384).
  { rewrite Eu1 in *. rewrite Eu2 in *. rewrite Eu3 in *. rewrite Hu0 in *.
    clear - Hs Hraw Hhi Hch1 Hch2 Hch3 Hch4 H1 H2 H3 Hg4. lia. }
  apply Z.ltb_lt in H4. rewrite H4 in Hn4. apply Z.ltb_lt in H4.
  exists 4%nat. split; [lia|]. cbn [repeat port_run fold_left Z.ltb] in *.
  fold p1. fold p2. fold p3. rewrite Eu4. split; [exact Hn4|lia].
Qed.

(** The channel is touched from one cycle between the 16th and the 19th
    on, and at none before. *)
Lemma constant_stream p0 :
  released_at ((s - 30) * 16384) 0 p0 -> units14 (p_value p0) = s * 16384 ->
  exists k, (16 <= k <= 19)%nat /\
    forall n, p_touched (port_run (repeat raw n) p0) = (k <=? n)%nat.
Proof.
  intros Hp0 Hu0.
  destruct (descent p0 Hp0 Hu0) as (j & Hj & Hpj & Hvj).
  exists (j + 15)%nat. split; [lia|]. intros n.
  destruct (Nat.leb_spec (j + 15) n) as [Hn|Hn].
  - replace n with (j + (14 + S (n - j - 15)))%nat by lia.
    rewrite !repeat_app, !port_run_app.
    destruct (count_run 14 1 _ Hpj ltac:(lia) ltac:(lia) Hvj) as [Hp15 Hv15].
    apply flip_run; assumption.
  - destruct (Nat.le_gt_cases j n) as [Hjn|Hjn].
    + replace n with (j + (n - j))%nat by lia.
      rewrite repeat_app, port_run_app.
      destruct (count_run (n - j) 1 _ Hpj ltac:(lia) ltac:(lia) Hvj)
        as [(_ & Ht & _) _].
      exact Ht.
    + destruct Hp0 as ((_ & _ & _ & _ & B5 & _) & Ht & Hc & _).
      apply port_run_not_earlier; rewrite ?repeat_length; try assumption; lia.
Qed.

End Stream.

Lemma readings_constant i raw caps :
  Forall (fun cap : nat -> Z => cap i = raw) caps ->
  readings i caps = repeat raw (length caps).
Proof.
  induction 1 as [|cap caps Hc _ IH]; [reflexivity|].
  cbn [readings map length repeat]. rewrite Hc. f_equal. exact IH.
Qed.

Lemma default_port_released seed :
  630 < seed < 65536 ->
  released_at ((Z.min seed 710 - 30) * 16384) 0 (default_port seed) /\
  units14 (p_value (default_port seed)) = Z.min seed 710 * 16384.
Proof.
  intros Hs. rewrite default_port_units by exact Hs.
  unfold released_at, in_band. cbn.
  rewrite Z2Pos.id by lia. repeat split; lia.
Qed.

(** * The claims *)

(** ** C7 *)



(** ** C6 *)

(** C6: for a port that is out of range (12 or more) or whose bit is clear
    in the mask, [isTouched] answers false and each of the six setters
    returns the object as it was, whatever value is passed; all seven are
    total functions, none has an error result. *)
Theorem C6_invalid_port_ignored port m :
  (maxPort <= port)%nat \/ Z.testbit (activePort m) (Z.of_nat port) = false ->
  isTouched port m = false /\
  (forall margin, setTouchMargin port margin m = m) /\
  (forall margin, setReleaseMargin port margin m = m) /\
  (forall v, setSensorMinValue port v m = m) /\
  (forall v, setSensorMaxValue port v m = m) /\
  (forall count, setTouchJugeCount port count m = m) /\
  (forall count, setReleaseJugeCount port count m = m).
Proof.
  intros H.
  assert (Hv : valid port m = false).
  { destruct (valid port m) eqn:E; [|reflexivity].
    apply valid_spec in E. destruct E as [E1 E2]. destruct H; [lia|congruence]. }
  unfold isTouched, setTouchMargin, setReleaseMargin, setSensorMinValue,
    setSensorMaxValue, setTouchJugeCount, setReleaseJugeCount.
  rewrite Hv. repeat split.
Qed.

Lemma C6_invalid_port_ignored_witness :
  let m := run [steady 600] (MPR121Manager mem0 (steady 710) 90 3) in
  ((maxPort <= 5)%nat \/ Z.testbit (activePort m) (Z.of_nat 5) = false) /\
  isTouched 5 m = false /\
  (forall margin, setTouchMargin 5 margin m = m) /\
  (forall margin, setReleaseMargin 5 margin m = m) /\
  (forall v, setSensorMinValue 5 v m = m) /\
  (forall v, setSensorMaxValue 5 v m = m) /\
  (forall count, setTouchJugeCount 5 count m = m) /\
  (forall count, setReleaseJugeCount 5 count m = m).
Proof.
  intros m.
  assert (H : (maxPort <= 5)%nat \/ Z.testbit (activePort m) (Z.of_nat 5) = false)
    by (right; vm_compute; reflexivity).
  split; [exact H|]. exact (C6_invalid_port_ignored 5%nat m H).
Defined.

(** ** C5 *)

(** C5: on a valid port, [setTouchMargin] and [setReleaseMargin] store the
    margin and at once set the port's threshold from its current state and
    current smoothed value: smoothed value + release margin when touched,
    smoothed value - touch margin when released, with the margin just
    stored; the touch state and the smoothed value are as before. *)
Theorem C5_margin_setters_rethreshold port margin m :
  valid port m = true ->
  let m1 := setTouchMargin port margin m in
  let m2 := setReleaseMargin port margin m in
  touchMargin m1 port = margin /\
  threshold m1 port =
    (if isTouched port m
     then F.add32 (value m port) (F.f32_of_Z (releaseMargin m port))
     else F.sub32 (value m port) (F.f32_of_Z margin)) /\
  releaseMargin m2 port = margin /\
  threshold m2 port =
    (if isTouched port m
     then F.add32 (value m port) (F.f32_of_Z margin)
     else F.sub32 (value m port) (F.f32_of_Z (touchMargin m port))) /\
  releaseMargin m1 port = releaseMargin m port /\
  touchMargin m2 port = touchMargin m port /\
  value m1 = value m /\ value m2 = value m /\
  currentTouched m1 = currentTouched m /\ currentTouched m2 = currentTouched m.
Proof.
  intros Hv m1 m2. subst m1 m2.
  unfold setTouchMargin, setReleaseMargin, rethreshold, isTouched.
  rewrite Hv. cbn.
  destruct (bit (currentTouched m) port); cbn; rewrite !upd_same;
    repeat split; reflexivity.
Qed.

Lemma C5_margin_setters_rethreshold_witness :
  let m := run (repeat (steady 600) 16) (MPR121Manager mem0 (steady 710) 90 3) in
  valid 0 m = true /\
  touchMargin (setTouchMargin 0 40 m) 0 = 40 /\
  threshold (setTouchMargin 0 40 m) 0 =
    (if isTouched 0 m
     then F.add32 (value m 0) (F.f32_of_Z (releaseMargin m 0))
     else F.sub32 (value m 0) (F.f32_of_Z 40)) /\
  releaseMargin (setReleaseMargin 0 40 m) 0 = 40 /\
  threshold (setReleaseMargin 0 40 m) 0 =
    (if isTouched 0 m
     then F.add32 (value m 0) (F.f32_of_Z 40)
     else F.sub32 (value m 0) (F.f32_of_Z (touchMargin m 0))) /\
  releaseMargin (setTouchMargin 0 40 m) 0 = releaseMargin m 0 /\
  touchMargin (setReleaseMargin 0 40 m) 0 = touchMargin m 0 /\
  value (setTouchMargin 0 40 m) = value m /\
  value (setReleaseMargin 0 40 m) = value m /\
  currentTouched (setTouchMargin 0 40 m) = currentTouched m /\
  currentTouched (setReleaseMargin 0 40 m) = currentTouched m.
Proof.
  intros m.
  assert (Hv : valid 0 m = true) by (vm_compute; reflexivity).
  split; [exact Hv|].
  exact (C5_margin_setters_rethreshold 0%nat 40 m Hv).
Defined.

(** ** C2 *)



(** ** C8 *)

(** C8: for an index [j] that is not a selected channel, in every state
    [m] the object can be in: bit [j] of the touch word is 0; no operation
    ([update] or a setter, whatever its arguments) writes a cell of index
    [j], nor selects [j]; and no operation reads one: run from a state
    [m'] that differs from [m] in unselected cells only, it leaves every
    selected channel as it leaves it from [m]. *)
Theorem C8_unselected_channels_untouched m j :
  reachable m ->
  valid j m = false ->
  bit (currentTouched m) j = false /\
  (forall o,
     cells_of (exec o m) j = cells_of m j /\ valid j (exec o m) = false) /\
  (forall o m',
     activePort m' = activePort m ->
     (forall i, valid i m = true -> port_of m' i = port_of m i) ->
     forall i, valid i m = true ->
       port_of (exec o m') i = port_of (exec o m) i).
Proof.
  intros Hr Hj. split; [|split].
  - destruct (reachable_inv m Hr) as [_ Hb].
    destruct (bit (currentTouched m) j) eqn:E; [|reflexivity].
    rewrite (Hb j E) in Hj. discriminate.
  - intros o. split; [now apply exec_cells_inactive|now rewrite exec_valid].
  - intros o m' Ha Hagree i Hi.
    assert (Hi' : valid i m' = true) by (unfold valid in *; now rewrite Ha).
    now rewrite !exec_view, Hagree.
Qed.

Lemma C8_unselected_channels_untouched_witness :
  let m := MPR121Manager mem0 (steady 710) 90 3 in
  reachable m /\
  valid 5 m = false /\
  bit (currentTouched m) 5 = false /\
  (forall o,
     cells_of (exec o m) 5 = cells_of m 5 /\ valid 5 (exec o m) = false) /\
  (forall o m',
     activePort m' = activePort m ->
     (forall i, valid i m = true -> port_of m' i = port_of m i) ->
     forall i, valid i m = true ->
       port_of (exec o m') i = port_of (exec o m) i).
Proof.
  intros m.
  assert (Hr : reachable m)
    by (apply reach_new; intros j; unfold u16, steady; lia).
  assert (Hv : valid 5 m = false) by (vm_compute; reflexivity).
  split; [exact Hr|]. split; [exact Hv|].
  exact (C8_unselected_channels_untouched m 5%nat Hr Hv).
Defined.

(** ** C10 *)



(** ** C9 *)

(** C9: once [setTouchJugeCount] has set the touch confirm count of a
    valid port to 255, no sequence of [update] calls ever takes the port
    from released to touched: whenever it is released, after any number
    of cycles [caps], it is still released after any further cycles
    [caps'].  The counter is reduced modulo 256 when it is incremented,
    is never above 255, and [update] leaves the confirm count alone.  In
    the same way a release confirm count of 255 rules out every
    transition from touched to released.  The port may be in either
    state when the count is set. *)
Theorem C9_confirm_count_255_never_flips port m caps caps' :
  valid port m = true ->
  (isTouched port (run caps (setTouchJugeCount port 255 m)) = false ->
   isTouched port (run (caps ++ caps') (setTouchJugeCount port 255 m)) = false) /\
  (isTouched port (run caps (setReleaseJugeCount port 255 m)) = true ->
   isTouched port (run (caps ++ caps') (setReleaseJugeCount port 255 m)) = true).
Proof.
  intros Hv.
  pose proof (exec_valid (SetTouchJugeCount port 255) m port) as Hv1.
  pose proof (exec_valid (SetReleaseJugeCount port 255) m port) as Hv2.
  pose proof (exec_view (SetTouchJugeCount port 255) m port Hv) as E1.
  pose proof (exec_view (SetReleaseJugeCount port 255) m port Hv) as E2.
  cbn [exec port_exec op_port] in Hv1, Hv2, E1, E2.
  rewrite Nat.eqb_refl in E1, E2. rewrite Hv in Hv1, Hv2.
  split; intros Ht.
  - rewrite run_app.
    rewrite isTouched_view in * by now rewrite ?run_valid.
    rewrite run_view by now rewrite run_valid.
    destruct (port_run_stuck (readings port caps')
                (port_of (run caps (setTouchJugeCount port 255 m)) port))
      as [-> _]; [|exact Ht].
    unfold p_confirm. rewrite Ht, run_view by exact Hv1.
    destruct (port_run_confirm_counts (readings port caps)
                (port_of (setTouchJugeCount port 255 m) port)) as [-> _].
    rewrite E1. reflexivity.
  - rewrite run_app.
    rewrite isTouched_view in * by now rewrite ?run_valid.
    rewrite run_view by now rewrite run_valid.
    destruct (port_run_stuck (readings port caps')
                (port_of (run caps (setReleaseJugeCount port 255 m)) port))
      as [-> _]; [|exact Ht].
    unfold p_confirm. rewrite Ht, run_view by exact Hv2.
    destruct (port_run_confirm_counts (readings port caps)
                (port_of (setReleaseJugeCount port 255 m) port)) as [_ ->].
    rewrite E2. reflexivity.
Qed.

(** A channel that is touched when the release count is set to 255, and
    one that is touched when the touch count is set to 255 and released
    by the cycles that follow: neither flips afterwards, however the
    readings go. *)
Lemma C9_confirm_count_255_never_flips_witness :
  let m := MPR121Manager mem0 (steady 710) 90 3 in
  let mt := run (repeat (steady 600) 16) m in
  let caps := repeat (steady 710) 16 in
  let caps' := repeat (steady 600) 300 in
  valid 0 mt = true /\
  isTouched 0 (setTouchJugeCount 0 255 mt) = true /\
  isTouched 0 (run caps (setTouchJugeCount 0 255 mt)) = false /\
  isTouched 0 (run (caps ++ caps') (setTouchJugeCount 0 255 mt)) = false /\
  isTouched 0 (run (caps ++ caps') mt) = true /\
  isTouched 0 (run [] (setReleaseJugeCount 0 255 mt)) = true /\
  isTouched 0 (run ([] ++ caps) (setReleaseJugeCount 0 255 mt)) = true /\
  isTouched 0 (run ([] ++ caps) mt) = false.
Proof.
  intros m mt caps caps'.
  assert (Hv : valid 0 mt = true) by (vm_compute; reflexivity).
  assert (Ht : isTouched 0 (run caps (setTouchJugeCount 0 255 mt)) = false)
    by (vm_compute; reflexivity).
  assert (Hr : isTouched 0 (run [] (setReleaseJugeCount 0 255 mt)) = true)
    by (vm_compute; reflexivity).
  split; [exact Hv|]. split; [vm_compute; reflexivity|]. split; [exact Ht|].
  split; [exact (proj1 (C9_confirm_count_255_never_flips 0%nat mt caps caps' Hv) Ht)|].
  split; [vm_compute; reflexivity|]. split; [exact Hr|].
  split; [exact (proj2 (C9_confirm_count_255_never_flips 0%nat mt [] caps Hv) Hr)|].
  vm_compute; reflexivity.
Defined.

(** ** C3 *)

(** C3: in a cycle of [update] on a valid port, [conditionMet] is "new
    smoothed value > threshold" when touched and "new smoothed value <
    threshold" when released; the counter becomes its successor (modulo
    256) when [conditionMet] holds and 0 otherwise; the state flips exactly
    when that counter is strictly above [releaseJuge] (touched) or
    [touchJuge] (released), and then the counter is reset to 0 and the
    threshold becomes the smoothed value minus the touch margin (now
    released) or plus the release margin (now touched); without a flip
    counter and threshold are as computed and as before.  Hence over a
    sequence of cycles in which [conditionMet] never holds for more than
    the confirm count of cycles in a row, the state never flips. *)
Theorem C3_flip_rule m cap i caps :
  valid i m = true ->
  0 <= counter m i ->
  let v := value (update cap m) i in
  let touched := isTouched i m in
  let met := if touched then F.gt v (threshold m i) else F.lt v (threshold m i) in
  let c := if met then (counter m i + 1) mod 256 else 0 in
  let confirm := if touched then releaseJuge m i else touchJuge m i in
  conditionMet cap i m = met /\
  isTouched i (update cap m) = xorb touched (c >? confirm) /\
  counter (update cap m) i = (if c >? confirm then 0 else c) /\
  threshold (update cap m) i =
    (if c >? confirm
     then if touched then F.sub32 v (F.f32_of_Z (touchMargin m i))
          else F.add32 v (F.f32_of_Z (releaseMargin m i))
     else threshold m i) /\
  (Forall (fun s => s <= confirm) (condition_runs i caps m (counter m i)) ->
   isTouched i (run caps m) = isTouched i m).
Proof.
  intros Hv Hc v touched met c confirm.
  pose proof (update_view cap m i Hv) as Hview.
  assert (Hval : v = p_next_value (cap i) (port_of m i))
    by (unfold v; now rewrite update_value).
  assert (Ht : touched = p_touched (port_of m i))
    by (unfold touched; now rewrite isTouched_view).
  assert (Hmet : met = p_conditionMet (cap i) (port_of m i))
    by (unfold met, p_conditionMet; now rewrite Ht, Hval).
  assert (Hcnt : c = p_next_counter (cap i) (port_of m i))
    by (unfold c, p_next_counter; now rewrite Hmet).
  assert (Hconf : confirm = p_confirm (port_of m i))
    by (unfold confirm, p_confirm; now rewrite Ht).
  assert (Hflip : (c >? confirm) = p_flips (cap i) (port_of m i))
    by (unfold p_flips; now rewrite Hcnt, Hconf).
  assert (Hrun : Forall (fun s => s <= confirm)
                   (condition_runs i caps m (counter m i)) ->
                 isTouched i (run caps m) = touched).
  { intros Hs. rewrite isTouched_view by now rewrite run_valid.
    rewrite run_view, Ht by exact Hv.
    apply (port_run_no_flip _ _ (counter m i)); [cbn; lia|].
    now rewrite <- condition_runs_view, <- Hconf by exact Hv. }
  fold touched. rewrite Hflip.
  change (counter (update cap m) i) with (p_counter (port_of (update cap m) i)).
  change (threshold (update cap m) i) with (p_threshold (port_of (update cap m) i)).
  rewrite (isTouched_view i (update cap m)) by now rewrite update_valid.
  rewrite Hview, port_step_touched, <- Ht, Hcnt, Hval.
  clearbody v touched met c confirm.
  split; [now rewrite conditionMet_view|].
  split; [reflexivity|].
  unfold port_step. rewrite <- Ht.
  destruct (p_flips (cap i) (port_of m i)); cbn; repeat split; assumption.
Qed.

Lemma C3_flip_rule_witness :
  let m := MPR121Manager mem0 (steady 710) 90 3 in
  let caps :=
    repeat (steady 600) 14 ++ [steady 710; steady 710] ++ repeat (steady 600) 15 in
  valid 0 m = true /\ 0 <= counter m 0 /\
  Forall (fun s => s <= touchJuge m 0) (condition_runs 0 caps m (counter m 0)) /\
  isTouched 0 (run caps m) = isTouched 0 m /\
  conditionMet (steady 600) 0 m = true /\
  counter (update (steady 600) m) 0 = 1.
Proof.
  intros m caps.
  assert (Hv : valid 0 m = true) by (vm_compute; reflexivity).
  assert (Hc : 0 <= counter m 0) by (vm_compute; discriminate).
  assert (Hs : Forall (fun s => s <= touchJuge m 0)
                 (condition_runs 0 caps m (counter m 0)))
    by (apply Forall_le_of_forallb; vm_compute; reflexivity).
  pose proof (C3_flip_rule m (steady 600) 0%nat caps Hv Hc) as (H1 & _ & H3 & _ & H5).
  split; [exact Hv|]. split; [exact Hc|]. split; [exact Hs|].
  split; [exact (H5 Hs)|].
  split; [vm_compute; reflexivity|vm_compute; reflexivity].
Defined.

(** ** C4 *)

(** C4 fails for a constant reading below the initial threshold: with a
    first reading of 600 the threshold is 570 and readings of 500 leave the
    channel released after 16 and after 200 cycles (the smoothed value is
    clamped to 600); with a first reading of 710 the threshold is 680 and
    readings of 679 leave it released after 16 and 18 cycles, the
    transition coming at the 19th. *)
Lemma C4_counterexample :
  let m := MPR121Manager mem0 (steady 600) 90 3 in
  let m' := MPR121Manager mem0 (steady 710) 90 3 in
  (F.lt (F.f32_of_Z 500) (F.sub32 (value m 0) (F.f32_of_Z (touchMargin m 0))) = true /\
   isTouched 0 m = false /\
   isTouched 0 (run (repeat (steady 500) 16) m) = false /\
   isTouched 0 (run (repeat (steady 500) 200) m) = false) /\
  (F.lt (F.f32_of_Z 679) (F.sub32 (value m' 0) (F.f32_of_Z (touchMargin m' 0))) = true /\
   isTouched 0 m' = false /\
   isTouched 0 (run (repeat (steady 679) 16) m') = false /\
   isTouched 0 (run (repeat (steady 679) 18) m') = false /\
   isTouched 0 (run (repeat (steady 679) 19) m') = true).
Proof. vm_compute. repeat split. Qed.

(** C4, as the code has it.  Take a channel that the constructor has
    initialised from a first reading above 630 (from 630 down it is never
    touched, as the first counterexample shows).  Whatever is read, it is
    released after each of the first 15 [update] cycles.  If the readings are one constant, strictly
    below the initial smoothed value minus the touch margin, the channel
    goes from released to touched exactly once: there is a cycle [k], the
    16th at the earliest and the 19th at the latest, such that the
    channel is released after every shorter stream and touched after
    every stream of [k] cycles or more.  The smoothed value, not the
    reading, is compared with the threshold, and it can take up to four
    cycles to come below it. *)
Theorem C4_constant_stream_touches_once mem cap0 setAddress usedPortMask i raw :
  let m := MPR121Manager mem cap0 setAddress usedPortMask in
  valid i m = true ->
  u16 (cap0 i) -> 630 < cap0 i ->
  u16 raw ->
  F.lt (F.f32_of_Z raw) (F.sub32 (value m i) (F.f32_of_Z (touchMargin m i))) = true ->
  (forall caps, (length caps <= 15)%nat -> isTouched i (run caps m) = false) /\
  exists k, (16 <= k <= 19)%nat /\
    forall caps, Forall (fun cap : nat -> Z => cap i = raw) caps ->
      isTouched i (run caps m) = (k <=? length caps)%nat.
Proof.
  intros m Hv Hu Hseed Hr Hlt.
  pose proof (new_port mem cap0 setAddress usedPortMask i Hv) as Hp.
  change (MPR121Manager mem cap0 setAddress usedPortMask) with m in Hp.
  assert (Hthr : F.sub32 (value m i) (F.f32_of_Z (touchMargin m i))
                 = p_threshold (default_port (cap0 i))).
  { change (value m i) with (p_value (port_of m i)).
    change (touchMargin m i) with (p_touchMargin (port_of m i)).
    rewrite Hp. reflexivity. }
  clearbody m. rewrite Hthr in Hlt. split.
  - intros caps Hl. rewrite isTouched_view, run_view, Hp by now rewrite ?run_valid.
    apply port_run_not_earlier; cbn; rewrite ?readings_length;
      first [reflexivity|lia].
  - assert (Hs : 630 < cap0 i < 65536) by (unfold u16 in Hu; lia).
    pose proof (below_threshold (cap0 i) raw Hs Hr Hlt) as Hraw.
    destruct (default_port_released (cap0 i) Hs) as [Hrel Hunits].
    destruct (constant_stream raw (Z.min (cap0 i) 710)
                (weighted_checked raw ltac:(unfold u16 in Hr; lia))
                ltac:(lia) ltac:(unfold u16 in Hr; lia)
                (default_port (cap0 i)) Hrel Hunits) as (k & Hk & Hall).
    exists k. split; [exact Hk|]. intros caps Hc.
    rewrite isTouched_view, run_view, Hp by now rewrite ?run_valid.
    rewrite (readings_constant i raw caps Hc). apply Hall.
Qed.

Lemma C4_constant_stream_touches_once_witness :
  let m := MPR121Manager mem0 (steady 710) 90 3 in
  valid 0 m = true /\
  u16 (steady 710 0%nat) /\ 630 < steady 710 0%nat /\ u16 679 /\
  F.lt (F.f32_of_Z 679) (F.sub32 (value m 0) (F.f32_of_Z (touchMargin m 0))) = true /\
  (forall caps, (length caps <= 15)%nat -> isTouched 0 (run caps m) = false) /\
  exists k, (16 <= k <= 19)%nat /\
    forall caps, Forall (fun cap : nat -> Z => cap 0%nat = 679) caps ->
      isTouched 0 (run caps m) = (k <=? length caps)%nat.
Proof.
  intros m.
  assert (Hv : valid 0 m = true) by (vm_compute; reflexivity).
  assert (Hu : u16 (steady 710 0%nat)) by (unfold u16, steady; lia).
  assert (Hs : 630 < steady 710 0%nat) by (unfold steady; lia).
  assert (Hr : u16 679) by (unfold u16; lia).
  assert (Hlt : F.lt (F.f32_of_Z 679)
                  (F.sub32 (value m 0) (F.f32_of_Z (touchMargin m 0))) = true)
    by (vm_compute; reflexivity).
  split; [exact Hv|]. split; [exact Hu|]. split; [exact Hs|].
  split; [exact Hr|]. split; [exact Hlt|].
  exact (C4_constant_stream_touches_once mem0 (steady 710) 90 3 0%nat 679
           Hv Hu Hs Hr Hlt).
Defined.

(** ** C1 *)

(** C1 fails as stated: with channels 0 and 1 selected and 600 read by the
    constructor and by every [update], [isTouched(0)] is false after 16
    cycles, and after 100. *)
Lemma C1_counterexample :
  let m := MPR121Manager mem0 (steady 600) 90 3 in
  valid 0 m = true /\ valid 1 m = true /\
  isTouched 0 (run (repeat (steady 600) 16) m) = false /\
  isTouched 0 (run (repeat (steady 600) 100) m) = false.
Proof. vm_compute. repeat split. Qed.

(** C1, as the code has it: with the mask selecting channels 0 and 1 and the default
    parameters, when the reading taken by the constructor is 600 the
    threshold is 570, the smoothed value is never below 600 and
    [isTouched(0)] is false after any number of cycles reading 600.  When
    the reading taken by the constructor is 710 instead, [isTouched(0)] is
    false after 15 cycles reading 600 and true after the 16th; it is still
    true after 15 further cycles reading 710 and false again after the
    16th.  [isTouched(5)] is false in every state of either run. *)
Theorem C1_scenario mem :
  let built seed := MPR121Manager mem (steady seed) 90 3 in
  (forall n, isTouched 0 (run (repeat (steady 600) n) (built 600)) = false) /\
  isTouched 0 (run (repeat (steady 600) 15) (built 710)) = false /\
  isTouched 0 (run (repeat (steady 600) 16) (built 710)) = true /\
  isTouched 0
    (run (repeat (steady 710) 15) (run (repeat (steady 600) 16) (built 710))) = true /\
  isTouched 0
    (run (repeat (steady 710) 16) (run (repeat (steady 600) 16) (built 710))) = false /\
  (forall seed caps, isTouched 5 (run caps (built seed)) = false).
Proof.
  intros built.
  split; [|split; [|split; [|split; [|split]]]].
  - intros n.
    assert (Hv : valid 0 (built 600) = true) by (vm_compute; reflexivity).
    pose proof (new_port mem (steady 600) 90 3 0%nat Hv) as Hp.
    change (MPR121Manager mem (steady 600) 90 3) with (built 600) in Hp.
    rewrite isTouched_view, run_view, Hp by now rewrite ?run_valid.
    apply port_run_never_touch; try reflexivity; [cbn; lia|].
    intros x. apply constrain_not_below; vm_compute; reflexivity.
  - vm_compute. reflexivity.
  - vm_compute. reflexivity.
  - vm_compute. reflexivity.
  - vm_compute. reflexivity.
  - intros seed caps. unfold isTouched.
    rewrite run_valid, valid_bit.
    unfold built. rewrite new_activePort. reflexivity.
Qed.

(* ================================================================== *)
(** * Further properties of the code *)

(** ** Channels are debounced independently *)

(** X1: what a sequence of [update] calls makes of a selected channel is
    determined by that channel's own cells and touch bit and by the
    readings taken for it: the mask, the other channels and their readings
    have no part in it. *)
Theorem X1_channels_independent caps caps' m m' i :
  valid i m = true -> valid i m' = true ->
  port_of m i = port_of m' i ->
  readings i caps = readings i caps' ->
  port_of (run caps m) i = port_of (run caps' m') i /\
  isTouched i (run caps m) = isTouched i (run caps' m').
Proof.
  intros Hv Hv' Hp Hr.
  assert (E : port_of (run caps m) i = port_of (run caps' m') i)
    by now rewrite !run_view, Hp, Hr.
  split; [exact E|].
  rewrite !isTouched_view by now rewrite run_valid. now rewrite E.
Qed.

Lemma X1_channels_independent_witness :
  let m := MPR121Manager mem0 (steady 710) 90 3 in
  let m' := MPR121Manager mem0 (fun j => if Nat.eqb j 0 then 710 else 650) 91 4095 in
  let caps := repeat (steady 600) 16 in
  let caps' := repeat (fun j => if Nat.eqb j 0 then 600 else 700) 16 in
  valid 0 m = true /\ valid 0 m' = true /\
  port_of m 0 = port_of m' 0 /\
  readings 0 caps = readings 0 caps' /\
  port_of (run caps m) 0 = port_of (run caps' m') 0 /\
  isTouched 0 (run caps m) = isTouched 0 (run caps' m').
Proof.
  intros m m' caps caps'.
  assert (Hv : valid 0 m = true) by (vm_compute; reflexivity).
  assert (Hv' : valid 0 m' = true) by (vm_compute; reflexivity).
  assert (Hp : port_of m 0 = port_of m' 0) by (vm_compute; reflexivity).
  assert (Hr : readings 0 caps = readings 0 caps') by (vm_compute; reflexivity).
  split; [exact Hv|]. split; [exact Hv'|]. split; [exact Hp|]. split; [exact Hr|].
  exact (X1_channels_independent caps caps' m m' 0%nat Hv Hv' Hp Hr).
Defined.

(** ** How long a state lasts *)

Lemma p_conditionMet_crosses raw p :
  p_conditionMet raw p = crosses (p_touched p) (p_threshold p) (p_next_value raw p).
Proof. reflexivity. Qed.

(** While the counter cannot have passed the confirm count, nothing
    flips. *)
Lemma port_run_dwell raws : forall p,
  0 <= p_counter p ->
  p_counter p + Z.of_nat (length raws) <= p_confirm p ->
  p_touched (port_run raws p) = p_touched p.
Proof.
  induction raws as [|raw raws IH]; intros p Hc Hl; [reflexivity|].
  rewrite port_run_cons. cbn [length] in Hl.
  pose proof (next_counter_le raw p (p_counter p) ltac:(lia)) as Hn.
  assert (Hs : 0 <= p_next_counter raw p <= p_counter p + 1)
    by (destruct (p_conditionMet raw p); lia).
  assert (Hf : p_flips raw p = false)
    by (unfold p_flips; apply gtb_false; lia).
  rewrite IH; rewrite (port_step_stay raw p Hf); try reflexivity.
  - cbn. lia.
  - unfold p_confirm in *. cbn. lia.
Qed.

(** The flip comes with the cycle that takes the counter past the confirm
    count. *)
Lemma port_run_flip raws : forall p,
  0 <= p_counter p <= p_confirm p -> p_confirm p < 255 ->
  p_counter p + Z.of_nat (length raws) = p_confirm p + 1 ->
  Forall (fun v => crosses (p_touched p) (p_threshold p) v = true)
    (p_smoothed raws p) ->
  p_touched (port_run raws p) = negb (p_touched p) /\
  p_counter (port_run raws p) = 0 /\
  p_threshold (port_run raws p) =
    (if p_touched p
     then F.sub32 (p_value (port_run raws p)) (F.f32_of_Z (p_touchMargin p))
     else F.add32 (p_value (port_run raws p)) (F.f32_of_Z (p_releaseMargin p))).
Proof.
  induction raws as [|raw raws IH]; intros p Hc Hj Hl Hs.
  - cbn in Hl. lia.
  - rewrite port_run_cons. cbn [length p_smoothed] in *.
    inversion Hs as [|x l Hx Hrest]; subst.
    assert (Hm : p_conditionMet raw p = true)
      by (rewrite p_conditionMet_crosses; exact Hx).
    assert (Hn : p_next_counter raw p = p_counter p + 1).
    { unfold p_next_counter. rewrite Hm. apply Z.mod_small. lia. }
    destruct raws as [|raw' raws].
    + assert (Hf : p_flips raw p = true).
      { unfold p_flips. rewrite Hn. apply gtb_true. cbn [length] in Hl. lia. }
      cbn [port_run fold_left]. unfold port_step. rewrite Hf.
      destruct (p_touched p); cbn; repeat split.
    + assert (Hf : p_flips raw p = false).
      { unfold p_flips. rewrite Hn. apply gtb_false. cbn [length] in Hl. lia. }
      rewrite (port_step_stay raw p Hf) in *.
      match goal with
      | |- context [port_run _ ?q] => specialize (IH q)
      end.
      unfold p_confirm in *.
      cbn [p_touched p_counter p_touchJuge p_releaseJuge p_threshold
             p_touchMargin p_releaseMargin length] in *.
      apply IH; try assumption; lia.
Qed.

Lemma confirm_view i m :
  valid i m = true ->
  (if isTouched i m then releaseJuge m i else touchJuge m i) = p_confirm (port_of m i).
Proof. intros Hv. rewrite isTouched_view by exact Hv. reflexivity. Qed.

(** X2: a selected channel keeps its state for as many cycles as its
    counter is short of the confirm count of that state; in particular,
    once an [update] has flipped it, it holds the new state through at
    least [releaseJuge] (now touched) or [touchJuge] (now released)
    further cycles, whatever is read. *)
Theorem X2_state_held_for_confirm_count m i cap caps :
  valid i m = true ->
  (0 <= counter m i ->
   counter m i + Z.of_nat (length caps) <=
     (if isTouched i m then releaseJuge m i else touchJuge m i) ->
   isTouched i (run caps m) = isTouched i m) /\
  (isTouched i (update cap m) = negb (isTouched i m) ->
   Z.of_nat (length caps) <=
     (if isTouched i (update cap m)
      then releaseJuge (update cap m) i else touchJuge (update cap m) i) ->
   isTouched i (run caps (update cap m)) = isTouched i (update cap m)).
Proof.
  intros Hv.
  assert (Hgen : forall m, valid i m = true -> 0 <= counter m i ->
            counter m i + Z.of_nat (length caps) <=
              (if isTouched i m then releaseJuge m i else touchJuge m i) ->
            isTouched i (run caps m) = isTouched i m).
  { clear. intros m Hv Hc Hl. rewrite confirm_view in Hl by exact Hv.
    rewrite !isTouched_view, run_view by now rewrite ?run_valid.
    apply port_run_dwell; [exact Hc|]. now rewrite readings_length. }
  split; [now apply Hgen|].
  intros Hflip Hl.
  assert (Hv' : valid i (update cap m) = true) by now rewrite update_valid.
  apply Hgen; [exact Hv'| |].
  - change (counter (update cap m) i) with (p_counter (port_of (update cap m) i)).
    rewrite update_view by exact Hv.
    rewrite !isTouched_view, update_view, port_step_touched in Hflip by assumption.
    unfold port_step.
    destruct (p_flips (cap i) (port_of m i)); [cbn; lia|].
    rewrite xorb_false_r in Hflip. now destruct (p_touched (port_of m i)).
  - change (counter (update cap m) i) with (p_counter (port_of (update cap m) i)).
    rewrite update_view by exact Hv.
    rewrite !isTouched_view, update_view, port_step_touched in Hflip by assumption.
    replace (p_counter (port_step (cap i) (port_of m i))) with 0; [lia|].
    unfold port_step.
    destruct (p_flips (cap i) (port_of m i)); [reflexivity|].
    rewrite xorb_false_r in Hflip. now destruct (p_touched (port_of m i)).
Qed.

Lemma X2_state_held_for_confirm_count_witness :
  let m := run (repeat (steady 600) 15) (MPR121Manager mem0 (steady 710) 90 3) in
  let caps := repeat (steady 710) 15 in
  valid 0 m = true /\
  isTouched 0 (update (steady 600) m) = negb (isTouched 0 m) /\
  Z.of_nat (length caps) <=
    (if isTouched 0 (update (steady 600) m)
     then releaseJuge (update (steady 600) m) 0
     else touchJuge (update (steady 600) m) 0) /\
  isTouched 0 (run caps (update (steady 600) m)) = isTouched 0 (update (steady 600) m).
Proof.
  intros m caps.
  assert (Hv : valid 0 m = true) by (vm_compute; reflexivity).
  assert (Hf : isTouched 0 (update (steady 600) m) = negb (isTouched 0 m))
    by (vm_compute; reflexivity).
  assert (Hl : Z.of_nat (length caps) <=
                 (if isTouched 0 (update (steady 600) m)
                  then releaseJuge (update (steady 600) m) 0
                  else touchJuge (update (steady 600) m) 0))
    by (vm_compute; discriminate).
  split; [exact Hv|]. split; [exact Hf|]. split; [exact Hl|].
  exact (proj2 (X2_state_held_for_confirm_count m 0%nat (steady 600) caps Hv) Hf Hl).
Defined.

(** X3: a selected channel whose counter is [c] and whose smoothed value
    is on the far side of the threshold (above it when touched, below it
    when released) after each of [confirm + 1 - c] consecutive cycles,
    [confirm] being the confirm count of its state (below 255), has flipped
    after the last of them: the counter is 0 and the threshold is the
    smoothed value minus the touch margin (now released) or plus the
    release margin (now touched). *)
Theorem X3_flip_after_confirm_count m i caps :
  let touched := isTouched i m in
  let confirm := if touched then releaseJuge m i else touchJuge m i in
  valid i m = true ->
  0 <= counter m i <= confirm -> confirm < 255 ->
  counter m i + Z.of_nat (length caps) = confirm + 1 ->
  Forall (fun v => crosses touched (threshold m i) v = true) (smoothed i caps m) ->
  isTouched i (run caps m) = negb touched /\
  counter (run caps m) i = 0 /\
  threshold (run caps m) i =
    (if touched
     then F.sub32 (value (run caps m) i) (F.f32_of_Z (touchMargin m i))
     else F.add32 (value (run caps m) i) (F.f32_of_Z (releaseMargin m i))).
Proof.
  intros touched confirm Hv Hc Hj Hl Hs. subst confirm touched.
  rewrite confirm_view in Hc, Hj, Hl by exact Hv.
  rewrite (isTouched_view i m Hv) in Hs |- *.
  rewrite smoothed_view in Hs by exact Hv.
  rewrite <- (readings_length i) in Hl.
  pose proof (port_run_flip (readings i caps) (port_of m i) Hc Hj Hl Hs)
    as (H1 & H2 & H3).
  rewrite <- run_view in H1, H2, H3 by exact Hv.
  rewrite isTouched_view by now rewrite run_valid.
  repeat split; assumption.
Qed.

Lemma X3_flip_after_confirm_count_witness :
  let m := run (repeat (steady 600) 16) (MPR121Manager mem0 (steady 710) 90 3) in
  let caps := repeat (steady 710) 16 in
  valid 0 m = true /\ isTouched 0 m = true /\
  0 <= counter m 0 <= releaseJuge m 0 /\ releaseJuge m 0 < 255 /\
  counter m 0 + Z.of_nat (length caps) = releaseJuge m 0 + 1 /\
  Forall (fun v => crosses true (threshold m 0) v = true) (smoothed 0 caps m) /\
  isTouched 0 (run caps m) = false /\
  counter (run caps m) 0 = 0 /\
  threshold (run caps m) 0 =
    F.sub32 (value (run caps m) 0) (F.f32_of_Z (touchMargin m 0)).
Proof.
  intros m caps.
  assert (Hv : valid 0 m = true) by (vm_compute; reflexivity).
  assert (Ht : isTouched 0 m = true) by (vm_compute; reflexivity).
  assert (Hc : 0 <= counter m 0 <= releaseJuge m 0)
    by (vm_compute; split; discriminate).
  assert (Hj : releaseJuge m 0 < 255) by (vm_compute; reflexivity).
  assert (Hl : counter m 0 + Z.of_nat (length caps) = releaseJuge m 0 + 1)
    by (vm_compute; reflexivity).
  assert (Hs : Forall (fun v => crosses true (threshold m 0) v = true)
                 (smoothed 0 caps m))
    by (apply (Forall_of_forallb (fun v => crosses true (threshold m 0) v));
        vm_compute; reflexivity).
  split; [exact Hv|]. split; [exact Ht|]. split; [exact Hc|]. split; [exact Hj|].
  split; [exact Hl|]. split; [exact Hs|].
  pose proof (X3_flip_after_confirm_count m 0%nat caps Hv) as H.
  cbv zeta in H. rewrite Ht in H. exact (H Hc Hj Hl Hs).
Defined.

(** ** The prior contents of the object are never observed *)

Lemma execs_cons o ops m : execs (o :: ops) m = execs ops (exec o m).
Proof. reflexivity. Qed.

Lemma execs_valid ops : forall m j, valid j (execs ops m) = valid j m.
Proof.
  induction ops as [|o ops IH]; intros m j; [reflexivity|].
  now rewrite execs_cons, IH, exec_valid.
Qed.

Lemma execs_view ops : forall m j,
  valid j m = true ->
  port_of (execs ops m) j = port_execs ops j (port_of m j).
Proof.
  induction ops as [|o ops IH]; intros m j Hv; [reflexivity|].
  rewrite execs_cons, IH by now rewrite exec_valid.
  now rewrite exec_view.
Qed.

(** X4: whatever the storage of the object held before the constructor
    ran, every selected channel has the same cells and touch bit after any
    sequence of calls, and [isTouched] gives the same answer for every
    port: the cells the constructor leaves uninitialised are never
    observed. *)
Theorem X4_prior_memory_unobservable mem mem' cap setAddress usedPortMask ops p :
  valid p (MPR121Manager mem cap setAddress usedPortMask) = true ->
  port_of (execs ops (MPR121Manager mem cap setAddress usedPortMask)) p =
  port_of (execs ops (MPR121Manager mem' cap setAddress usedPortMask)) p /\
  (forall q,
     isTouched q (execs ops (MPR121Manager mem cap setAddress usedPortMask)) =
     isTouched q (execs ops (MPR121Manager mem' cap setAddress usedPortMask))).
Proof.
  assert (Hval : forall q,
            valid q (MPR121Manager mem cap setAddress usedPortMask) =
            valid q (MPR121Manager mem' cap setAddress usedPortMask))
    by (intros q; unfold valid; now rewrite !new_activePort).
  assert (Hport : forall q,
            valid q (MPR121Manager mem cap setAddress usedPortMask) = true ->
            port_of (execs ops (MPR121Manager mem cap setAddress usedPortMask)) q =
            port_of (execs ops (MPR121Manager mem' cap setAddress usedPortMask)) q).
  { intros q Hq. pose proof Hq as Hq'. rewrite Hval in Hq'.
    now rewrite !execs_view, !new_port. }
  intros Hv. split; [now apply Hport|].
  intros q. unfold isTouched. rewrite !execs_valid, <- Hval.
  destruct (valid q (MPR121Manager mem cap setAddress usedPortMask)) eqn:Hq;
    [|reflexivity].
  pose proof (Hport q Hq) as E. unfold port_of in E. now injection E.
Qed.

Lemma X4_prior_memory_unobservable_witness :
  let mem' :=
    mkManager 7 7 (fun _ => S754_nan) (fun _ => 9) (fun _ => 1) 4095
      (fun _ => 200) (fun _ => S754_infinity true) (fun _ => 3) (fun _ => 5)
      (fun _ => 0) (fun _ => 255) in
  let ops := [Update (steady 600); SetTouchJugeCount 0 0; Update (steady 600)] in
  valid 0 (MPR121Manager mem0 (steady 710) 90 3) = true /\
  port_of (execs ops (MPR121Manager mem0 (steady 710) 90 3)) 0 =
  port_of (execs ops (MPR121Manager mem' (steady 710) 90 3)) 0 /\
  (forall q,
     isTouched q (execs ops (MPR121Manager mem0 (steady 710) 90 3)) =
     isTouched q (execs ops (MPR121Manager mem' (steady 710) 90 3))).
Proof.
  intros mem' ops.
  assert (Hv : valid 0 (MPR121Manager mem0 (steady 710) 90 3) = true)
    by (vm_compute; reflexivity).
  split; [exact Hv|].
  exact (X4_prior_memory_unobservable mem0 mem' (steady 710) 90 3 ops 0%nat Hv).
Defined.

(** ** The cells stay within their types *)

Lemma le_trans x y z : F.le x y = true -> F.le y z = true -> F.le x z = true.
Proof.
  unfold F.le, SFleb.
  destruct x as [[]|[]| |[] m1 e1], y as [[]|[]| |[] m2 e2],
    z as [[]|[]| |[] m3 e3]; cbn; try discriminate; try reflexivity;
    change (Pos.compare_cont Eq) with Pos.compare;
    destruct (Z.compare_spec e1 e2), (Z.compare_spec e2 e3),
      (Z.compare_spec e1 e3); try discriminate; try reflexivity; try lia;
    destruct (Pos.compare_spec m1 m2), (Pos.compare_spec m2 m3),
      (Pos.compare_spec m1 m3); cbn; try discriminate; try reflexivity; lia.
Qed.

Lemma lt_le_trans x y z : F.lt x y = true -> F.le y z = true -> F.lt x z = true.
Proof.
  unfold F.lt, F.le, SFltb, SFleb.
  destruct x as [[]|[]| |[] m1 e1], y as [[]|[]| |[] m2 e2],
    z as [[]|[]| |[] m3 e3]; cbn; try discriminate; try reflexivity;
    change (Pos.compare_cont Eq) with Pos.compare;
    destruct (Z.compare_spec e1 e2), (Z.compare_spec e2 e3),
      (Z.compare_spec e1 e3); try discriminate; try reflexivity; try lia;
    destruct (Pos.compare_spec m1 m2), (Pos.compare_spec m2 m3),
      (Pos.compare_spec m1 m3); cbn; try discriminate; try reflexivity; lia.
Qed.

Lemma f32_of_Z_finite z : u16 z -> is_finite (F.f32_of_Z z).
Proof.
  unfold u16. intros H. destruct z as [|p|p]; [exact I| |lia].
  pose proof (size_u16 p ltac:(lia)). rewrite f32_of_pos by lia. exact I.
Qed.

Lemma zero_le_nonneg x : F.nonneg x -> F.le (F.f32_of_Z 0) x = true.
Proof. destruct x as [[]|[]| |[] m e]; cbn; try tauto; discriminate. Qed.

Lemma finite_of_le x y :
  F.nonneg x -> is_finite y -> F.le x y = true -> is_finite x.
Proof.
  destruct x as [[]|[]| |[] m e], y as [[]|[]| |[] m' e']; cbn;
    try tauto; discriminate.
Qed.

(** What [constrain] returns out of a number is a number between 0 and
    65535, whatever the order of the two bounds. *)
Lemma constrain_typed v lo hi :
  F.nonneg v -> u16 lo -> u16 hi ->
  is_finite (constrain v lo hi) /\
  F.nonneg (constrain v lo hi) /\
  F.le (constrain v lo hi) (F.f32_of_Z 65535) = true.
Proof.
  intros Hv Hlo Hhi.
  assert (Hb : forall z, u16 z ->
            is_finite (F.f32_of_Z z) /\
            F.nonneg (F.f32_of_Z z) /\
            F.le (F.f32_of_Z z) (F.f32_of_Z 65535) = true).
  { intros z Hz. split; [now apply f32_of_Z_finite|].
    unfold u16 in Hz. split; [apply f32_of_Z_nonneg|apply f32_of_Z_mono]; lia. }
  unfold constrain.
  destruct (F.lt v (F.f32_of_Z lo)); [now apply Hb|].
  destruct (F.gt v (F.f32_of_Z hi)) eqn:E; [now apply Hb|].
  destruct (Hb hi Hhi) as (Hf & _ & Hle).
  assert (Hvh : F.le v (F.f32_of_Z hi) = true).
  { apply not_lt_le; [apply f32_of_Z_nonneg; unfold u16 in Hhi; lia|exact Hv|exact E]. }
  split; [exact (finite_of_le _ _ Hv Hf Hvh)|].
  split; [exact Hv|exact (le_trans _ _ _ Hvh Hle)].
Qed.

Lemma binary_normalize_not_nan prec emax z e s :
  binary_normalize prec emax z e s <> S754_nan.
Proof.
  unfold binary_normalize. destruct z as [|p|p]; [discriminate| |].
  - pose proof (binary_round_signed prec emax false p e) as H.
    intros E. rewrite E in H. exact H.
  - pose proof (binary_round_signed prec emax true p e) as H.
    intros E. rewrite E in H. exact H.
Qed.

Lemma sub32_not_nan x y : is_finite x -> is_finite y -> F.sub32 x y <> S754_nan.
Proof.
  destruct x as [[]|[]| |sx mx ex], y as [[]|[]| |sy my ey]; cbn;
    try tauto; intros _ _; try discriminate.
  apply binary_normalize_not_nan.
Qed.

Lemma add32_not_nan x y : is_finite x -> is_finite y -> F.add32 x y <> S754_nan.
Proof.
  destruct x as [[]|[]| |sx mx ex], y as [[]|[]| |sy my ey]; cbn;
    try tauto; intros _ _; try discriminate.
  apply binary_normalize_not_nan.
Qed.

Lemma port_typed_nonneg p : port_typed p -> F.nonneg (p_value p).
Proof. now intros [(_ & H0 & _) _]. Qed.

Lemma port_step_typed raw p : u16 raw -> port_typed p -> port_typed (port_step raw p).
Proof.
  intros Hr Hp. pose proof (port_typed_nonneg p Hp) as Hn.
  destruct Hp as [(Hf & H0 & H1 & Hthr) (Hlo & Hhi & Hc & Htm & Hrm & Htj & Hrj)].
  assert (Hs : F.nonneg (smooth raw (p_value p)))
    by (apply smooth_nonneg; [unfold u16 in Hr; lia|exact Hn]).
  pose proof (constrain_typed _ _ _ Hs Hlo Hhi) as (Hvf & Hv0 & Hv1).
  fold (p_next_value raw p) in Hvf, Hv0, Hv1.
  pose proof (next_counter_range raw p) as Hcnt.
  assert (Hnan : (if p_touched p
                  then F.sub32 (p_next_value raw p) (F.f32_of_Z (p_touchMargin p))
                  else F.add32 (p_next_value raw p) (F.f32_of_Z (p_releaseMargin p)))
                 <> S754_nan).
  { destruct (p_touched p);
      [apply sub32_not_nan|apply add32_not_nan];
      try assumption; now apply f32_of_Z_finite. }
  unfold port_step, port_typed.
  destruct (p_flips raw p); cbn [p_value p_minValue p_maxValue p_counter
    p_threshold p_touchMargin p_releaseMargin p_touchJuge p_releaseJuge];
    (split; [repeat (split; [assumption|]); assumption|
             unfold u8, u16 in *; repeat split; try assumption; lia]).
Qed.

Lemma default_port_typed raw : u16 raw -> port_typed (default_port raw).
Proof.
  intros Hr.
  assert (Hs : F.nonneg (F.f32_of_Z raw))
    by (apply f32_of_Z_nonneg; unfold u16 in Hr; lia).
  assert (H600 : u16 600) by (unfold u16; lia).
  assert (H710 : u16 710) by (unfold u16; lia).
  pose proof (constrain_typed _ _ _ Hs H600 H710) as (Hvf & Hv0 & Hv1).
  assert (Hnan : F.sub32 (constrain (F.f32_of_Z raw) 600 710) (F.f32_of_Z 30)
                 <> S754_nan).
  { apply sub32_not_nan; [exact Hvf|]. apply f32_of_Z_finite. unfold u16. lia. }
  unfold default_port, port_typed.
  cbn [p_value p_minValue p_maxValue p_counter
         p_threshold p_touchMargin p_releaseMargin p_touchJuge p_releaseJuge].
  split; [repeat (split; [assumption|]); assumption|unfold u8, u16; repeat split; lia].
Qed.

Lemma p_setter_typed o p : typed o -> port_typed p -> port_typed (p_setter o p).
Proof.
  intros Ht [(Hf & H0 & H1 & Hthr) (Hlo & Hhi & Hc & Htm & Hrm & Htj & Hrj)].
  destruct o; cbn [p_setter typed] in *;
    unfold port_typed, p_rethreshold;
    cbn [p_value p_minValue p_maxValue p_counter p_touched
           p_threshold p_touchMargin p_releaseMargin p_touchJuge p_releaseJuge];
    (split; [repeat split; try assumption|
             unfold u8, u16 in *; repeat split; try assumption; try lia]);
    destruct (p_touched p);
    first [apply sub32_not_nan|apply add32_not_nan];
    try assumption; apply f32_of_Z_finite; unfold u8, u16 in *; lia.
Qed.

Lemma port_exec_typed o j p : typed o -> port_typed p -> port_typed (port_exec o j p).
Proof.
  intros Ht Hp.
  destruct o; cbn [port_exec op_port];
    [apply port_step_typed; [apply Ht|exact Hp]|..];
    (destruct (Nat.eqb port j); [now apply p_setter_typed|exact Hp]).
Qed.

Lemma reachable_typed m i :
  reachable m -> valid i m = true -> port_typed (port_of m i).
Proof.
  intros Hr. revert i.
  induction Hr as [mem cap a mask Hc|o m Hm IH Ht]; intros i Hi.
  - rewrite new_port by exact Hi. apply default_port_typed, Hc.
  - rewrite exec_valid in Hi. rewrite exec_view by exact Hi.
    apply port_exec_typed; auto.
Qed.

(** X5: in every state the object can be in, the smoothed value of a
    selected channel is a number (neither NaN nor infinite) between 0 and
    65535 and its threshold is not a NaN: the comparisons of [update] are
    never unordered on its account. *)
Theorem X5_smoothed_value_is_a_number m i :
  reachable m -> valid i m = true ->
  is_finite (value m i) /\
  F.le (F.f32_of_Z 0) (value m i) = true /\
  F.le (value m i) (F.f32_of_Z 65535) = true /\
  threshold m i <> S754_nan.
Proof.
  intros Hr Hv.
  destruct (reachable_typed m i Hr Hv) as [(Hf & Hn & H1 & Ht) _].
  cbn in Hf, Hn, H1, Ht.
  repeat split; try assumption. now apply zero_le_nonneg.
Qed.

Lemma X5_smoothed_value_is_a_number_witness :
  let m :=
    execs [Update (steady 0); SetSensorMinValue 0 65535; Update (steady 65535)]
      (MPR121Manager mem0 (steady 65535) 90 3) in
  reachable m /\ valid 0 m = true /\
  is_finite (value m 0) /\
  F.le (F.f32_of_Z 0) (value m 0) = true /\
  F.le (value m 0) (F.f32_of_Z 65535) = true /\
  threshold m 0 <> S754_nan.
Proof.
  intros m.
  assert (Hr : reachable m).
  { unfold m, execs. cbn [fold_left].
    repeat (apply reach_exec;
            [|cbn [typed]; try intros j; unfold u8, u16, steady; lia]).
    apply reach_new. intros j. unfold u16, steady. lia. }
  assert (Hv : valid 0 m = true) by (vm_compute; reflexivity).
  split; [exact Hr|]. split; [exact Hv|].
  exact (X5_smoothed_value_is_a_number m 0%nat Hr Hv).
Defined.

(** The touch word holds nothing but bits of selected channels. *)
Lemma touch_word_range m :
  (forall j, bit (currentTouched m) j = true -> valid j m = true) ->
  0 <= currentTouched m < 4096 /\
  Z.land (currentTouched m) (activePort m) = currentTouched m.
Proof.
  intros Hb.
  assert (Hhigh : forall n, 12 <= n -> Z.testbit (currentTouched m) n = false).
  { intros n Hn. destruct (Z.testbit (currentTouched m) n) eqn:E; [|reflexivity].
    assert (Hbn : bit (currentTouched m) (Z.to_nat n) = true)
      by (rewrite bit_testbit, Z2Nat.id by lia; exact E).
    apply Hb, valid_spec in Hbn. unfold maxPort in Hbn. lia. }
  assert (Hpos : 0 <= currentTouched m).
  { apply Z.bits_iff_nonneg_ex. exists 12. intros n Hn. apply Hhigh. lia. }
  split; [split; [exact Hpos|]|].
  - destruct (Z.eq_dec (currentTouched m) 0) as [->|Hne]; [lia|].
    change 4096 with (2 ^ 12). apply Z.log2_lt_pow2; [lia|].
    destruct (Z_lt_le_dec (Z.log2 (currentTouched m)) 12) as [Hlt|Hge]; [exact Hlt|].
    pose proof (Z.bit_log2 (currentTouched m) ltac:(lia)) as Hl.
    rewrite Hhigh in Hl by exact Hge. discriminate.
  - apply Z.bits_inj'. intros n Hn. rewrite Z.land_spec.
    destruct (Z.testbit (currentTouched m) n) eqn:E; [|reflexivity].
    assert (Hbn : bit (currentTouched m) (Z.to_nat n) = true)
      by (rewrite bit_testbit, Z2Nat.id by lia; exact E).
    apply Hb, valid_spec in Hbn. destruct Hbn as [_ Hm].
    rewrite Z2Nat.id in Hm by lia. now rewrite Hm.
Qed.

(** X6: in every state the object can be in, the touch word is below
    [2^12] and has no bit outside the mask (so storing it in 16 bits loses
    nothing), and for each selected channel the counter and both confirm
    counts fit [uint8_t] and both bounds and both margins fit
    [uint16_t]. *)
Theorem X6_integers_within_their_types m :
  reachable m ->
  0 <= currentTouched m < 4096 /\
  Z.land (currentTouched m) (activePort m) = currentTouched m /\
  (forall i, valid i m = true ->
     u8 (counter m i) /\ u8 (touchJuge m i) /\ u8 (releaseJuge m i) /\
     u16 (minValue m i) /\ u16 (maxValue m i) /\
     u16 (touchMargin m i) /\ u16 (releaseMargin m i)).
Proof.
  intros Hr.
  destruct (reachable_inv m Hr) as [_ Hb].
  destruct (touch_word_range m Hb) as [H1 H2].
  split; [exact H1|]. split; [exact H2|].
  intros i Hv.
  destruct (reachable_typed m i Hr Hv) as [_ (Hlo & Hhi & Hc & Htm & Hrm & Htj & Hrj)].
  cbn in Hlo, Hhi, Hc, Htm, Hrm, Htj, Hrj. tauto.
Qed.

Lemma X6_integers_within_their_types_witness :
  let m :=
    execs [SetTouchJugeCount 0 255; Update (steady 0); SetTouchMargin 1 255]
      (MPR121Manager mem0 (steady 65535) 90 4095) in
  reachable m /\
  0 <= currentTouched m < 4096 /\
  Z.land (currentTouched m) (activePort m) = currentTouched m /\
  (forall i, valid i m = true ->
     u8 (counter m i) /\ u8 (touchJuge m i) /\ u8 (releaseJuge m i) /\
     u16 (minValue m i) /\ u16 (maxValue m i) /\
     u16 (touchMargin m i) /\ u16 (releaseMargin m i)).
Proof.
  intros m.
  assert (Hr : reachable m).
  { unfold m, execs. cbn [fold_left].
    repeat (apply reach_exec;
            [|cbn [typed]; try intros j; unfold u8, u16, steady; lia]).
    apply reach_new. intros j. unfold u16, steady. lia. }
  split; [exact Hr|].
  exact (X6_integers_within_their_types m Hr).
Defined.

(** ** An object with no channel selected *)

Lemma loop_inert (f : nat -> Manager -> Manager) l : forall m,
  (forall i, In i l -> bit (activePort m) i = false) ->
  fold_left (fun m i => if bit (activePort m) i then f i m else m) l m = m.
Proof.
  induction l as [|i l IH]; intros m H; [reflexivity|].
  cbn [fold_left]. rewrite (H i) by now left.
  apply IH. intros j Hj. apply H. now right.
Qed.

(** X7: when the mask selects none of the twelve channels (bits 12 to 15
    do not count), the constructor leaves every array as it found it, and
    on such an object [update] and the six setters change nothing and
    [isTouched] is false for every port. *)
Theorem X7_nothing_selected mem cap setAddress usedPortMask :
  (forall i, (i < maxPort)%nat -> Z.testbit usedPortMask (Z.of_nat i) = false) ->
  MPR121Manager mem cap setAddress usedPortMask =
    mkManager usedPortMask setAddress (value mem) (minValue mem) (maxValue mem)
      0 (counter mem) (threshold mem) (touchMargin mem) (releaseMargin mem)
      (touchJuge mem) (releaseJuge mem) /\
  (forall m, activePort m = usedPortMask ->
     (forall o, exec o m = m) /\ (forall p, isTouched p m = false)).
Proof.
  intros H. split.
  - unfold MPR121Manager.
    apply (loop_inert (fun i m => init_port (cap i) i m)).
    intros i Hi. apply in_seq in Hi. cbn [activePort].
    rewrite bit_testbit. apply H. lia.
  - intros m Hm.
    assert (Hv : forall p, valid p m = false).
    { intros p. destruct (valid p m) eqn:E; [|reflexivity].
      apply valid_spec in E. destruct E as [E1 E2].
      rewrite Hm, (H p E1) in E2. discriminate. }
    split.
    + intros o. destruct o; cbn [exec];
        unfold setTouchMargin, setReleaseMargin, setSensorMinValue,
          setSensorMaxValue, setTouchJugeCount, setReleaseJugeCount;
        rewrite ?Hv; try reflexivity.
      unfold update.
      apply (loop_inert (fun i m => update_port (cap0 i) i m)).
      intros i Hi. apply in_seq in Hi. rewrite bit_testbit, Hm. apply H. lia.
    + intros p. unfold isTouched. now rewrite Hv.
Qed.

Lemma X7_nothing_selected_witness :
  (forall i, (i < maxPort)%nat -> Z.testbit 61440 (Z.of_nat i) = false) /\
  MPR121Manager mem0 (steady 650) 90 61440 =
    mkManager 61440 90 (value mem0) (minValue mem0) (maxValue mem0)
      0 (counter mem0) (threshold mem0) (touchMargin mem0) (releaseMargin mem0)
      (touchJuge mem0) (releaseJuge mem0) /\
  (forall m, activePort m = 61440 ->
     (forall o, exec o m = m) /\ (forall p, isTouched p m = false)).
Proof.
  assert (H : forall i, (i < maxPort)%nat -> Z.testbit 61440 (Z.of_nat i) = false).
  { intros i Hi. unfold maxPort in Hi.
    do 12 (destruct i as [|i]; [reflexivity|]). lia. }
  split; [exact H|].
  exact (X7_nothing_selected mem0 (steady 650) 90 61440 H).
Defined.

(** ** Bounds in the wrong order *)

Lemma constrain_inverted v lo hi :
  F.nonneg v -> 0 <= hi < lo -> lo < 65536 ->
  constrain v lo hi =
  if F.lt v (F.f32_of_Z lo) then F.f32_of_Z lo else F.f32_of_Z hi.
Proof.
  intros Hv Hhi Hlo. unfold constrain.
  destruct (F.lt v (F.f32_of_Z lo)) eqn:E; [reflexivity|].
  assert (Hle : F.le (F.f32_of_Z lo) v = true)
    by (apply not_lt_le; [exact Hv|apply f32_of_Z_nonneg; lia|exact E]).
  assert (Hlt : F.lt (F.f32_of_Z hi) (F.f32_of_Z lo) = true)
    by (apply f32_of_Z_lt; lia).
  unfold F.gt. fold (F.lt (F.f32_of_Z hi) v).
  now rewrite (lt_le_trans _ _ _ Hlt Hle).
Qed.

(** X8: when a selected channel has [maxValue] below [minValue], [update]
    stores one of the two bounds as smoothed value, never anything in
    between: [minValue] if the smoothed reading is below it, [maxValue]
    otherwise, which is itself below [minValue]. *)
Theorem X8_bounds_in_wrong_order m cap i :
  reachable m ->
  (forall j, u16 (cap j)) ->
  valid i m = true ->
  maxValue m i < minValue m i ->
  value (update cap m) i =
    (if F.lt (smooth (cap i) (value m i)) (F.f32_of_Z (minValue m i))
     then F.f32_of_Z (minValue m i) else F.f32_of_Z (maxValue m i)) /\
  F.lt (F.f32_of_Z (maxValue m i)) (F.f32_of_Z (minValue m i)) = true.
Proof.
  intros Hr Hc Hv Hinv.
  destruct (reachable_inv m Hr) as [Hp _].
  destruct (Hp i Hv) as (Hn & Hlo & Hhi). cbn in Hn, Hlo, Hhi.
  unfold u16 in Hlo, Hhi.
  split; [|apply f32_of_Z_lt; lia].
  rewrite update_value by exact Hv.
  apply constrain_inverted; try lia.
  apply smooth_nonneg; [|exact Hn]. pose proof (Hc i) as H. unfold u16 in H. lia.
Qed.

Lemma X8_bounds_in_wrong_order_witness :
  let m :=
    execs [SetSensorMinValue 0 700; SetSensorMaxValue 0 650]
      (MPR121Manager mem0 (steady 680) 90 3) in
  reachable m /\ (forall j, u16 (steady 680 j)) /\ valid 0 m = true /\
  maxValue m 0 < minValue m 0 /\
  value (update (steady 680) m) 0 =
    (if F.lt (smooth (steady 680 0%nat) (value m 0)) (F.f32_of_Z (minValue m 0))
     then F.f32_of_Z (minValue m 0) else F.f32_of_Z (maxValue m 0)) /\
  F.lt (F.f32_of_Z (maxValue m 0)) (F.f32_of_Z (minValue m 0)) = true.
Proof.
  intros m.
  assert (Hr : reachable m).
  { unfold m, execs. cbn [fold_left].
    repeat (apply reach_exec;
            [|cbn [typed]; try intros j; unfold u8, u16, steady; lia]).
    apply reach_new. intros j. unfold u16, steady. lia. }
  assert (Hc : forall j, u16 (steady 680 j)) by (intros j; unfold u16, steady; lia).
  assert (Hv : valid 0 m = true) by (vm_compute; reflexivity).
  assert (Hi : maxValue m 0 < minValue m 0) by (vm_compute; reflexivity).
  split; [exact Hr|]. split; [exact Hc|]. split; [exact Hv|]. split; [exact Hi|].
  exact (X8_bounds_in_wrong_order m (steady 680) 0%nat Hr Hc Hv Hi).
Defined.

(** ** What a setter leaves alone *)

(** X9: a setter writes nothing but cells of the port it is called with:
    the mask, the address and the touch word are as before, so that
    [isTouched] answers as before for every port; the smoothed values and
    the counters of all ports are as before; and every cell of every
    other port is as before. *)
Theorem X9_setter_frame o port m :
  op_port o = Some port ->
  activePort (exec o m) = activePort m /\
  address (exec o m) = address m /\
  currentTouched (exec o m) = currentTouched m /\
  value (exec o m) = value m /\
  counter (exec o m) = counter m /\
  (forall q, isTouched q (exec o m) = isTouched q m) /\
  (forall q, q <> port -> cells_of (exec o m) q = cells_of m q).
Proof.
  intros Ho.
  assert (Hframe : activePort (exec o m) = activePort m /\
                   address (exec o m) = address m /\
                   currentTouched (exec o m) = currentTouched m /\
                   value (exec o m) = value m /\
                   counter (exec o m) = counter m /\
                   (forall q, q <> port -> cells_of (exec o m) q = cells_of m q)).
  { destruct o; cbn [op_port] in Ho; [discriminate|..];
      injection Ho as ->; cbn [exec];
      unfold setTouchMargin, setReleaseMargin, setSensorMinValue,
        setSensorMaxValue, setTouchJugeCount, setReleaseJugeCount, rethreshold;
      (destruct (valid port m); [|repeat split; reflexivity]);
      cbn; try destruct (bit (currentTouched m) port); cbn;
      repeat split; try reflexivity;
      intros q Hq; unfold cells_of; cbn;
      now rewrite ?(upd_other _ port q) by exact Hq. }
  destruct Hframe as (Ha & Hd & Hc & Hval & Hcnt & Hcells).
  repeat split; try assumption.
  intros q. unfold isTouched, valid. now rewrite Ha, Hc.
Qed.

Lemma X9_setter_frame_witness :
  let m := run (repeat (steady 600) 16) (MPR121Manager mem0 (steady 710) 90 3) in
  let o := SetTouchMargin 0 200 in
  op_port o = Some 0%nat /\
  activePort (exec o m) = activePort m /\
  address (exec o m) = address m /\
  currentTouched (exec o m) = currentTouched m /\
  value (exec o m) = value m /\
  counter (exec o m) = counter m /\
  (forall q, isTouched q (exec o m) = isTouched q m) /\
  (forall q, q <> 0%nat -> cells_of (exec o m) q = cells_of m q).
Proof.
  intros m o. split; [reflexivity|].
  exact (X9_setter_frame o 0%nat m eq_refl).
Defined.

(** ** A channel that starts too low *)

Lemma constrain_not_below_le x lo hi t :
  F.le t (F.f32_of_Z lo) = true ->
  F.lt (F.f32_of_Z lo) t = false -> F.lt (F.f32_of_Z hi) t = false ->
  F.lt (constrain x lo hi) t = false.
Proof.
  intros Hle Hlo Hhi. unfold constrain.
  destruct (F.lt x (F.f32_of_Z lo)) eqn:E1; [exact Hlo|].
  destruct (F.gt x (F.f32_of_Z hi)); [exact Hhi|].
  destruct (F.lt x t) eqn:E; [|reflexivity].
  rewrite (lt_le_trans _ _ _ E Hle) in E1. discriminate.
Qed.

(** For a first reading of at most 630 the initial threshold is at most
    600: checked on each reading. *)
Lemma low_start_threshold raw :
  0 <= raw <= 630 ->
  let t := p_threshold (default_port raw) in
  F.le t (F.f32_of_Z 600) = true /\
  F.lt (F.f32_of_Z 600) t = false /\ F.lt (F.f32_of_Z 710) t = false.
Proof.
  intros Hr.
  assert (Hall :
    forallb
      (fun n =>
         let t := p_threshold (default_port (Z.of_nat n)) in
         F.le t (F.f32_of_Z 600) && negb (F.lt (F.f32_of_Z 600) t)
           && negb (F.lt (F.f32_of_Z 710) t))
      (seq 0 631) = true) by (vm_compute; reflexivity).
  pose proof (proj1 (forallb_forall _ _) Hall (Z.to_nat raw)) as H.
  cbv beta zeta in H. rewrite Z2Nat.id in H by lia.
  specialize (H ltac:(apply in_seq; lia)).
  apply andb_true_iff in H. destruct H as [H H3].
  apply andb_true_iff in H. destruct H as [H1 H2].
  apply negb_true_iff in H2, H3. cbv zeta. auto.
Qed.

(** X10: a channel that the constructor initialises from a reading of at
    most 630 never becomes touched through [update] calls alone, whatever
    is read afterwards: its threshold, the clamped reading minus 30, is at
    most 600, and the smoothed value is clamped to at least 600. *)
Theorem X10_low_first_reading_never_touches mem cap setAddress usedPortMask i caps :
  let m := MPR121Manager mem cap setAddress usedPortMask in
  valid i m = true ->
  0 <= cap i <= 630 ->
  isTouched i (run caps m) = false.
Proof.
  intros m Hv Hc.
  pose proof (new_port mem cap setAddress usedPortMask i Hv) as Hp.
  change (MPR121Manager mem cap setAddress usedPortMask) with m in Hp.
  clearbody m.
  rewrite isTouched_view, run_view, Hp by now rewrite ?run_valid.
  destruct (low_start_threshold (cap i) Hc) as (H1 & H2 & H3).
  apply port_run_never_touch; try reflexivity; [cbn; lia|].
  intros x. now apply constrain_not_below_le.
Qed.

Lemma X10_low_first_reading_never_touches_witness :
  let m := MPR121Manager mem0 (steady 630) 90 3 in
  let m' := MPR121Manager mem0 (steady 631) 90 3 in
  let caps := repeat (steady 0) 40 in
  valid 0 m = true /\ 0 <= steady 630 0%nat <= 630 /\
  isTouched 0 (run caps m) = false /\
  isTouched 0 (run caps m') = true.
Proof.
  intros m m' caps.
  assert (Hv : valid 0 m = true) by (vm_compute; reflexivity).
  assert (Hc : 0 <= steady 630 0%nat <= 630) by (unfold steady; lia).
  split; [exact Hv|]. split; [exact Hc|].
  split; [|vm_compute; reflexivity].
  exact (X10_low_first_reading_never_touches mem0 (steady 630) 90 3 0%nat caps Hv Hc).
Defined.

(** ** printStatus *)

Lemma elapsed_mod last d :
  0 <= d < 2 ^ 32 -> ((last + d) mod 2 ^ 32 - last) mod 2 ^ 32 = d.
Proof.
  intros Hd. rewrite Zminus_mod_idemp_l.
  replace (last + d - last) with d by lia. apply Z.mod_small. exact Hd.
Qed.

(** X11: [d] milliseconds (fewer than [2^32]) after the time kept in
    [lastPrintTime], [printStatus] sends nothing and keeps that time if
    [d < interval], and otherwise sends a line and keeps the current time,
    also when [millis()] has wrapped around in between.  The time is kept
    for all objects together: after a line has been sent for one object, a
    call for any object less than [interval] later sends nothing.  On the
    first call [lastPrintTime] is what [millis()] returns then. *)
Theorem X11_printStatus_rate_limit last d millis0 cap m interval portLabel N :
  0 <= d < 2 ^ 32 ->
  let now := (last + d) mod 2 ^ 32 in
  let r := printStatus (Some last) millis0 now cap m interval portLabel N in
  (d < interval -> r = (Some last, [])) /\
  (interval <= d ->
   fst r = Some now /\ snd r <> [] /\
   forall d' millis0' cap' m' portLabel' N',
     0 <= d' < 2 ^ 32 -> d' < interval ->
     printStatus (fst r) millis0' ((now + d') mod 2 ^ 32) cap' m' interval
       portLabel' N' = (Some now, [])) /\
  printStatus None millis0 now cap m interval portLabel N =
  printStatus (Some millis0) millis0 now cap m interval portLabel N.
Proof.
  intros Hd now r.
  assert (Hstep : forall l e t0 c mm lab n, 0 <= e < 2 ^ 32 -> e < interval ->
            printStatus (Some l) t0 ((l + e) mod 2 ^ 32) c mm interval lab n
            = (Some l, [])).
  { intros l e t0 c mm lab n He Hlt. unfold printStatus.
    rewrite elapsed_mod by exact He.
    apply Z.ltb_lt in Hlt. now rewrite Hlt. }
  split; [|split; [|reflexivity]].
  - intros Hlt. now apply Hstep.
  - intros Hge.
    assert (E : r = (Some now,
                     [Print_str "Add: 0x"; Print_hex (address m); Print_str " ->"]
                       ++ print_ports portLabel N cap m ++ [Println])).
    { unfold r, printStatus, now. rewrite elapsed_mod by exact Hd.
      apply Z.ltb_ge in Hge. now rewrite Hge. }
    rewrite E. cbn [fst snd]. split; [reflexivity|]. split; [discriminate|].
    intros d' t0' cap' m' lab' N' Hd' Hlt'. now apply Hstep.
Qed.

Lemma X11_printStatus_rate_limit_witness :
  let last := 4294967000 in
  let m := MPR121Manager mem0 (steady 650) 90 3 in
  let lab := fun _ : nat => String.EmptyString in
  0 <= 500 < 2 ^ 32 /\
  (last + 500) mod 2 ^ 32 = 204 /\
  printStatus (Some last) 0 204 (steady 650) m 1000 lab 0 = (Some last, []) /\
  fst (printStatus (Some last) 0 ((last + 1000) mod 2 ^ 32) (steady 650) m 1000 lab 0)
    = Some 704.
Proof.
  intros last m lab.
  assert (Hd : 0 <= 500 < 2 ^ 32) by lia.
  assert (Hd' : 0 <= 1000 < 2 ^ 32) by lia.
  split; [exact Hd|]. split; [reflexivity|]. split.
  - exact (proj1 (X11_printStatus_rate_limit last 500 0 (steady 650) m 1000 lab 0 Hd)
             ltac:(lia)).
  - exact (proj1 (proj1 (proj2
             (X11_printStatus_rate_limit last 1000 0 (steady 650) m 1000 lab 0 Hd'))
             ltac:(lia))).
Defined.

Section Report.

Variables (portLabel : nat -> String.string) (N : nat) (cap : nat -> Z)
  (m : Manager).

Let body (acc : list serial * Z) (i : nat) : list serial * Z :=
  if bit (activePort m) i
  then let r := print_port portLabel N cap m i (snd acc) in
       (fst acc ++ fst r, snd r)
  else acc.

Lemma print_port_report i k :
  (k < 255)%nat ->
  fst (print_port portLabel N cap m i (Z.of_nat k)) = port_report portLabel N cap m k i /\
  ((0 < N)%nat -> snd (print_port portLabel N cap m i (Z.of_nat k)) = Z.of_nat (S k)).
Proof.
  intros Hk. unfold print_port, port_report.
  destruct (Nat.ltb_spec 0 N) as [HN|HN]; cbn [fst snd].
  - split.
    + rewrite Nat2Z.id.
      destruct (Z.ltb_spec (Z.of_nat k) (Z.of_nat N)), (Nat.ltb_spec k N);
        try reflexivity; lia.
    + intros _. rewrite Z.mod_small by lia. lia.
  - split; [reflexivity|]. lia.
Qed.

Lemma print_port_report_unlabelled i idx k :
  N = 0%nat ->
  print_port portLabel N cap m i idx = (port_report portLabel N cap m k i, idx).
Proof. intros ->. reflexivity. Qed.

Lemma print_loop_report l : forall acc idx k,
  ((0 < N)%nat -> idx = Z.of_nat k) ->
  (k + length l < 256)%nat ->
  fst (fold_left body l (acc, idx)) =
  acc ++ ports_report portLabel N cap m k
           (filter (fun i => bit (activePort m) i) l).
Proof.
  induction l as [|i l IH]; intros acc idx k Hidx Hk.
  - cbn. now rewrite app_nil_r.
  - cbn [fold_left filter length] in *. unfold body at 2. cbn [fst snd].
    destruct (bit (activePort m) i).
    + cbn [ports_report]. rewrite app_assoc.
      destruct (Nat.eq_dec N 0) as [HN|HN].
      * rewrite (print_port_report_unlabelled i idx k HN). cbn [fst snd].
        apply IH; lia.
      * assert (Hi : idx = Z.of_nat k) by (apply Hidx; lia). subst idx.
        destruct (print_port_report i k ltac:(lia)) as [E1 E2].
        rewrite <- E1.
        rewrite (surjective_pairing (print_port portLabel N cap m i (Z.of_nat k))).
        cbn [fst snd]. rewrite E2 by lia.
        apply IH; [reflexivity|lia].
    + apply IH; [exact Hidx|lia].
Qed.

Lemma print_ports_report :
  print_ports portLabel N cap m = ports_report portLabel N cap m 0 (selected m).
Proof.
  unfold print_ports, selected.
  apply (print_loop_report (seq 0 maxPort) [] 0 0%nat); [reflexivity|].
  rewrite length_seq. unfold maxPort. lia.
Qed.

End Report.

Lemma ports_report_ext lab lab' N cap m :
  (forall k, (k < N)%nat -> lab' k = lab k) ->
  forall l k, ports_report lab' N cap m k l = ports_report lab N cap m k l.
Proof.
  intros Hlab. induction l as [|i l IH]; intros k; [reflexivity|].
  cbn [ports_report]. rewrite IH. f_equal.
  unfold port_report. destruct (0 <? N)%nat; [|reflexivity].
  destruct (Nat.ltb_spec k N); [|reflexivity]. now rewrite Hlab.
Qed.

Lemma selected_valid m i : In i (selected m) <-> valid i m = true.
Proof.
  unfold selected. rewrite filter_In, in_seq, valid_bit, andb_true_iff, Nat.ltb_lt.
  unfold maxPort. intuition lia.
Qed.

(** X12: when [printStatus] sends a line, it is the address, then, for
    the selected channels in increasing order and for no other, a
    separator, the channel's name, its state ("Touch" exactly when
    [isTouched] holds), smoothed value, threshold and a fresh reading, and
    then the end of line.  With [N = 0] the name is "Port " and the port
    number; otherwise the [k]-th selected channel (from 0) is named
    [portLabel[k]] when [k < N] and has no name when the labels have run
    out; [portLabel] is never read at [N] or beyond. *)
Theorem X12_printStatus_line last millis0 millis1 cap m interval portLabel N :
  interval <= (millis1 - last) mod 2 ^ 32 ->
  snd (printStatus (Some last) millis0 millis1 cap m interval portLabel N) =
    [Print_str "Add: 0x"; Print_hex (address m); Print_str " ->"]
      ++ ports_report portLabel N cap m 0 (selected m) ++ [Println] /\
  (forall i, In i (selected m) <-> valid i m = true) /\
  (forall i, valid i m = true ->
     print_cells cap m i =
     [Print_str ": "; Print_str (if isTouched i m then "Touch" else "Release");
      Print_str "  Val: "; Print_float (value m i) 2;
      Print_str "  Thr: "; Print_float (threshold m i) 2;
      Print_str "  Raw: "; Print_num (cap i)]) /\
  (forall portLabel',
     (forall k, (k < N)%nat -> portLabel' k = portLabel k) ->
     printStatus (Some last) millis0 millis1 cap m interval portLabel' N =
     printStatus (Some last) millis0 millis1 cap m interval portLabel N).
Proof.
  intros Hge.
  assert (Hline : forall lab,
            printStatus (Some last) millis0 millis1 cap m interval lab N =
            (Some millis1,
             [Print_str "Add: 0x"; Print_hex (address m); Print_str " ->"]
               ++ ports_report lab N cap m 0 (selected m) ++ [Println])).
  { intros lab. unfold printStatus. apply Z.ltb_ge in Hge. rewrite Hge.
    now rewrite print_ports_report. }
  split; [now rewrite Hline|].
  split; [apply selected_valid|].
  split.
  - intros i Hv. unfold print_cells, isTouched. now rewrite Hv.
  - intros lab' Hlab. rewrite !Hline.
    now rewrite (ports_report_ext portLabel lab' N cap m Hlab).
Qed.

Lemma X12_printStatus_line_witness :
  let m := run (repeat (steady 600) 16) (MPR121Manager mem0 (steady 710) 90 5) in
  let lab := fun k : nat => match k with O => "A" | _ => "B" end in
  10 <= (1010 - 1000) mod 2 ^ 32 /\
  snd (printStatus (Some 1000) 0 1010 (steady 600) m 10 lab 1) =
    [Print_str "Add: 0x"; Print_hex (address m); Print_str " ->"]
      ++ ports_report lab 1 (steady 600) m 0 (selected m) ++ [Println] /\
  (forall i, In i (selected m) <-> valid i m = true) /\
  (forall i, valid i m = true ->
     print_cells (steady 600) m i =
     [Print_str ": "; Print_str (if isTouched i m then "Touch" else "Release");
      Print_str "  Val: "; Print_float (value m i) 2;
      Print_str "  Thr: "; Print_float (threshold m i) 2;
      Print_str "  Raw: "; Print_num (steady 600 i)]) /\
  (forall portLabel',
     (forall k, (k < 1)%nat -> portLabel' k = lab k) ->
     printStatus (Some 1000) 0 1010 (steady 600) m 10 portLabel' 1 =
     printStatus (Some 1000) 0 1010 (steady 600) m 10 lab 1).
Proof.
  intros m lab.
  assert (H : 10 <= (1010 - 1000) mod 2 ^ 32) by (vm_compute; discriminate).
  split; [exact H|].
  exact (X12_printStatus_line 1000 0 1010 (steady 600) m 10 lab 1 H).
Defined.

(** ** A threshold out of reach *)

Lemma le_lt_trans x y z : F.le x y = true -> F.lt y z = true -> F.lt x z = true.
Proof.
  unfold F.lt, F.le, SFltb, SFleb.
  destruct x as [[]|[]| |[] m1 e1], y as [[]|[]| |[] m2 e2],
    z as [[]|[]| |[] m3 e3]; cbn; try discriminate; try reflexivity;
    change (Pos.compare_cont Eq) with Pos.compare;
    destruct (Z.compare_spec e1 e2), (Z.compare_spec e2 e3),
      (Z.compare_spec e1 e3); try discriminate; try reflexivity; try lia;
    destruct (Pos.compare_spec m1 m2), (Pos.compare_spec m2 m3),
      (Pos.compare_spec m1 m3); cbn; try discriminate; try reflexivity; lia.
Qed.

(** No clamped value is below a threshold that is at most the lower bound,
    nor above one that is at least the upper bound. *)
Lemma constrain_never_crosses (touched : bool) thr x lo hi :
  0 <= lo <= hi -> hi < 65536 ->
  (if touched then F.le (F.f32_of_Z hi) thr else F.le thr (F.f32_of_Z lo)) = true ->
  crosses touched thr (constrain x lo hi) = false.
Proof.
  intros Hlo Hhi Hthr.
  assert (Hlh : F.le (F.f32_of_Z lo) (F.f32_of_Z hi) = true)
    by (apply f32_of_Z_mono; lia).
  unfold crosses, constrain, F.gt. destruct touched.
  - destruct (F.lt x (F.f32_of_Z lo)).
    + apply le_not_lt. exact (le_trans _ _ _ Hlh Hthr).
    + destruct (SFltb (F.f32_of_Z hi) x) eqn:E; [now apply le_not_lt|].
      destruct (SFltb thr x) eqn:E'; [|reflexivity].
      pose proof (le_lt_trans _ _ _ Hthr E') as H.
      unfold F.lt in H. congruence.
  - destruct (F.lt x (F.f32_of_Z lo)) eqn:E1.
    + now apply le_not_lt.
    + destruct (SFltb (F.f32_of_Z hi) x).
      * apply le_not_lt. exact (le_trans _ _ _ Hthr Hlh).
      * destruct (F.lt x thr) eqn:E; [|reflexivity].
        rewrite (lt_le_trans _ _ _ E Hthr) in E1. discriminate.
Qed.

Lemma port_run_out_of_reach raws : forall p,
  0 <= p_minValue p <= p_maxValue p -> p_maxValue p < 65536 ->
  0 <= p_confirm p ->
  (if p_touched p then F.le (F.f32_of_Z (p_maxValue p)) (p_threshold p)
   else F.le (p_threshold p) (F.f32_of_Z (p_minValue p))) = true ->
  p_touched (port_run raws p) = p_touched p.
Proof.
  induction raws as [|raw raws IH]; intros p Hlo Hhi Hc Hthr; [reflexivity|].
  rewrite port_run_cons.
  assert (Hm : p_conditionMet raw p = false).
  { rewrite p_conditionMet_crosses. unfold p_next_value.
    now apply constrain_never_crosses. }
  assert (Hn : p_next_counter raw p = 0)
    by (unfold p_next_counter; now rewrite Hm).
  assert (Hf : p_flips raw p = false).
  { unfold p_flips. rewrite Hn. apply gtb_false. exact Hc. }
  rewrite IH; rewrite (port_step_stay raw p Hf); try reflexivity;
    unfold p_confirm in *; cbn; assumption.
Qed.

(** X13: a released channel whose threshold is at most [minValue], or a
    touched channel whose threshold is at least [maxValue], keeps its
    state through every sequence of [update] calls, whatever is read: the
    clamped smoothed value cannot get past such a threshold.  (The bounds
    are in order and the confirm count of the state is not negative.) *)
Theorem X13_threshold_out_of_reach m i caps :
  valid i m = true ->
  0 <= minValue m i <= maxValue m i -> maxValue m i < 65536 ->
  0 <= (if isTouched i m then releaseJuge m i else touchJuge m i) ->
  (if isTouched i m
   then F.le (F.f32_of_Z (maxValue m i)) (threshold m i)
   else F.le (threshold m i) (F.f32_of_Z (minValue m i))) = true ->
  isTouched i (run caps m) = isTouched i m.
Proof.
  intros Hv Hlo Hhi Hc Hthr.
  rewrite confirm_view in Hc by exact Hv.
  rewrite (isTouched_view i m Hv) in Hthr.
  rewrite !isTouched_view, run_view by now rewrite ?run_valid.
  now apply port_run_out_of_reach.
Qed.

Lemma X13_threshold_out_of_reach_witness :
  let m :=
    setReleaseMargin 0 200
      (run (repeat (steady 600) 16) (MPR121Manager mem0 (steady 710) 90 3)) in
  let caps := repeat (steady 65535) 100 in
  valid 0 m = true /\ isTouched 0 m = true /\
  0 <= minValue m 0 <= maxValue m 0 /\ maxValue m 0 < 65536 /\
  0 <= releaseJuge m 0 /\
  F.le (F.f32_of_Z (maxValue m 0)) (threshold m 0) = true /\
  isTouched 0 (run caps m) = true.
Proof.
  intros m caps.
  assert (Hv : valid 0 m = true) by (vm_compute; reflexivity).
  assert (Ht : isTouched 0 m = true) by (vm_compute; reflexivity).
  assert (Hlo : 0 <= minValue m 0 <= maxValue m 0)
    by (vm_compute; split; discriminate).
  assert (Hhi : maxValue m 0 < 65536) by (vm_compute; reflexivity).
  assert (Hc : 0 <= releaseJuge m 0) by (vm_compute; discriminate).
  assert (Hthr : F.le (F.f32_of_Z (maxValue m 0)) (threshold m 0) = true)
    by (vm_compute; reflexivity).
  split; [exact Hv|]. split; [exact Ht|]. split; [exact Hlo|]. split; [exact Hhi|].
  split; [exact Hc|]. split; [exact Hthr|].
  pose proof (X13_threshold_out_of_reach m 0%nat caps Hv Hlo Hhi) as H.
  rewrite Ht in H. exact (H Hc Hthr).
Defined.

(** ** [update] leaves the configuration alone *)

Lemma cells_params m m' i :
  cells_of m' i = cells_of m i ->
  minValue m' i = minValue m i /\ maxValue m' i = maxValue m i /\
  touchMargin m' i = touchMargin m i /\ releaseMargin m' i = releaseMargin m i /\
  touchJuge m' i = touchJuge m i /\ releaseJuge m' i = releaseJuge m i.
Proof.
  unfold cells_of. intros E. injection E as _ -> -> _ _ -> -> -> ->.
  repeat split.
Qed.

Lemma port_of_params m i p :
  port_of m i = p ->
  minValue m i = p_minValue p /\ maxValue m i = p_maxValue p /\
  touchMargin m i = p_touchMargin p /\ releaseMargin m i = p_releaseMargin p /\
  touchJuge m i = p_touchJuge p /\ releaseJuge m i = p_releaseJuge p.
Proof. intros <-. repeat split. Qed.

(** X14: [update] writes no parameter: mask, address, bounds, margins and
    confirm counts of every port are after any sequence of calls what they
    were before it. *)
Theorem X14_update_keeps_configuration caps m :
  activePort (run caps m) = activePort m /\
  address (run caps m) = address m /\
  forall i,
    minValue (run caps m) i = minValue m i /\
    maxValue (run caps m) i = maxValue m i /\
    touchMargin (run caps m) i = touchMargin m i /\
    releaseMargin (run caps m) i = releaseMargin m i /\
    touchJuge (run caps m) i = touchJuge m i /\
    releaseJuge (run caps m) i = releaseJuge m i.
Proof.
  revert m. induction caps as [|cap caps IH]; intros m; [repeat split|].
  rewrite run_cons.
  destruct (IH (update cap m)) as (Ha & Hd & Hp).
  assert (Haddr : forall l m0,
            address (fold_left
                       (fun m i => if bit (activePort m) i
                                   then update_port (cap i) i m else m) l m0)
            = address m0).
  { clear. induction l as [|i l IHl]; intros m0; [reflexivity|].
    cbn [fold_left]. rewrite IHl.
    destruct (bit (activePort m0) i); [|reflexivity].
    unfold update_port. cbn. split_ifs; reflexivity. }
  split; [now rewrite Ha, update_activePort|].
  split; [rewrite Hd; exact (Haddr (seq 0 maxPort) m)|].
  intros i. destruct (Hp i) as (-> & -> & -> & -> & -> & ->).
  destruct (valid i m) eqn:Hv.
  - destruct (port_of_params (update cap m) i _ (update_view cap m i Hv))
      as (-> & -> & -> & -> & -> & ->).
    destruct (port_step_params (cap i) (port_of m i)) as (-> & -> & -> & -> & -> & ->).
    repeat split.
  - exact (cells_params m (update cap m) i (update_cells_inactive cap m i Hv)).
Qed.

(** ** Setter calls in sequence *)

Lemma setter_address o m : address (exec o m) = address m.
Proof.
  destruct o; cbn [exec].
  - unfold update.
    generalize (seq 0 maxPort). intros l. revert m.
    induction l as [|i l IHl]; intros m; [reflexivity|].
    cbn [fold_left]. rewrite IHl.
    destruct (bit (activePort m) i); [|reflexivity].
    unfold update_port. cbn. split_ifs; reflexivity.
  - unfold setTouchMargin, rethreshold. split_ifs; reflexivity.
  - unfold setReleaseMargin, rethreshold. split_ifs; reflexivity.
  - unfold setSensorMinValue. split_ifs; reflexivity.
  - unfold setSensorMaxValue. split_ifs; reflexivity.
  - unfold setTouchJugeCount. split_ifs; reflexivity.
  - unfold setReleaseJugeCount. split_ifs; reflexivity.
Qed.

Lemma p_setter_commute o1 o2 p :
  op_port o1 <> None -> op_port o2 <> None ->
  (same_cell o1 o2 = true ->
     p_setter o1 (p_setter o2 p) = p_setter o1 p) /\
  (forall p1, op_port o1 = Some p1 -> op_port o2 = Some p1 ->
     same_cell o1 o2 = false ->
     p_setter o1 (p_setter o2 p) = p_setter o2 (p_setter o1 p)).
Proof.
  intros H1 H2.
  destruct o1 as [c1|q1 x1|q1 x1|q1 x1|q1 x1|q1 x1|q1 x1];
    [now contradiction H1|..];
    (destruct o2 as [c2|q2 x2|q2 x2|q2 x2|q2 x2|q2 x2|q2 x2];
     [now contradiction H2|..]);
    (split;
     [intros Hs | intros p1 E1 E2 Hs];
     cbn [op_port same_cell] in *;
     try (injection E1 as ->; injection E2 as ->);
     rewrite ?Nat.eqb_refl in Hs; try discriminate Hs;
     unfold p_setter, p_rethreshold; cbn;
     destruct (p_touched p); reflexivity).
Qed.

Lemma same_cell_port o1 o2 :
  same_cell o1 o2 = true -> op_port o1 = op_port o2.
Proof.
  destruct o1, o2; cbn; try discriminate; intros H;
    apply Nat.eqb_eq in H; now subst.
Qed.

Lemma same_state_of_ports m m' :
  activePort m = activePort m' -> address m = address m' ->
  currentTouched m = currentTouched m' ->
  (forall q, valid q m = true -> port_of m q = port_of m' q) ->
  (forall q, valid q m = false -> cells_of m q = cells_of m' q) ->
  same_state m m'.
Proof.
  intros Ha Hd Hc Hp Hi. repeat split; try assumption.
  intros q. destruct (valid q m) eqn:Hv; [|now apply Hi].
  apply port_of_cells. now apply Hp.
Qed.

(** X15: two setter calls that do not write the same parameter of the same
    port can be made in either order, and of two calls that do, the second
    alone decides: in both cases every member of the object ends up the
    same. *)
Theorem X15_setters_commute o1 o2 m :
  op_port o1 <> None -> op_port o2 <> None ->
  (same_cell o1 o2 = false ->
   same_state (exec o1 (exec o2 m)) (exec o2 (exec o1 m))) /\
  (same_cell o1 o2 = true ->
   same_state (exec o1 (exec o2 m)) (exec o1 m)).
Proof.
  intros H1 H2.
  assert (N1 : forall cap, o1 <> Update cap) by (intros cap ->; now apply H1).
  assert (N2 : forall cap, o2 <> Update cap) by (intros cap ->; now apply H2).
  split; intros Hs; apply same_state_of_ports;
    rewrite ?exec_activePort, ?setter_address, ?setter_currentTouched by assumption;
    try reflexivity.
  - intros q Hq. rewrite !exec_valid in Hq.
    rewrite !exec_view by now rewrite ?exec_valid.
    destruct (op_port o1) as [p1|] eqn:E1; [|now contradiction H1].
    destruct (op_port o2) as [p2|] eqn:E2; [|now contradiction H2].
    assert (X1 : forall p, port_exec o1 q p = if Nat.eqb p1 q then p_setter o1 p else p)
      by (intros p; destruct o1; cbn [port_exec]; rewrite ?E1; try reflexivity;
          now contradiction (N1 cap)).
    assert (X2 : forall p, port_exec o2 q p = if Nat.eqb p2 q then p_setter o2 p else p)
      by (intros p; destruct o2; cbn [port_exec]; rewrite ?E2; try reflexivity;
          now contradiction (N2 cap)).
    rewrite !X1, !X2.
    destruct (Nat.eqb_spec p1 q), (Nat.eqb_spec p2 q); try reflexivity.
    subst p1 p2.
    assert (H1' : op_port o1 <> None) by (rewrite E1; discriminate).
    assert (H2' : op_port o2 <> None) by (rewrite E2; discriminate).
    exact (proj2 (p_setter_commute o1 o2 (port_of m q) H1' H2') q E1 E2 Hs).
  - intros q Hq. rewrite !exec_valid in Hq.
    rewrite !exec_cells_inactive by now rewrite ?exec_valid. reflexivity.
  - intros q Hq. rewrite !exec_valid in Hq.
    rewrite !exec_view by now rewrite ?exec_valid.
    pose proof (same_cell_port o1 o2 Hs) as Ep.
    destruct (op_port o1) as [p1|] eqn:E1; [|now contradiction H1].
    assert (X1 : forall p, port_exec o1 q p = if Nat.eqb p1 q then p_setter o1 p else p)
      by (intros p; destruct o1; cbn [port_exec]; rewrite ?E1; try reflexivity;
          now contradiction (N1 cap)).
    assert (X2 : forall p, port_exec o2 q p = if Nat.eqb p1 q then p_setter o2 p else p)
      by (intros p; destruct o2; cbn [port_exec]; rewrite <- ?Ep; try reflexivity;
          now contradiction (N2 cap)).
    rewrite !X1, !X2.
    destruct (Nat.eqb_spec p1 q); [|reflexivity].
    assert (H1' : op_port o1 <> None) by (rewrite E1; discriminate).
    assert (H2' : op_port o2 <> None) by (rewrite <- Ep; discriminate).
    exact (proj1 (p_setter_commute o1 o2 (port_of m q) H1' H2') Hs).
  - intros q Hq. rewrite !exec_valid in Hq.
    rewrite !exec_cells_inactive by now rewrite ?exec_valid. reflexivity.
Qed.

Lemma X15_setters_commute_witness :
  let m := run (repeat (steady 600) 16) (MPR121Manager mem0 (steady 710) 90 3) in
  let o1 := SetTouchMargin 0 40 in
  let o2 := SetReleaseMargin 0 50 in
  let o3 := SetTouchMargin 0 70 in
  op_port o1 <> None /\ op_port o2 <> None /\ op_port o3 <> None /\
  same_cell o1 o2 = false /\ same_cell o1 o3 = true /\
  same_state (exec o1 (exec o2 m)) (exec o2 (exec o1 m)) /\
  same_state (exec o1 (exec o3 m)) (exec o1 m).
Proof.
  intros m o1 o2 o3.
  assert (H1 : op_port o1 <> None) by discriminate.
  assert (H2 : op_port o2 <> None) by discriminate.
  assert (H3 : op_port o3 <> None) by discriminate.
  split; [exact H1|]. split; [exact H2|]. split; [exact H3|].
  split; [reflexivity|]. split; [reflexivity|]. split.
  - exact (proj1 (X15_setters_commute o1 o2 m H1 H2) eq_refl).
  - exact (proj2 (X15_setters_commute o1 o3 m H1 H3) eq_refl).
Defined.
